(** * go-readability: a shallow embedding of the extraction engine

    The development follows [readability.go].  The HTML parser and serialiser
    (golang.org/x/net/html, goquery) are external collaborators: the tree they
    build is modelled by the inductive type [Node], goquery's selections by
    lists of nodes, and parsing / serialising are the methods of the class
    [Externals].  [float32] scores are modelled by exact rationals ([Qc]);
    every score the code builds is a small half-integer scaled by a ratio of
    two text lengths. *)

From Stdlib Require Import Ascii String QArith Qcanon.
From stdpp Require Import base tactics option list numbers strings gmap.

Local Open Scope string_scope.
Local Open Scope list_scope.

(** ** Strings and the regular expressions of the package *)

Module Str.

Definition is_upper (c : ascii) : bool :=
  let n := Ascii.nat_of_ascii c in (65 <=? n)%nat && (n <=? 90)%nat.

Definition lower_ascii (c : ascii) : ascii :=
  if is_upper c then Ascii.ascii_of_nat (Ascii.nat_of_ascii c + 32) else c.

(** [strings.ToLower] on the ASCII range (tag names). *)
Fixpoint ToLower (s : string) : string :=
  match s with
  | EmptyString => EmptyString
  | String c s' => String (lower_ascii c) (ToLower s')
  end.

(** Case folding as Go's [regexp] does it under [(?i)]: besides the ASCII
    letters, U+017F (long s, bytes C5 BF) folds to [s] and U+212A (Kelvin
    sign, bytes E2 84 AA) folds to [k]. *)
Fixpoint fold_case (s : string) : string :=
  match s with
  | EmptyString => EmptyString
  | String c s' =>
      match Ascii.nat_of_ascii c, s' with
      | 197, String c1 s1 =>
          if (Ascii.nat_of_ascii c1 =? 191)%nat then String "s"%char (fold_case s1)
          else String c (fold_case s')
      | 226, String c1 (String c2 s2) =>
          if (Ascii.nat_of_ascii c1 =? 132)%nat && (Ascii.nat_of_ascii c2 =? 170)%nat
          then String "k"%char (fold_case s2)
          else String c (fold_case s')
      | _, _ => String (lower_ascii c) (fold_case s')
      end
  end.

(** [sub] occurs somewhere in [s]. *)
Fixpoint contains (sub s : string) : bool :=
  String.prefix sub s ||
  match s with
  | EmptyString => false
  | String _ s' => contains sub s'
  end.

(** [s] ends with [suf]. *)
Fixpoint has_suffix (suf s : string) : bool :=
  String.eqb suf s ||
  match s with
  | EmptyString => false
  | String _ s' => has_suffix suf s'
  end.

(** [strings.Count(s, c)] for a one-byte separator. *)
Fixpoint Count (s : string) (c : ascii) : nat :=
  match s with
  | EmptyString => 0
  | String c' s' => (if Ascii.eqb c' c then 1 else 0) + Count s' c
  end.

(** A pattern [(?i)w1|w2|...|wn] of literal words, used with [MatchString]. *)
Definition match_words (words : list string) (s : string) : bool :=
  existsb (fun w => contains w (fold_case s)) words.

(** [strings.Replace(s, old, new, 1)]: the first occurrence only. *)
Fixpoint replace_first (old new s : string) : string :=
  if String.prefix old s then new +:+ String.substring (String.length old) (String.length s) s
  else match s with
       | EmptyString => EmptyString
       | String c s' => String c (replace_first old new s')
       end.

(** [re.ReplaceAllString(s, rep)] for a pattern [[cls]+]: every maximal run
    of bytes of the class becomes [rep]. *)
Fixpoint replace_runs (cls : ascii -> bool) (rep : string) (in_run : bool) (s : string) : string :=
  match s with
  | EmptyString => EmptyString
  | String c s' =>
      if cls c then (if in_run then "" else rep) +:+ replace_runs cls rep true s'
      else String c (replace_runs cls rep false s')
  end.

(** [re.ReplaceAllString(s, rep)] for a pattern [(w)+] of a literal word:
    [skip] bytes of the current occurrence are still to be passed over. *)
Fixpoint replace_word_runs (w rep : string) (skip : nat) (in_run : bool) (s : string) : string :=
  match s with
  | EmptyString => EmptyString
  | String c s' =>
      match skip with
      | S k => replace_word_runs w rep k in_run s'
      | O =>
          if String.prefix w s
          then (if in_run then "" else rep) +:+
               replace_word_runs w rep (String.length w - 1) true s'
          else String c (replace_word_runs w rep 0 false s')
      end
  end.

Definition codes (s : string) : list nat :=
  map Ascii.nat_of_ascii (list_ascii_of_string s).

Definition of_codes (l : list nat) : string :=
  string_of_list_ascii (map Ascii.ascii_of_nat l).

(** Length in bytes of the white space rune ([unicode.IsSpace]) that starts
    the byte sequence, 0 when there is none.  With [rev] the sequence is read
    backwards, for the last rune of a string. *)
Definition space_rune (rev : bool) (l : list nat) : nat :=
  (match l with
   | 9 :: _ | 10 :: _ | 11 :: _ | 12 :: _ | 13 :: _ | 32 :: _ => 1
   | x :: y :: rest =>
       let '(a, b) := if rev then (y, x) else (x, y) in
       if (a =? 194) && ((b =? 133) || (b =? 160)) then 2
       else match rest with
            | z :: _ =>
                let '(a, b, c) := if rev then (z, y, x) else (x, y, z) in
                if ((a =? 225) && (b =? 154) && (c =? 128))
                   || ((a =? 226) && (b =? 128) &&
                       (((128 <=? c) && (c <=? 138)) || (c =? 168) || (c =? 169) || (c =? 175)))
                   || ((a =? 226) && (b =? 129) && (c =? 159))
                   || ((a =? 227) && (b =? 128) && (c =? 128))
                then 3 else 0
            | [] => 0
            end
   | _ => 0
   end)%nat.

Fixpoint trim_left (fuel : nat) (rev : bool) (l : list nat) : list nat :=
  match fuel with
  | O => l
  | S fuel' =>
      match space_rune rev l with
      | O => l
      | n => trim_left fuel' rev (drop n l)
      end
  end.

(** [strings.TrimSpace]. *)
Definition TrimSpace (s : string) : string :=
  let l := trim_left (String.length s) false (codes s) in
  of_codes (reverse (trim_left (String.length s) true (reverse l))).

(** *** The three rewritings of [initializeHtml]

    They work on the raw text; [fuel] bounds the number of steps by the
    length of the text. *)

Definition is_ws (c : ascii) : bool :=
  let n := Ascii.nat_of_ascii c in
  ((n =? 9) || (n =? 10) || (n =? 12) || (n =? 13) || (n =? 32))%nat.

Fixpoint skip_while (p : ascii -> bool) (s : string) : string :=
  match s with
  | EmptyString => EmptyString
  | String c s' => if p c then skip_while p s' else s
  end.

(** The text after the first [>], if there is one: [[^>]*>]. *)
Fixpoint after_gt (s : string) : option string :=
  match s with
  | EmptyString => None
  | String c s' => if Ascii.eqb c ">"%char then Some s' else after_gt s'
  end.

Definition strip_prefix_ci (w s : string) : option string :=
  if String.eqb (ToLower (String.substring 0 (String.length w) s)) w
  then Some (String.substring (String.length w) (String.length s) s)
  else None.

(** One [<br[^>]*>[ \n\r\t]*] at the head of [s]; [[ \n\r\t]] has no form feed. *)
Definition br_unit (s : string) : option string :=
  match strip_prefix_ci "<br" s with
  | Some r =>
      match after_gt r with
      | Some r' =>
          Some (skip_while (fun c => is_ws c && negb (Ascii.nat_of_ascii c =? 12)%nat) r')
      | None => None
      end
  | None => None
  end.

Fixpoint br_units (fuel : nat) (s : string) : nat * string :=
  match fuel with
  | O => (O, s)
  | S fuel' =>
      match br_unit s with
      | Some r => let '(n, r') := br_units fuel' r in (S n, r')
      | None => (O, s)
      end
  end.

(** Two or more such units in a row, [(?i)(...){2,}], become [</p><p>]. *)
Fixpoint replaceBrs (fuel : nat) (s : string) : string :=
  match fuel with
  | O => s
  | S fuel' =>
      let '(n, r) := br_units fuel' s in
      if (2 <=? n)%nat then "</p><p>" +:+ replaceBrs fuel' r
      else match s with
           | EmptyString => EmptyString
           | String c s' => String c (replaceBrs fuel' s')
           end
  end.

(** A match of [(?i)<(\/?)\s*font[^>]*?>] at the head of [s]: the captured
    group and the text after the match. *)
Definition font_tag (s : string) : option (string * string) :=
  match s with
  | String "<"%char r =>
      let '(g, r1) := match r with
                      | String "/"%char r' => ("/", r')
                      | _ => ("", r)
                      end in
      match strip_prefix_ci "font" (skip_while is_ws r1) with
      | Some r2 =>
          match after_gt r2 with
          | Some r3 => Some (g, r3)
          | None => None
          end
      | None => None
      end
  | _ => None
  end.

(** Font tags rewritten to [<${1}span>]. *)
Fixpoint replaceFonts (fuel : nat) (s : string) : string :=
  match fuel with
  | O => s
  | S fuel' =>
      match font_tag s with
      | Some (g, r) => "<" +:+ g +:+ "span>" +:+ replaceFonts fuel' r
      | None =>
          match s with
          | EmptyString => EmptyString
          | String c s' => String c (replaceFonts fuel' s')
          end
      end
  end.

(** The text after the first [-->] of [s]. *)
Fixpoint after_comment_end (s : string) : option string :=
  if String.prefix "-->" s then Some (String.substring 3 (String.length s) s)
  else match s with
       | EmptyString => None
       | String _ s' => after_comment_end s'
       end.

(** [(?s)<!--.+?-->] removed: at least one byte stands between the marks. *)
Fixpoint stripComment (fuel : nat) (s : string) : string :=
  match fuel with
  | O => s
  | S fuel' =>
      match s with
      | EmptyString => EmptyString
      | String c s' =>
          match (if String.prefix "<!--" s
                 then match String.substring 4 (String.length s) s with
                      | String _ r => after_comment_end r
                      | EmptyString => None
                      end
                 else None) with
          | Some r => stripComment fuel' r
          | None => String c (stripComment fuel' s')
          end
      end
  end.

End Str.

Module Regexp.
Import Str.

Definition blacklistCandidatesRegexp : string -> bool :=
  match_words ["popupbody"].

Definition okMaybeItsACandidateRegexp : string -> bool :=
  match_words ["and"; "article"; "body"; "column"; "main"; "shadow"].

Definition unlikelyCandidatesRegexp : string -> bool :=
  match_words ["combx"; "comment"; "community"; "hidden"; "disqus"; "modal";
               "extra"; "foot"; "header"; "menu"; "remark"; "rss"; "shoutbox";
               "sidebar"; "sponsor"; "ad-break"; "agegate"; "pagination";
               "pager"; "popup"; "share"].

(** Matched against inner HTML: [(?i)<(dl|div|ol|pre|table|ul|header|footer|article)]. *)
Definition divToPElementsRegexp : string -> bool :=
  match_words ["<dl"; "<div"; "<ol"; "<pre"; "<table"; "<ul"; "<header";
               "<footer"; "<article"].

Definition okMaybeItsAHeaderFooterRegexp : string -> bool :=
  match_words ["header"; "footer"; "h1"; "h2"; "h3"; "h4"; "h5"; "h6"].

Definition negativeRegexp : string -> bool :=
  match_words ["combx"; "comment"; "com-"; "foot"; "footer"; "footnote";
               "masthead"; "media"; "meta"; "outbrain"; "promo"; "related";
               "scroll"; "shoutbox"; "sidebar"; "sponsor"; "shopping"; "tags";
               "tool"; "widget"].

Definition positiveRegexp : string -> bool :=
  match_words ["article"; "body"; "content"; "entry"; "hentry"; "main"; "page";
               "pagination"; "post"; "text"; "blog"; "story"].

(** [\.( |$)]: a full stop followed by a space, or ending the text. *)
Definition sentenceRegexp (s : string) : bool :=
  contains ". " s || has_suffix "." s.

End Regexp.

(** ** The document tree ([golang.org/x/net/html]) *)

Module html.

#[local] Set Warnings "-register-all".

Inductive NodeType : Set :=
  | ErrorNode | TextNode | DocumentNode | ElementNode | CommentNode | DoctypeNode.

#[global] Instance NodeType_eq_dec : EqDecision NodeType.
Proof. solve_decision. Defined.

Record Attribute : Set := mkAttr { Key : string; Val : string }.

(** A node with the subtree below it.  [ptr] stands for the address of the
    [*html.Node]: the code compares nodes and keys its candidate map by
    address.  The sibling and parent links of the Go structure are implicit
    in the position of the node in the tree. *)
Inductive Node : Set :=
  mkNode { ptr : nat;
           Type_ : NodeType;
           Data : string;
           Attr : list Attribute;
           children : list Node }.

Definition is_element (n : Node) : bool := bool_decide (Type_ n = ElementNode).

(** The addresses of a subtree, in document order. *)
Fixpoint ptrs (n : Node) : list nat :=
  ptr n :: flat_map ptrs (children n).

(** A well-formed tree has no sharing: every address occurs once. *)
Definition wf (n : Node) : Prop := NoDup (ptrs n).

(** The proper descendants of a node, in document order. *)
Fixpoint descendants (n : Node) : list Node :=
  flat_map (fun c => c :: descendants c) (children n).

(** Structural update of the child at address [p]: the child is replaced by
    the nodes [f parent child] in the child list of its parent.  The root of
    the tree stays.  [RemoveChild], [InsertBefore] and the in-place edits of a
    node are all instances. *)
Fixpoint rewrite_at (p : nat) (f : Node -> Node -> list Node) (n : Node) : Node :=
  mkNode (ptr n) (Type_ n) (Data n) (Attr n)
    (flat_map (fun c => if (ptr c =? p)%nat then f n c else [rewrite_at p f c])
              (children n)).

(** The node at address [p] below [n] together with its parent. *)
Fixpoint lookup_with_parent (p : nat) (n : Node) : option (Node * Node) :=
  (fix go (cs : list Node) : option (Node * Node) :=
     match cs with
     | [] => None
     | c :: cs' =>
         if (ptr c =? p)%nat then Some (n, c)
         else match lookup_with_parent p c with
              | Some r => Some r
              | None => go cs'
              end
     end) (children n).

End html.
Export html.

(** ** Selections ([github.com/PuerkitoBio/goquery]) *)

Module goquery.

(** The selectors the package uses: [*] and comma-separated tag names. *)
Inductive Selector : Set :=
  | Star
  | Tags (names : list string).

Definition matches (sel : Selector) (n : Node) : bool :=
  is_element n &&
  match sel with
  | Star => true
  | Tags names => bool_decide (Data n ∈ names)
  end.

(** [s.Find(sel)] on a one-node selection: the matching proper descendants,
    in document order. *)
Definition Find (sel : Selector) (n : Node) : list Node :=
  filter (fun c => matches sel c = true) (descendants n).

(** Duplicates (by address) are dropped, the first occurrence stays. *)
Fixpoint uniq (seen : list nat) (ns : list Node) : list Node :=
  match ns with
  | [] => []
  | n :: ns' =>
      if bool_decide (ptr n ∈ seen) then uniq seen ns'
      else n :: uniq (ptr n :: seen) ns'
  end.

(** [s.Find(sel)] on any selection. *)
Definition FindAll (sel : Selector) (s : list Node) : list Node :=
  uniq [] (flat_map (Find sel) s).

(** [s.Is(sel)] on a one-node selection. *)
Definition Is (sel : Selector) (n : Node) : bool := matches sel n.

(** [s.Text()]: the text nodes of the subtree, concatenated. *)
Fixpoint Text (n : Node) : string :=
  (if bool_decide (Type_ n = TextNode) then Data n else "") +:+
  String.concat "" (map Text (children n)).

Definition TextAll (s : list Node) : string := String.concat "" (map Text s).

(** [s.Attr(name)], the value only: the code drops the presence flag. *)
Definition AttrVal (name : string) (n : Node) : string :=
  match List.find (fun a => String.eqb (Key a) name) (Attr n) with
  | Some a => Val a
  | None => ""
  end.

Definition NodeName (n : Node) : string :=
  match Type_ n with
  | ElementNode | DoctypeNode => Data n
  | ErrorNode => "#error"
  | TextNode => "#text"
  | DocumentNode => "#document"
  | CommentNode => "#comment"
  end.

(** [s.Children()]: the element children. *)
Definition Children (n : Node) : list Node :=
  filter (fun c => is_element c = true) (children n).

(** [s.Parent()] inside the document [doc]: the parent when it is an
    element, nothing otherwise. *)
Definition Parent (doc : Node) (n : Node) : option Node :=
  match lookup_with_parent (ptr n) doc with
  | Some (par, _) => if is_element par then Some par else None
  | None => None
  end.

(** [s.Siblings()] inside [doc]: the other element children of the parent
    (of whatever type the parent is), in document order. *)
Definition Siblings (doc : Node) (n : Node) : list Node :=
  match lookup_with_parent (ptr n) doc with
  | Some (par, _) =>
      filter (fun c => is_element c && negb (ptr c =? ptr n)%nat = true) (children par)
  | None => []
  end.

(** [s.Union(t)]: the nodes of [t] not yet in [s] are appended to [s]; the
    result is not put back in document order. *)
Definition Union (s t : list Node) : list Node := s ++ uniq (map ptr s) t.

End goquery.
Export goquery.

(** ** Candidates and the document *)

(** [float32(n)] for an [int] [n]. *)
Abbreviation float32 := Qc_of_Z (only parsing).

Record candidate : Set := mkCandidate { selection : Node; score : Qc }.

Record Document : Type := mkDocument {
  input : string;
  document : Node;
  content : string;
  candidates : gmap nat candidate;
  bestCandidate : option candidate;
  Title : string;
  RemoveUnlikelyCandidates : bool;
  WeightClasses : bool;
  CleanConditionally : bool;
  BestCandidateHasImage : bool;
  RetryLength : Z;
  MinTextLength : Z;
  RemoveEmptyNodes : bool;
  WhitelistTags : list string
}.


(** Assignments to the fields the code writes. *)
Definition setDocument (doc : Node) (d : Document) : Document :=
  mkDocument (input d) doc (content d) (candidates d) (bestCandidate d) (Title d)
    (RemoveUnlikelyCandidates d) (WeightClasses d) (CleanConditionally d)
    (BestCandidateHasImage d) (RetryLength d) (MinTextLength d)
    (RemoveEmptyNodes d) (WhitelistTags d).
Definition setContent (s : string) (d : Document) : Document :=
  mkDocument (input d) (document d) s (candidates d) (bestCandidate d) (Title d)
    (RemoveUnlikelyCandidates d) (WeightClasses d) (CleanConditionally d)
    (BestCandidateHasImage d) (RetryLength d) (MinTextLength d)
    (RemoveEmptyNodes d) (WhitelistTags d).
Definition setCandidates (cs : gmap nat candidate) (d : Document) : Document :=
  mkDocument (input d) (document d) (content d) cs (bestCandidate d) (Title d)
    (RemoveUnlikelyCandidates d) (WeightClasses d) (CleanConditionally d)
    (BestCandidateHasImage d) (RetryLength d) (MinTextLength d)
    (RemoveEmptyNodes d) (WhitelistTags d).
Definition setBestCandidate (b : option candidate) (d : Document) : Document :=
  mkDocument (input d) (document d) (content d) (candidates d) b (Title d)
    (RemoveUnlikelyCandidates d) (WeightClasses d) (CleanConditionally d)
    (BestCandidateHasImage d) (RetryLength d) (MinTextLength d)
    (RemoveEmptyNodes d) (WhitelistTags d).
Definition setTitle (t : string) (d : Document) : Document :=
  mkDocument (input d) (document d) (content d) (candidates d) (bestCandidate d) t
    (RemoveUnlikelyCandidates d) (WeightClasses d) (CleanConditionally d)
    (BestCandidateHasImage d) (RetryLength d) (MinTextLength d)
    (RemoveEmptyNodes d) (WhitelistTags d).
Definition setLengths (retry minText : Z) (d : Document) : Document :=
  mkDocument (input d) (document d) (content d) (candidates d) (bestCandidate d) (Title d)
    (RemoveUnlikelyCandidates d) (WeightClasses d) (CleanConditionally d)
    (BestCandidateHasImage d) retry minText
    (RemoveEmptyNodes d) (WhitelistTags d).
Definition setFlags (unlikely weight conditionally : bool) (d : Document) : Document :=
  mkDocument (input d) (document d) (content d) (candidates d) (bestCandidate d) (Title d)
    unlikely weight conditionally
    (BestCandidateHasImage d) (RetryLength d) (MinTextLength d)
    (RemoveEmptyNodes d) (WhitelistTags d).

(** Shorthands to write trees down. *)
Definition elem (p : nat) (tag : string) (attrs : list Attribute) (ks : list Node) : Node :=
  mkNode p ElementNode tag attrs ks.
Definition text (p : nat) (s : string) : Node := mkNode p TextNode s [] [].

(** ** Link density *)

(** [getLinkDensity], the function and the method of the same body. *)
Definition getLinkDensity (s : Node) : Qc :=
  let linkLength := String.length (TextAll (Find (Tags ["a"]) s)) in
  let textLength := String.length (Text s) in
  if (textLength =? 0)%nat then 0%Qc
  else (float32 (Z.of_nat linkLength) / float32 (Z.of_nat textLength))%Qc.

(** The scaling that ends [scoreParagraphs]:
    [candidate.score * (1 - d.getLinkDensity(candidate.selection))]. *)
Definition scaleByLinkDensity (c : candidate) : candidate :=
  mkCandidate (selection c) (score c * (1 - getLinkDensity (selection c)))%Qc.



(** ** What the package takes from outside

    [NewDocumentFromReader] parses a text ([inl] is the error of the reader),
    [Html] serialises the children of a node ([s.Html()], and [doc.Html()] for
    the document node), and [mapRange] is the order in which a [range] over
    the candidate map yields its entries: some permutation, unspecified. *)

Class Externals : Type := {
  NewDocumentFromReader : string -> string + Node;
  Html : Node -> string;
  mapRange : gmap nat candidate -> list (nat * candidate);
  mapRange_perm : forall m, mapRange m ≡ₚ map_to_list m
}.

(** ** Tree edits *)

(** [removeNodes(s)] for a one-node selection: the node leaves the child
    list of its parent; nothing happens when [s.Parent()] is empty, that is
    when the parent is not an element. *)
Definition removeNodes (doc : Node) (s : Node) : Node :=
  rewrite_at (ptr s) (fun par c => if is_element par then [] else [c]) doc.

(** [node.Data = data]. *)
Definition setData (data : string) (doc : Node) (s : Node) : Node :=
  rewrite_at (ptr s)
    (fun _ c => [mkNode (ptr c) (Type_ c) data (Attr c) (children c)]) doc.

(** [node.Attr = make([]html.Attribute, 0)]. *)
Definition clearAttr (doc : Node) (s : Node) : Node :=
  rewrite_at (ptr s)
    (fun _ c => [mkNode (ptr c) (Type_ c) (Data c) [] (children c)]) doc.

(** The node becomes a text node without children:
    [node.Data = data; node.Type = html.TextNode; node.FirstChild = nil;
     node.LastChild = nil]. *)
Definition toTextNode (data : string) (doc : Node) (s : Node) : Node :=
  rewrite_at (ptr s) (fun _ c => [mkNode (ptr c) TextNode data (Attr c) []]) doc.

(** [replaceNodeWithChildren(n)]: the children take the place of the node. *)
Definition replaceNodeWithChildren (doc : Node) (s : Node) : Node :=
  rewrite_at (ptr s) (fun _ c => children c) doc.

(** ** Class weight and the score of a node *)

Import Str Regexp.

Definition classWeight (d : Document) (s : Node) : Z :=
  if negb (WeightClasses d) then 0%Z
  else
    let class := AttrVal "class" s in
    let id := AttrVal "id" s in
    let weight := 0%Z in
    let weight :=
      if negb (String.eqb class "") then
        let weight :=
          if negativeRegexp class && negb (okMaybeItsAHeaderFooterRegexp (NodeName s))
          then (weight - 25)%Z else weight in
        if positiveRegexp class then (weight + 25)%Z else weight
      else weight in
    if negb (String.eqb id "") then
      let weight :=
        if negativeRegexp id && negb (okMaybeItsAHeaderFooterRegexp (NodeName s))
        then (weight - 25)%Z else weight in
      if positiveRegexp id then (weight + 25)%Z else weight
    else weight.

Definition scoreNode (d : Document) (s : Node) : candidate :=
  let contentScore := classWeight d s in
  let contentScore :=
    if Is (Tags ["div"]) s then (contentScore + 5)%Z
    else if Is (Tags ["blockquote"; "form"]) s then 3%Z
    else if Is (Tags ["th"]) s then (contentScore - 5)%Z
    else contentScore in
  mkCandidate s (float32 contentScore).

(** ** Scoring the paragraphs *)

(** The content score of a text:
    [1 + (commas + 1) + min(len(text)/100, 3)]. *)
Definition contentScoreOf (text : string) : Qc :=
  (1 + float32 (Z.of_nat (Count text ",") + 1)
     + float32 (Z.min (Z.of_nat (String.length text) / 100) 3))%Qc.

Definition addScore (x : Qc) (c : candidate) : candidate :=
  mkCandidate (selection c) (score c + x)%Qc.

(** The body of the loop over [d.document.Find("p,td")].  [None] is the
    panic of [parent.Get(0)] on an empty selection. *)
Definition scoreParagraph (d : Document) (minimumTextLength : Z)
    (candidates : gmap nat candidate) (s : Node) : option (gmap nat candidate) :=
  let text := Text s in
  if (Z.of_nat (String.length text) <? minimumTextLength)%Z then Some candidates
  else
    match Parent (document d) s with
    | None => None
    | Some parent =>
        let grandparent := Parent (document d) parent in
        let candidates :=
          match candidates !! ptr parent with
          | Some _ => candidates
          | None => <[ptr parent := scoreNode d parent]> candidates
          end in
        let candidates :=
          match grandparent with
          | Some g =>
              match candidates !! ptr g with
              | Some _ => candidates
              | None => <[ptr g := scoreNode d g]> candidates
              end
          | None => candidates
          end in
        let contentScore := contentScoreOf text in
        let candidates := alter (addScore contentScore) (ptr parent) candidates in
        Some match grandparent with
             | Some g => alter (addScore (contentScore / 2)%Qc) (ptr g) candidates
             | None => candidates
             end
    end.


Fixpoint scoreParagraphsLoop (d : Document) (minimumTextLength : Z)
    (candidates : gmap nat candidate) (ps : list Node) : option (gmap nat candidate) :=
  match ps with
  | [] => Some candidates
  | s :: ps' =>
      match scoreParagraph d minimumTextLength candidates s with
      | Some candidates' => scoreParagraphsLoop d minimumTextLength candidates' ps'
      | None => None
      end
  end.

Definition scoreParagraphs (d : Document) (minimumTextLength : Z) : option Document :=
  match scoreParagraphsLoop d minimumTextLength ∅
          (Find (Tags ["p"; "td"]) (document d)) with
  | Some candidates => Some (setCandidates (scaleByLinkDensity <$> candidates) d)
  | None => None
  end.

(** ** The best candidate *)

(** The loop of [selectBestCandidate] over the candidates in the order the
    [range] yields them. *)
Definition betterCandidate (best : option candidate) (c : candidate) : option candidate :=
  match best with
  | None => Some c
  | Some b => if decide (score b < score c)%Qc then Some c else Some b
  end.

(** [selection] of the fallback is [d.document.Find("body")]; the parser
    builds one body, the first is taken.  Without any body the fallback is a
    candidate over the empty selection, written [None]. *)
Definition selectBest (order : list candidate) (doc : Node) : option candidate :=
  match fold_left betterCandidate order None with
  | Some best => Some best
  | None =>
      match Find (Tags ["body"]) doc with
      | body :: _ => Some (mkCandidate body 0%Qc)
      | [] => None
      end
  end.

Definition selectBestCandidate `{Externals} (d : Document) : Document :=
  setBestCandidate (selectBest (snd <$> mapRange (candidates d)) (document d)) d.

(** ** Unlikely candidates and misused divs *)

(** The test of [removeUnlikelyCandidates] on one element. *)
Definition isUnlikelyCandidate (s : Node) : bool :=
  let class := AttrVal "class" s in
  let id := AttrVal "id" s in
  let str := class +:+ id in
  blacklistCandidatesRegexp str
  || (unlikelyCandidatesRegexp str
      && negb (okMaybeItsACandidateRegexp str)
      && negb (okMaybeItsAHeaderFooterRegexp (NodeName s))).

(** The tree without the unlikely candidates, by structural recursion: a
    child goes, with all below it, when it is an element other than [html],
    [title] and [body] under an element and the test holds for it. *)
Fixpoint withoutUnlikely (n : Node) : Node :=
  mkNode (ptr n) (Type_ n) (Data n) (Attr n)
    (flat_map (fun c => if is_element n && is_element c
                           && negb (bool_decide (Data c ∈ ["html"; "title"; "body"]))
                           && isUnlikelyCandidate c
                        then [] else [withoutUnlikely c])
       (children n)).

(** [d.document.Find("*").Not("html,title,body").Each(...)]. *)
Definition removeUnlikelyCandidates (d : Document) : Document :=
  setDocument
    (fold_left (fun doc s => if isUnlikelyCandidate s then removeNodes doc s else doc)
       (filter (fun s => matches (Tags ["html"; "title"; "body"]) s = false)
          (Find Star (document d)))
       (document d)) d.

Definition transformMisusedDivsIntoParagraphs `{Externals} (d : Document) : Document :=
  setDocument
    (fold_left (fun doc s => if negb (divToPElementsRegexp (Html s))
                             then setData "p" doc s else doc)
       (Find (Tags ["header"; "footer"; "article"; "div"]) (document d))
       (document d)) d.

Definition nonContentTags : list string :=
  ["meta"; "script"; "style"; "iframe"; "link"; "form"].

(** The first loop of [prepareCandidates]:
    [d.document.Find(strings.Join(nonContentTags, ",")).Each(...)]. *)
Definition removeNonContent (d : Document) : Document :=
  setDocument (fold_left removeNodes (Find (Tags nonContentTags) (document d))
                 (document d)) d.

Definition prepareCandidates `{Externals} (d : Document) : option Document :=
  let d := removeNonContent d in
  let d := if RemoveUnlikelyCandidates d then removeUnlikelyCandidates d else d in
  let d := transformMisusedDivsIntoParagraphs d in
  match scoreParagraphs d (MinTextLength d) with
  | Some d => Some (selectBestCandidate d)
  | None => None
  end.

(** ** Assembling the article *)

(** [float32(math.Max(10, float64(score*.2)))]. *)
Definition siblingScoreThreshold (best : candidate) : Qc :=
  let x := (score best * Q2Qc (2 # 10))%Qc in
  if decide (float32 10 < x)%Qc then x else float32 10.

(** The value of [append] at the end of the loop body of [getArticle]. *)
Definition appendSibling (d : Document) (best : candidate) (s : Node) : bool :=
  let append := false in
  let append :=
    if (ptr s =? ptr (selection best))%nat then true
    else match candidates d !! ptr s with
         | Some c => if decide (siblingScoreThreshold best ≤ score c)%Qc then true else append
         | None => append
         end in
  if Is (Tags ["p"]) s then
    let linkDensity := getLinkDensity s in
    let content := Text s in
    let contentLength := String.length content in
    if (80 <=? contentLength)%nat && bool_decide (linkDensity < Q2Qc (25 # 100))%Qc then true
    else if (contentLength <? 80)%nat && bool_decide (linkDensity = 0%Qc)
         then sentenceRegexp content
         else append
  else append.

(** The selection the loop runs over:
    [best.selection.Siblings().Union(best.selection)]. *)
Definition articleNodes (d : Document) (best : candidate) : list Node :=
  Union (Siblings (document d) (selection best)) [selection best].

(** [fmt.Sprintf("<%s>%s</%s>\n", tag, html, tag)] for an appended node. *)
Definition articlePart `{Externals} (s : Node) : string :=
  let tag := if Is (Tags ["p"]) s then Data s else "div" in
  "<" +:+ tag +:+ ">" +:+ Html s +:+ "</" +:+ tag +:+ ">" +:+
  String (Ascii.ascii_of_nat 10) "".

Definition getArticle `{Externals} (d : Document) : string :=
  match bestCandidate d with
  | None => ""
  | Some best =>
      fold_left
        (fun output s => if appendSibling d best s then output +:+ articlePart s else output)
        (articleNodes d best) ""
  end.

(** ** Sanitizing *)

(** [sanitizeWhitespace]: runs of [&nbsp;], of blanks and of line ends are
    collapsed, the ends are trimmed. *)
Definition sanitizeWhitespace (text : string) : string :=
  let text := replace_word_runs "&nbsp;" " " 0 false text in
  let text := replace_runs (fun c => let n := Ascii.nat_of_ascii c in
                                     ((n =? 9) || (n =? 32))%nat) " " false text in
  let text := replace_runs (fun c => let n := Ascii.nat_of_ascii c in
                                     ((n =? 13) || (n =? 10) || (n =? 12))%nat)
                (String (Ascii.ascii_of_nat 10) "") false text in
  TrimSpace text.

Definition addTitle (title : string) (html : string) : string :=
  replace_first "<head></head>" ("<head><title>" +:+ title +:+ "</title></head>") html.

(** [d.document.Find("head title").First().Text()]. *)
Definition getTitle (d : Document) : string :=
  match FindAll (Tags ["title"]) (Find (Tags ["head"]) (document d)) with
  | t :: _ => Text t
  | [] => ""
  end.

Definition headerTags : list string := ["h1"; "h2"; "h3"; "h4"; "h5"; "h6"].

(** The decision of [cleanConditionally] on one element: is it removed? *)
Definition cleanConditionallyTest (d : Document) (s : Node) : bool :=
  let weight := float32 (classWeight d s) in
  let contentScore := match candidates d !! ptr s with
                      | Some c => score c
                      | None => 0%Qc
                      end in
  if bool_decide (weight + contentScore < 0)%Qc then true
  else
    let text := Text s in
    if (Count text "," <? 10)%nat then
      let count tag := Z.of_nat (length (Find (Tags [tag]) s)) in
      let p := count "p" in
      let img := count "img" in
      let li := (count "li" - 100)%Z in
      let embed := count "embed" in
      let input := count "input" in
      let contentLength := Z.of_nat (String.length (TrimSpace text)) in
      let linkDensity := getLinkDensity s in
      if (p <? img)%Z then true
      else if (p <? li)%Z && negb (Is (Tags ["ul"; "ol"]) s) then true
      else if (p / 3 <? input)%Z then true
      else if (contentLength <? MinTextLength d)%Z && ((img =? 0)%Z || (2 <? img)%Z) then true
      else if bool_decide (weight < float32 25)%Qc
              && bool_decide (Q2Qc (2 # 10) < linkDensity)%Qc then true
      else if bool_decide (float32 25 ≤ weight)%Qc
              && bool_decide (Q2Qc (5 # 10) < linkDensity)%Qc then true
      else if ((embed =? 1)%Z && (contentLength <? 75)%Z) || (1 <? embed)%Z then true
      else false
    else false.

(** [d.cleanConditionally(s, "table,ul,div")] on the bodies [s] of [doc]. *)
Definition cleanConditionally (d : Document) (doc : Node) (s : list Node) : Node :=
  if negb (CleanConditionally d) then doc
  else fold_left (fun doc s => if cleanConditionallyTest d s then removeNodes doc s else doc)
         (FindAll (Tags ["table"; "ul"; "div"]) s) doc.

Definition replaceWithWhitespace : gset string :=
  list_to_set ["dl"; "dd"; "ol"; "li"; "ul"; "address"; "center"].

(** The two tag sets after the loop over [d.WhitelistTags]. *)
Definition whitelistOf (tags : list string) : gset string :=
  list_to_set (ToLower <$> tags).
Definition replaceWithWhitespaceOf (tags : list string) : gset string :=
  replaceWithWhitespace ∖ whitelistOf tags.

(** The body of the loop that flattens the tree; [doc0] is the tree when the
    selection was taken: a node has a parent at its turn exactly when it had
    one then.  The state is the tree and the variable [text]. *)
Definition flattenStep (tags : list string) (doc0 : Node)
    (st : Node * string) (s : Node) : Node * string :=
  let '(doc, text) := st in
  if negb (is_element s) then (doc, text)
  else if bool_decide (Data s ∈ whitelistOf tags) then (clearAttr doc s, text)
  else if bool_decide (Data s ∈ replaceWithWhitespaceOf tags)
       then (toTextNode (" " +:+ Text s +:+ " ") doc s, text)
       else match lookup_with_parent (ptr s) doc0 with
            | None => (doc, Text s)
            | Some _ => (replaceNodeWithChildren doc s, text)
            end.

(** [s.Find("*").Each(...)] for the bodies [s] of [doc]. *)
Definition flatten (tags : list string) (doc : Node) : Node * string :=
  fold_left (flattenStep tags doc) (FindAll Star (Find (Tags ["body"]) doc)) (doc, "").

Definition sanitize `{Externals} (d : Document) (article : string) : string * Document :=
  let parsed := NewDocumentFromReader article in
  let d := setTitle (getTitle d) d in
  match parsed with
  | inl _ => ("", d)
  | inr doc =>
      let body doc := Find (Tags ["body"]) doc in
      let doc :=
        fold_left (fun doc header =>
                     if bool_decide (classWeight d header < 0)%Z
                        || bool_decide (Q2Qc (33 # 100) < getLinkDensity header)%Qc
                     then removeNodes doc header else doc)
          (FindAll (Tags headerTags) (body doc)) doc in
      let doc :=
        fold_left removeNodes
          (FindAll (Tags ["input"; "select"; "textarea"; "button"; "object"; "iframe"; "embed"])
             (body doc)) doc in
      let doc :=
        if RemoveEmptyNodes d then
          fold_left (fun doc s => if (String.length (TrimSpace (Html s)) =? 0)%nat
                                  then removeNodes doc s else doc)
            (FindAll (Tags ["p"]) (body doc)) doc
        else doc in
      let doc := cleanConditionally d doc (body doc) in
      let '(doc, text) := flatten (WhitelistTags d) doc in
      let text := if String.eqb text "" then Html doc else text in
      let text := addTitle (Title d) text in
      (sanitizeWhitespace text, d)
  end.

(** ** Rating the children of the body *)

Definition inArr (search : string) (arr : list string) : bool :=
  existsb (fun elem => String.eqb elem search) nonContentTags.

Definition elementNeedsRemoval (s : Node) : bool := inArr (NodeName s) nonContentTags.

Definition allowEmptyTag : list string := ["hr"; "br"; "img"].

Definition validEmptyElement (s : Node) : bool := inArr (NodeName s) allowEmptyTag.

(** The package variables; nothing assigns to them. *)
Module pkg.
Definition MinTextLength : Z := 25.
Definition ScoreValidContent : Z := 60.
Definition ScoreIDMatch : Z := 40.
Definition ScoreClassMatch : Z := 25.
End pkg.

(** [evalSelection] on a one-node selection ([s.Length()] is 1, the loop
    over the children is skipped).  The anchors are removed from the node
    wherever it hangs: the result is the score, the tree and the node as the
    removals leave them. *)
Definition evalSelection (doc : Node) (s : Node) : Z * Node * Node :=
  let class := AttrVal "class" s in
  let id := AttrVal "id" s in
  let score := 0%Z in
  let score :=
    if (0 <? String.length class)%nat then
      let score := if negativeRegexp class then (score - pkg.ScoreIDMatch)%Z else score in
      if positiveRegexp class then (score + pkg.ScoreIDMatch)%Z else score
    else score in
  let score :=
    if (0 <? String.length id)%nat then
      let score := if negativeRegexp id then (score - pkg.ScoreClassMatch)%Z else score in
      if positiveRegexp id then (score + pkg.ScoreClassMatch)%Z else score
    else score in
  let linkDensity := getLinkDensity s in
  let '(doc, s) :=
    if bool_decide (Q2Qc (3 # 10) < linkDensity)%Qc
    then (fold_left removeNodes (Find (Tags ["a"]) s) doc,
          fold_left removeNodes (Find (Tags ["a"]) s) s)
    else (doc, s) in
  let content := sanitizeWhitespace (Text s) in
  let contentLen := Z.of_nat (String.length content) in
  let score :=
    if (contentLen =? 0)%Z then
      if validEmptyElement s then (score + pkg.ScoreValidContent)%Z else score
    else score in
  let score := if (pkg.MinTextLength <? contentLen)%Z then (score + contentLen)%Z else score in
  (score, doc, s).

(** The body of the loop of [rateElements]. *)
Definition rateElement (doc : Node) (s : Node) : Node :=
  if elementNeedsRemoval s then removeNodes doc s
  else
    let '(score, doc, s) := evalSelection doc s in
    if (score <? pkg.ScoreValidContent)%Z then removeNodes doc s else doc.

(** [d.document.Find("body").Children().Each(...)]. *)
Definition rateElements (d : Document) : Document :=
  setDocument
    (fold_left rateElement
       (uniq [] (flat_map Children (Find (Tags ["body"]) (document d))))
       (document d)) d.

(** ** Building the document *)

(** What a run of the code ends in: a value, a panic of the Go runtime, or
    the exhaustion of the fuel that bounds the recursion in the model. *)
Inductive outcome (A : Type) : Type :=
  | Done (a : A)
  | Panic
  | OutOfFuel.
Arguments Done {A} a.
Arguments Panic {A}.
Arguments OutOfFuel {A}.

Definition preprocess (s : string) : string :=
  let s := replaceBrs (S (String.length s)) s in
  let s := replaceFonts (S (String.length s)) s in
  stripComment (S (String.length s)) s.

(** [d.initializeHtml(s)]: [inl] is the error returned, [inr] the document
    with its tree assigned.  Each unit of fuel pays for one call. *)
Fixpoint initializeHtml `{Externals} (fuel : nat) (d : Document) (s : string)
  : outcome (string + Document) :=
  match fuel with
  | O => OutOfFuel
  | S fuel' =>
      match NewDocumentFromReader (preprocess s) with
      | inl err => Done (inl err)
      | inr doc =>
          match Find (Tags ["body"]) doc with
          | [] => initializeHtml fuel' d "<body/>"
          | _ :: _ => Done (inr (setDocument doc d))
          end
      end
  end.

(** The [nil] of the field [document] before [initializeHtml] has run. *)
Definition nilDocument : Node := mkNode 0 DocumentNode "" [] [].

(** The literal [&Document{input: s, ...}] of [NewDocument]. *)
Definition newDocument (s : string) : Document :=
  mkDocument s nilDocument "" ∅ None "" true true true false 250 25 true
    ["div"; "p"; "h1"].

Definition NewDocument `{Externals} (fuel : nat) (s : string) : outcome (string + Document) :=
  initializeHtml fuel (newDocument s) s.

(** ** Content *)

(** The first statement of [Content]:
    [d.document.Find("html head").Children().Not("title").Each(...)]. *)
Definition removeHeadChildren (d : Document) : Document :=
  setDocument
    (fold_left removeNodes
       (filter (fun s => matches (Tags ["title"]) s = false)
          (uniq [] (flat_map Children
                      (FindAll (Tags ["head"]) (Find (Tags ["html"]) (document d))))))
       (document d)) d.

(** [d.Content()].  The function returns after [rateElements], with the
    serialised tree ([sanitizeWhitespace(content)] is called and its result
    dropped); the statements that follow the [return] in the source are never
    run, and no statement before it assigns [d.content]. *)
Definition Content `{Externals} (d : Document) : string * Document :=
  if String.eqb (content d) "" then
    let d := removeHeadChildren d in
    let d := rateElements d in
    let content := Html (document d) in
    let _ := sanitizeWhitespace content in
    (content, d)
  else (content d, d).

(** ** The retry loop

    The statements of [Content] from [d.prepareCandidates()] on: they are the
    whole body of the function in the revision without [rateElements], and
    the unreachable rest of it in the revision with.  The section is
    parametric in the stages the loop calls and in the length it tests
    ([len(strings.TrimSpace(articleText))] in the former,
    [len(articleText)] in the latter). *)

Section RetryLoop.
Context (prepareCandidates_ : Document -> option Document)
        (getArticle_ : Document -> string)
        (sanitize_ : Document -> string -> string * Document)
        (initializeHtml_ : Document -> string -> outcome (string + Document))
        (length_ : string -> Z).

(** One run of the three stages. *)
Definition runPipeline (d : Document) : option (string * Document) :=
  match prepareCandidates_ d with
  | None => None
  | Some d => Some (sanitize_ d (getArticle_ d))
  end.

(** [d.initializeHtml(d.input)] with the error dropped. *)
Definition reinitialize (d : Document) : outcome Document :=
  match initializeHtml_ d (input d) with
  | Done (inr d') => Done d'
  | Done (inl _) => Done d
  | Panic => Panic
  | OutOfFuel => OutOfFuel
  end.

(** The order in which the flags are given up. *)
Definition relaxFlag (d : Document) : option Document :=
  if RemoveUnlikelyCandidates d then
    Some (setFlags false (WeightClasses d) (CleanConditionally d) d)
  else if WeightClasses d then
    Some (setFlags (RemoveUnlikelyCandidates d) false (CleanConditionally d) d)
  else if CleanConditionally d then
    Some (setFlags (RemoveUnlikelyCandidates d) (WeightClasses d) false d)
  else None.

(** The statements guarded by [d.content == ""]; [Content_] is the
    recursive call.  The retry is [d.initializeHtml(d.input);
    articleText = d.Content()], followed by the assignment
    [d.content = articleText] that ends the block. *)
Definition contentBody (Content_ : Document -> outcome (string * Document))
    (d : Document) : outcome (string * Document) :=
  match runPipeline d with
  | None => Panic
  | Some (articleText, d) =>
      if (length_ articleText <? RetryLength d)%Z then
        match relaxFlag d with
        | Some d =>
            match reinitialize d with
            | Done d =>
                match Content_ d with
                | Done (articleText, d) => Done (articleText, setContent articleText d)
                | r => r
                end
            | Panic => Panic
            | OutOfFuel => OutOfFuel
            end
        | None =>
            let d := setContent articleText d in
            Done (articleText, setContent articleText d)
        end
      else Done (articleText, setContent articleText d)
  end.

(** Each unit of fuel pays for one call of [Content]. *)
Fixpoint ContentWithRetry (fuel : nat) (d : Document) : outcome (string * Document) :=
  match fuel with
  | O => OutOfFuel
  | S fuel' =>
      if String.eqb (content d) "" then contentBody (ContentWithRetry fuel') d
      else Done (content d, d)
  end.

End RetryLoop.

(** The flags still on: what the retries can use up. *)
Definition flagsOn (d : Document) : nat :=
  Nat.b2n (RemoveUnlikelyCandidates d) + Nat.b2n (WeightClasses d)
  + Nat.b2n (CleanConditionally d).

(** The fields that only [Content] and the caller assign. *)
Definition sameSettings (d d' : Document) : Prop :=
  RemoveUnlikelyCandidates d' = RemoveUnlikelyCandidates d /\
  WeightClasses d' = WeightClasses d /\
  CleanConditionally d' = CleanConditionally d /\
  RetryLength d' = RetryLength d /\
  content d' = content d /\
  input d' = input d.

(** The statements of [Content] that follow its [return], with the stages
    of the package: what a call would run, were they reached. *)
Definition ContentAfterReturn `{Externals} (fuel : nat) (d : Document)
  : outcome (string * Document) :=
  ContentWithRetry prepareCandidates getArticle sanitize (initializeHtml 2)
    (fun s => Z.of_nat (String.length s)) fuel d.

(** ** An instance to run the model on examples

    A plain serialiser (no escaping, every element closed), a parser that
    looks the text up in a table, and the candidate map read in key order. *)

Fixpoint exampleRender (n : Node) : string :=
  match Type_ n with
  | TextNode => Data n
  | ElementNode =>
      "<" +:+ Data n +:+
      String.concat "" (map (fun a => " " +:+ Key a +:+ "='" +:+ Val a +:+ "'") (Attr n)) +:+
      ">" +:+ String.concat "" (map exampleRender (children n)) +:+ "</" +:+ Data n +:+ ">"
  | _ => String.concat "" (map exampleRender (children n))
  end.

Definition exampleParse (table : list (string * Node)) (s : string) : string + Node :=
  match List.find (fun e => String.eqb (fst e) s) table with
  | Some e => inr (snd e)
  | None => inl "parse error"
  end.

#[export] Instance exampleExternals (table : list (string * Node)) : Externals :=
  {| NewDocumentFromReader := exampleParse table;
     Html := fun n => String.concat "" (map exampleRender (children n));
     mapRange := map_to_list;
     mapRange_perm := fun m => reflexivity (map_to_list m) |}.

(** ** Example trees *)


(** ** The loops over a selection, read as one pass over the tree

    Every [Each] loop of the package that edits the tree visits a selection
    in document order and, at each node, leaves it, removes it, lifts its
    children into its place, turns it into a text leaf or rewrites its tag
    and attributes.  [edited] is the tree such a loop should leave, by
    structural recursion; the loops themselves are the folds above. *)

Inductive edit : Set :=
  | Same
  | Remove
  | Lift
  | Leaf (data : string)
  | Relabel (data : string)
  | ClearAttr.

Definition apply_edit (e : edit) (c : Node) : list Node :=
  match e with
  | Same => [c]
  | Remove => []
  | Lift => children c
  | Leaf data => [mkNode (ptr c) TextNode data (Attr c) []]
  | Relabel data => [mkNode (ptr c) (Type_ c) data (Attr c) (children c)]
  | ClearAttr => [mkNode (ptr c) (Type_ c) (Data c) [] (children c)]
  end.

Section Pass.
(** [sel ctx c]: is [c] in the selection, [ctx] being what is known from its
    ancestors; [down ctx c]: the context of the children of [c];
    [dec c pe]: the edit at [c], [pe] telling whether its parent is an
    element at that time. *)
Context (sel : bool -> Node -> bool) (down : bool -> Node -> bool)
        (dec : Node -> bool -> edit).

Fixpoint selected (ctx : bool) (c : Node) : list Node :=
  (if sel ctx c then [c] else []) ++ flat_map (selected (down ctx c)) (children c).

Fixpoint editedChild (ctx pe : bool) (c : Node) : list Node :=
  match (if sel ctx c then dec c pe else Same) with
  | Same =>
      [mkNode (ptr c) (Type_ c) (Data c) (Attr c)
         (flat_map (editedChild (down ctx c) (is_element c)) (children c))]
  | Remove => []
  | Lift => flat_map (editedChild (down ctx c) pe) (children c)
  | Leaf data => [mkNode (ptr c) TextNode data (Attr c) []]
  | Relabel data =>
      [mkNode (ptr c) (Type_ c) data (Attr c)
         (flat_map (editedChild (down ctx c) (is_element c)) (children c))]
  | ClearAttr =>
      [mkNode (ptr c) (Type_ c) (Data c) []
         (flat_map (editedChild (down ctx c) (is_element c)) (children c))]
  end.

Definition edited (ctx : bool) (doc : Node) : Node :=
  mkNode (ptr doc) (Type_ doc) (Data doc) (Attr doc)
    (flat_map (editedChild ctx (is_element doc)) (children doc)).

(** The loop: one [rewrite_at] per node of the selection. *)
Definition editAt (doc : Node) (s : Node) : Node :=
  rewrite_at (ptr s) (fun par c => apply_edit (dec s (is_element par)) c) doc.

End Pass.

(** The page of the first test of the package, the div given a class. *)
Definition shortBestInput : string :=
  "<html><head><title>title!</title></head><body><div class='content'><p>Some content</p></div></body>".

Definition shortBestTree : Node :=
  mkNode 0 DocumentNode "" []
    [elem 1 "html" []
       [elem 2 "head" [] [elem 3 "title" [] [text 4 "title!"]];
        elem 5 "body" []
          [elem 6 "div" [mkAttr "class" "content"]
             [elem 7 "p" [] [text 8 "Some content"]]]]].

(** A best candidate between two long paragraphs. *)
Definition betweenParagraphsTree : Node :=
  mkNode 0 DocumentNode "" []
    [elem 1 "html" []
       [elem 2 "head" [] [];
        elem 3 "body" []
          [elem 4 "p" []
             [text 5 "The first paragraph runs for more than eighty bytes, so that it is taken on its own."];
           elem 6 "div" [mkAttr "class" "article"]
             [elem 7 "table" []
                [elem 8 "tr" []
                   [elem 9 "td" [] [text 10 "A cell of text, with commas, in a table."]]]];
           elem 11 "p" []
             [text 12 "The last paragraph, too, runs for more than eighty bytes and is taken on its own."]]]].


(** [<body><p>a<br>b</p></body>], as the parser builds it. *)
Definition brInput : string := "<p>a<br>b</p>".



(** [<body/>] as the parser builds it, and a page without text. *)
Definition placeholderTree : Node :=
  mkNode 0 DocumentNode "" []
    [elem 1 "html" [] [elem 2 "head" [] []; elem 3 "body" [] []]].

(** A parser for the examples that knows the placeholder, builds no body
    for the empty text and fails on any other text. *)
Definition noBodyTable : list (string * Node) :=
  [("<body/>", placeholderTree); ("", mkNode 0 DocumentNode "" [] [])].

(** A page whose body keeps one of its two children. *)
Definition keptInput : string :=
  "<html><head><title>t</title><link></head><body><div class='content'>Thirty bytes of text, or more.</div><span>x</span></body></html>".

Definition keptTree : Node :=
  mkNode 0 DocumentNode "" []
    [elem 1 "html" []
       [elem 2 "head" [] [elem 3 "title" [] [text 4 "t"]; elem 5 "link" [] []];
        elem 6 "body" []
          [elem 7 "div" [mkAttr "class" "content"] [text 8 "Thirty bytes of text, or more."];
           elem 9 "span" [] [text 10 "x"]]]].

(** A sidebar next to the story. *)
Definition sidebarTree : Node :=
  mkNode 0 DocumentNode "" []
    [elem 1 "html" []
       [elem 2 "head" [] [];
        elem 3 "body" []
          [elem 4 "div" [mkAttr "id" "sidebar"] [elem 5 "p" [] [text 6 "An advertisement"]];
           elem 7 "div" [mkAttr "class" "story"] [elem 8 "p" [] [text 9 "The story, at last."]]]]].


(** The document a tree is held in, with the settings of [NewDocument]. *)
Definition exampleDocument (tree : Node) : Document :=
  setDocument tree (newDocument "").

(** ** Definitions the proofs work with *)

(** Induction on trees, with the property at hand for every child. *)
Section NodeInduction.
Variable P : Node -> Prop.
Hypothesis step : forall p t d a ks, Forall P ks -> P (mkNode p t d a ks).

Fixpoint Node_forall_ind (n : Node) : P n :=
  match n with
  | mkNode p t d a ks =>
      step p t d a ks
        ((fix go (l : list Node) : Forall P l :=
            match l with
            | [] => @List.Forall_nil _ P
            | c :: l' => @List.Forall_cons _ P c l' (Node_forall_ind c) (go l')
            end) ks)
  end.
End NodeInduction.

(** [rewrite_at] on a list of siblings whose parent is an element or not. *)
Definition rewriteF (p : nat) (g : bool -> Node -> list Node) (pe : bool)
    (ks : list Node) : list Node :=
  flat_map (fun c => if (ptr c =? p)%nat then g pe c
                     else [rewrite_at p (fun par => g (is_element par)) c]) ks.

(** One step of a loop, and the loop, on a list of siblings. *)
Section PassFold.
Context (dec : Node -> bool -> edit).

Definition stepF (pe : bool) (F : list Node) (s : Node) : list Node :=
  rewriteF (ptr s) (fun pe c => apply_edit (dec s pe) c) pe F.

Definition foldF (L : list Node) (pe : bool) (F : list Node) : list Node :=
  fold_left (stepF pe) L F.

End PassFold.

(** The elements [removeUnlikelyCandidates] looks at. *)
Definition unlikelyEligible (c : Node) : bool :=
  is_element c && negb (bool_decide (Data c ∈ ["html"; "title"; "body"])).


(** Every entry of the map sits at the address of its node, and the node
    has the property [Q]. *)
Definition keyed (Q : Node -> Prop) (cs : gmap nat candidate) : Prop :=
  forall k c, cs !! k = Some c -> ptr (selection c) = k /\ Q (selection c).

(** [n] is the parent or the grandparent of a paragraph or cell of [doc]
    with at least [minimumTextLength] bytes of text. *)
Definition scoredFor (doc : Node) (minimumTextLength : Z) (n : Node) : Prop :=
  is_element n = true /\
  (n = doc \/ n ∈ descendants doc) /\
  exists s, s ∈ Find (Tags ["p"; "td"]) doc /\
            (minimumTextLength <= Z.of_nat (String.length (Text s)))%Z /\
            (Parent doc s = Some n \/
             exists par, Parent doc s = Some par /\ Parent doc par = Some n).

(** [m] is [n] with some subtrees cut out, every node that stays being as
    it was. *)
#[local] Set Warnings "-register-all".
Inductive prunedF (R : Node -> Node -> Prop) : list Node -> list Node -> Prop :=
  | prunedF_nil : prunedF R [] []
  | prunedF_drop k ks ms : prunedF R ks ms -> prunedF R (k :: ks) ms
  | prunedF_keep k m ks ms : R k m -> prunedF R ks ms -> prunedF R (k :: ks) (m :: ms).

Inductive pruned : Node -> Node -> Prop :=
  | pruned_node p t d a ks ms :
      prunedF pruned ks ms -> pruned (mkNode p t d a ks) (mkNode p t d a ms).

(** Every node the selector matches hangs from an element: so it is in a
    tree the parser builds, where only the document node is none. *)
Fixpoint hang_from_elements (sl : Selector) (n : Node) : bool :=
  forallb (fun c => (negb (matches sl c) || is_element n) && hang_from_elements sl c)
    (children n).

(** The tree [transformMisusedDivsIntoParagraphs] should leave, by
    structural recursion: below the root, a header, footer, article or div
    whose inner HTML opens no block element is a [p]. *)
Fixpoint divsToParagraphs `{Externals} (n : Node) : Node :=
  mkNode (ptr n) (Type_ n)
    (if matches (Tags ["header"; "footer"; "article"; "div"]) n
        && negb (divToPElementsRegexp (Html n))
     then "p" else Data n)
    (Attr n) (map divsToParagraphs (children n)).



(** The tags a paragraph or a cell can have when [scoreParagraphs] runs, or
    could have had before [transformMisusedDivsIntoParagraphs]. *)
Definition paragraphTags : list string :=
  ["p"; "td"; "header"; "footer"; "article"; "div"].
#[local] Set Warnings "-clear-no-such-hyp".

(** ** Structural facts about trees and selections *)






Lemma Find_unfold (sel : Selector) (n : Node) :
  Find sel n =
  flat_map (fun c => (if matches sel c then [c] else []) ++ Find sel c) (children n).
Proof.
  unfold Find. destruct n as [p t d a ks]; simpl.
  induction ks as [|c ks IH]; [done |].
  simpl. rewrite filter_cons, filter_app, IH.
  destruct (matches sel c) eqn:E.
  - rewrite decide_True by done. done.
  - rewrite decide_False by done. done.
Qed.



(** ** Link density *)

Local Open Scope Qc_scope.














(** ** The best candidate *)







(** ** Scaling a score by the link density *)






(** ** Addresses, descendants and parents *)

Lemma descendants_unfold (n : Node) :
  descendants n = flat_map (fun c => c :: descendants c) (children n).
Proof. by destruct n. Qed.

Lemma ptrs_unfold (n : Node) : ptrs n = ptr n :: flat_map ptrs (children n).
Proof. by destruct n. Qed.

Lemma ptrs_descendants (n : Node) : ptrs n = ptr n :: map ptr (descendants n).
Proof.
  induction n as [p t d a ks IH] using Node_forall_ind. simpl. f_equal.
  induction IH as [|c ks Hc _ IHks]; [done |].
  simpl. rewrite map_app, <-IHks. by rewrite Hc.
Qed.





(** What [lookup_with_parent] finds. *)
Lemma lookup_with_parent_Some (p : nat) (doc par c : Node) :
  lookup_with_parent p doc = Some (par, c) ->
  (par = doc \/ par ∈ descendants doc) /\ c ∈ children par /\ ptr c = p.
Proof.
  induction doc as [q t d a ks IH] using Node_forall_ind. simpl.
  assert (Hgen : forall pre,
    (fix go (cs : list Node) : option (Node * Node) :=
       match cs with
       | [] => None
       | c0 :: cs' =>
           if (ptr c0 =? p)%nat then Some (mkNode q t d a (pre ++ ks), c0)
           else match lookup_with_parent p c0 with
                | Some r => Some r
                | None => go cs'
                end
       end) ks = Some (par, c) ->
    (par = mkNode q t d a (pre ++ ks) \/ par ∈ flat_map (fun c => c :: descendants c) ks)
    /\ c ∈ children par /\ ptr c = p).
  { induction IH as [|c0 ks Hc0 _ IHks]; intros pre; [done |].
    destruct (Nat.eqb_spec (ptr c0) p) as [E | NE].
    - intros [= <- <-]. split; [by left |]. split; [| done].
      simpl. apply elem_of_app. right. by left.
    - destruct (lookup_with_parent p c0) as [r|] eqn:Hr.
      + intros [= ->]. destruct (Hc0 eq_refl) as ([-> | Hpar] & Hc & Hp).
        * split; [| done]. right. simpl. by left.
        * split; [| done]. right. simpl. right. apply elem_of_app. by left.
      + intros H. specialize (IHks (pre ++ [c0])).
        rewrite <-app_assoc in IHks. simpl in IHks.
        destruct (IHks H) as ([-> | Hpar] & Hc & Hp).
        * split; [by left | done].
        * split; [| done]. right. simpl. right. apply elem_of_app. by right. }
  intros H. apply (Hgen []) in H. done.
Qed.

Lemma Parent_Some (doc s par : Node) :
  Parent doc s = Some par ->
  is_element par = true /\ (par = doc \/ par ∈ descendants doc) /\
  exists c, c ∈ children par /\ ptr c = ptr s.
Proof.
  unfold Parent. destruct (lookup_with_parent (ptr s) doc) as [[par' c]|] eqn:E; [| done].
  destruct (is_element par') eqn:Hel; [| done]. intros [= ->].
  apply lookup_with_parent_Some in E as (Hpar & Hc & Hp). eauto.
Qed.


(** ** Scoring the paragraphs *)





(** ** A loop over a selection is a pass over the tree *)

Lemma rewrite_at_rewriteF (p : nat) (g : bool -> Node -> list Node) (n : Node) :
  rewrite_at p (fun par => g (is_element par)) n =
  mkNode (ptr n) (Type_ n) (Data n) (Attr n) (rewriteF p g (is_element n) (children n)).
Proof. by destruct n. Qed.

Lemma rewriteF_app p g pe (F1 F2 : list Node) :
  rewriteF p g pe (F1 ++ F2) = rewriteF p g pe F1 ++ rewriteF p g pe F2.
Proof. apply flat_map_app. Qed.

Lemma rewrite_at_absent (p : nat) (f : Node -> Node -> list Node) (n : Node) :
  p ∉ ptrs n -> rewrite_at p f n = n.
Proof.
  induction n as [q t d a ks IH] using Node_forall_ind. simpl.
  intros Hp. f_equal. apply not_elem_of_cons in Hp as [_ Hp].
  generalize (f (mkNode q t d a ks)). intros h.
  induction IH as [|c ks Hc _ IHks]; [done |].
  simpl in *. apply not_elem_of_app in Hp as [Hpc Hpks].
  destruct (Nat.eqb_spec (ptr c) p) as [E | NE].
  - exfalso. apply Hpc. rewrite ptrs_unfold, E. by left.
  - rewrite (Hc Hpc), (IHks Hpks). done.
Qed.

Lemma rewriteF_absent p g pe (F : list Node) :
  p ∉ flat_map ptrs F -> rewriteF p g pe F = F.
Proof.
  induction F as [|c F IH]; [done |]. simpl.
  intros [Hpc HpF]%not_elem_of_app.
  change (rewriteF p g pe (c :: F))
    with ((if (ptr c =? p)%nat then g pe c
           else [rewrite_at p (fun par => g (is_element par)) c]) ++ rewriteF p g pe F).
  destruct (Nat.eqb_spec (ptr c) p) as [E | NE].
  - exfalso. apply Hpc. rewrite ptrs_unfold, E. by left.
  - rewrite (IH HpF), rewrite_at_absent by done. done.
Qed.

Section PassProof.
Context (sel : bool -> Node -> bool) (down : bool -> Node -> bool)
        (dec : Node -> bool -> edit).

Lemma editedChild_unfold (ctx pe : bool) (c : Node) :
  editedChild sel down dec ctx pe c =
  match (if sel ctx c then dec c pe else Same) with
  | Same =>
      [mkNode (ptr c) (Type_ c) (Data c) (Attr c)
         (flat_map (editedChild sel down dec (down ctx c) (is_element c)) (children c))]
  | Remove => []
  | Lift => flat_map (editedChild sel down dec (down ctx c) pe) (children c)
  | Leaf data => [mkNode (ptr c) TextNode data (Attr c) []]
  | Relabel data =>
      [mkNode (ptr c) (Type_ c) data (Attr c)
         (flat_map (editedChild sel down dec (down ctx c) (is_element c)) (children c))]
  | ClearAttr =>
      [mkNode (ptr c) (Type_ c) (Data c) []
         (flat_map (editedChild sel down dec (down ctx c) (is_element c)) (children c))]
  end.
Proof. by destruct c. Qed.

Lemma foldF_app_sel (L1 L2 : list Node) pe F :
  (foldF dec) (L1 ++ L2) pe F = (foldF dec) L2 pe ((foldF dec) L1 pe F).
Proof. apply fold_left_app. Qed.

Lemma foldF_app (L : list Node) pe (F1 F2 : list Node) :
  (foldF dec) L pe (F1 ++ F2) = (foldF dec) L pe F1 ++ (foldF dec) L pe F2.
Proof.
  revert F1 F2. induction L as [|s L IH]; intros F1 F2; [done |].
  simpl. unfold stepF at 1. rewrite rewriteF_app. apply IH.
Qed.

Lemma foldF_absent (L : list Node) pe (F : list Node) :
  (forall p, p ∈ map ptr L -> p ∉ flat_map ptrs F) -> (foldF dec) L pe F = F.
Proof.
  induction L as [|s L IH]; intros H; [done |].
  simpl. unfold stepF at 1. rewrite rewriteF_absent.
  - apply IH. intros p Hp. apply H. simpl. by right.
  - apply H. simpl. by left.
Qed.

Lemma foldF_node (L : list Node) pe (q : nat) t d a (ks : list Node) :
  q ∉ map ptr L ->
  (foldF dec) L pe [mkNode q t d a ks] =
  [mkNode q t d a ((foldF dec) L (bool_decide (t = ElementNode)) ks)].
Proof.
  revert ks. induction L as [|s L IH]; intros ks Hq; [done |].
  simpl in Hq. apply not_elem_of_cons in Hq as [Hqs HqL].
  simpl. unfold stepF at 1. unfold rewriteF at 1. simpl.
  destruct (Nat.eqb_spec q (ptr s)) as [E | NE]; [done |].
  rewrite app_nil_r. apply (IH _ HqL).
Qed.

Lemma selected_ptrs (ctx : bool) (n : Node) (p : nat) :
  p ∈ map ptr (selected sel down ctx n) -> p ∈ ptrs n.
Proof.
  revert ctx. induction n as [q t d a ks IH] using Node_forall_ind. intros ctx.
  simpl. rewrite map_app, elem_of_app. intros [Hp | Hp].
  - destruct (sel ctx _); [| by apply elem_of_nil in Hp].
    apply list_elem_of_singleton in Hp as ->. by left.
  - right. revert Hp. generalize (down ctx (mkNode q t d a ks)). intros ctx'.
    induction IH as [|c ks Hc _ IHks]; [done |].
    simpl. rewrite map_app, !elem_of_app. intros [Hp | Hp]; [left; by eapply Hc | right; by apply IHks].
Qed.

Lemma selected_ptrs_forest (ctx : bool) (ks : list Node) (p : nat) :
  p ∈ map ptr (flat_map (selected sel down ctx) ks) -> p ∈ flat_map ptrs ks.
Proof.
  induction ks as [|c ks IH]; [done |].
  simpl. rewrite map_app, !elem_of_app.
  intros [Hp | Hp]; [left; by eapply selected_ptrs | right; by apply IH].
Qed.

Lemma editedChild_ptrs (ctx pe : bool) (n : Node) (p : nat) :
  p ∈ flat_map ptrs (editedChild sel down dec ctx pe n) -> p ∈ ptrs n.
Proof.
  revert ctx pe. induction n as [q t d a ks IH] using Node_forall_ind. intros ctx pe.
  assert (Hks : forall ctx pe,
    p ∈ flat_map ptrs (flat_map (editedChild sel down dec ctx pe) ks) -> p ∈ flat_map ptrs ks).
  { clear ctx pe. intros ctx pe. induction IH as [|c ks Hc _ IHks]; [done |].
    simpl. rewrite flat_map_app, !elem_of_app.
    intros [Hp | Hp]; [left; by eapply Hc | right; by apply IHks]. }
  simpl. destruct (if sel ctx _ then _ else _); simpl.
  - rewrite app_nil_r. rewrite !elem_of_cons. intros [-> | Hp]; [by left | right; by eapply Hks].
  - by intros ?%elem_of_nil.
  - intros Hp. right. by eapply Hks.
  - rewrite elem_of_cons. intros [-> | Hp]; [by left | by apply elem_of_nil in Hp].
  - rewrite app_nil_r. rewrite !elem_of_cons. intros [-> | Hp]; [by left | right; by eapply Hks].
  - rewrite app_nil_r. rewrite !elem_of_cons. intros [-> | Hp]; [by left | right; by eapply Hks].
Qed.

Lemma NoDup_forest_cons (c : Node) (ks : list Node) :
  NoDup (flat_map ptrs (c :: ks)) ->
  NoDup (ptrs c) /\ NoDup (flat_map ptrs ks) /\
  (forall p, p ∈ ptrs c -> p ∉ flat_map ptrs ks).
Proof.
  simpl. intros (H1 & H2 & H3)%NoDup_app. by repeat split.
Qed.

(** The loop over the selection of a list of siblings leaves the list the
    pass describes, provided no address occurs twice. *)
Lemma foldF_forest (ks : list Node) :
  Forall (fun c => forall ctx pe, NoDup (ptrs c) ->
                   (foldF dec) (selected sel down ctx c) pe [c]
                   = editedChild sel down dec ctx pe c) ks ->
  forall ctx pe, NoDup (flat_map ptrs ks) ->
    (foldF dec) (flat_map (selected sel down ctx) ks) pe ks
    = flat_map (editedChild sel down dec ctx pe) ks.
Proof.
  induction 1 as [|c ks Hc _ IHks]; intros ctx pe Hnd; [done |].
  apply NoDup_forest_cons in Hnd as (Hndc & Hndks & Hdisj).
  simpl. rewrite foldF_app_sel.
  change (c :: ks) with ([c] ++ ks). rewrite foldF_app, (Hc _ _ Hndc).
  rewrite (foldF_absent _ pe ks).
  2:{ intros p Hp%selected_ptrs. by apply Hdisj. }
  rewrite foldF_app, (IHks _ _ Hndks). f_equal.
  apply foldF_absent. intros p Hp%selected_ptrs_forest Hin%editedChild_ptrs.
  by apply (Hdisj p).
Qed.

Lemma foldF_node_pass (c : Node) (ctx pe : bool) :
  NoDup (ptrs c) ->
  (foldF dec) (selected sel down ctx c) pe [c] = editedChild sel down dec ctx pe c.
Proof.
  revert ctx pe. induction c as [q t d a ks IH] using Node_forall_ind.
  intros ctx pe Hnd.
  pose proof (foldF_forest ks IH) as Hks.
  assert (Hndks : NoDup (flat_map ptrs ks)) by (by apply NoDup_cons in Hnd as [_ ?]).
  assert (Hq : forall ctx', q ∉ map ptr (flat_map (selected sel down ctx') ks)).
  { intros ctx' Hin%selected_ptrs_forest. by apply NoDup_cons in Hnd as [? _]. }
  set (c := mkNode q t d a ks) in *.
  assert (Hsame : (foldF dec) (flat_map (selected sel down (down ctx c)) ks) pe [c]
                  = [mkNode q t d a
                       (flat_map (editedChild sel down dec (down ctx c) (is_element c)) ks)]).
  { unfold c at 2. rewrite foldF_node by apply Hq. by rewrite Hks. }
  change (selected sel down ctx c)
    with ((if sel ctx c then [c] else []) ++ flat_map (selected sel down (down ctx c)) ks).
  change (editedChild sel down dec ctx pe c) with
    (match (if sel ctx c then dec c pe else Same) with
     | Same => [mkNode q t d a
                  (flat_map (editedChild sel down dec (down ctx c) (is_element c)) ks)]
     | Remove => []
     | Lift => flat_map (editedChild sel down dec (down ctx c) pe) ks
     | Leaf data => [mkNode q TextNode data a []]
     | Relabel data =>
         [mkNode q t data a
            (flat_map (editedChild sel down dec (down ctx c) (is_element c)) ks)]
     | ClearAttr =>
         [mkNode q t d []
            (flat_map (editedChild sel down dec (down ctx c) (is_element c)) ks)]
     end).
  destruct (sel ctx c); [| exact Hsame].
  rewrite foldF_app_sel.
  assert (Hstep : (foldF dec) [c] pe [c] = apply_edit (dec c pe) c).
  { simpl. unfold stepF, rewriteF. simpl. rewrite Nat.eqb_refl. apply app_nil_r. }
  rewrite Hstep. destruct (dec c pe) as [| | |data|data|]; simpl.
  - exact Hsame.
  - apply foldF_absent. by intros p _ ?%elem_of_nil.
  - by apply Hks.
  - apply foldF_absent. intros p Hp. simpl.
    intros ->%list_elem_of_singleton. by apply (Hq _ Hp).
  - rewrite foldF_node by apply Hq. by rewrite Hks.
  - rewrite foldF_node by apply Hq. by rewrite Hks.
Qed.

Lemma fold_editAt_root (L : list Node) (q : nat) t d a (ks : list Node) :
  fold_left (editAt dec) L (mkNode q t d a ks)
  = mkNode q t d a ((foldF dec) L (bool_decide (t = ElementNode)) ks).
Proof.
  revert ks. induction L as [|s L IH]; intros ks; [done |].
  simpl. unfold editAt at 2. simpl. apply IH.
Qed.

(** The loop over the selection of a whole tree. *)
Theorem loop_is_pass (ctx : bool) (doc : Node) :
  wf doc ->
  fold_left (editAt dec) (flat_map (selected sel down ctx) (children doc)) doc
  = edited sel down dec ctx doc.
Proof.
  intros Hwf. unfold edited.
  assert (Hnd : NoDup (flat_map ptrs (children doc))).
  { unfold wf in Hwf. rewrite ptrs_unfold in Hwf. by apply NoDup_cons in Hwf as [_ ?]. }
  rewrite <-(foldF_forest (children doc)); [| | done].
  2:{ apply Forall_forall. intros c _ ctx' pe' Hc. by apply foldF_node_pass. }
  destruct doc as [q t d a ks]. apply fold_editAt_root.
Qed.

End PassProof.

(** ** Reading the loops of the package as passes *)

Lemma rewrite_at_ext (p : nat) (f g : Node -> Node -> list Node) (n : Node) :
  (forall par c, f par c = g par c) -> rewrite_at p f n = rewrite_at p g n.
Proof.
  intros Hfg. induction n as [q t d a ks IH] using Node_forall_ind. simpl. f_equal.
  generalize (mkNode q t d a ks). intros par.
  induction IH as [|c ks Hc _ IHks]; [done |].
  simpl. by rewrite Hfg, Hc, IHks.
Qed.

Lemma rewrite_at_same (p : nat) (n : Node) : rewrite_at p (fun _ c => [c]) n = n.
Proof.
  induction n as [q t d a ks IH] using Node_forall_ind. simpl. f_equal.
  induction IH as [|c ks Hc _ IHks]; [done |].
  simpl. rewrite Hc, IHks. by destruct (ptr c =? p)%nat.
Qed.

Lemma fold_left_ext_in {A B} (f g : A -> B -> A) (l : list B) (a : A) :
  (forall a b, b ∈ l -> f a b = g a b) -> fold_left f l a = fold_left g l a.
Proof.
  revert a. induction l as [|b l IH]; intros a H; [done |].
  simpl. rewrite H by (by left). apply IH. intros a' b' Hb'. apply H. by right.
Qed.

(** A filter of the descendants is a selection that ignores the context. *)
Lemma filter_descendants_selected (P : Node -> bool) (ctx : bool) (n : Node) :
  filter (fun c => P c = true) (descendants n)
  = flat_map (selected (fun _ => P) (fun ctx _ => ctx) ctx) (children n).
Proof.
  induction n as [q t d a ks IH] using Node_forall_ind. simpl.
  induction IH as [|c ks Hc _ IHks]; [done |].
  simpl. rewrite filter_cons, filter_app, IHks, Hc.
  destruct c as [q' t' d' a' ks']. simpl. rewrite <-app_assoc.
  by destruct (P _); [rewrite decide_True by done | rewrite decide_False by done].
Qed.

Lemma Find_selected (sl : Selector) (ctx : bool) (n : Node) :
  Find sl n = flat_map (selected (fun _ => matches sl) (fun ctx _ => ctx) ctx) (children n).
Proof. apply filter_descendants_selected. Qed.

(** [removeNodes] under a condition on the node is an edit. *)
Lemma removeNodes_if_editAt (cond : Node -> bool) (doc s : Node) :
  (if cond s then removeNodes doc s else doc)
  = editAt (fun s pe => if cond s && pe then Remove else Same) doc s.
Proof.
  unfold editAt, removeNodes. destruct (cond s); simpl.
  - apply rewrite_at_ext. intros par c. by destruct (is_element par).
  - symmetry. apply rewrite_at_same.
Qed.

Lemma withoutUnlikely_editedChild (pe : bool) (c : Node) :
  editedChild (fun _ => unlikelyEligible) (fun ctx _ => ctx)
    (fun s pe => if isUnlikelyCandidate s && pe then Remove else Same) false pe c
  = if pe && is_element c && negb (bool_decide (Data c ∈ ["html"; "title"; "body"]))
       && isUnlikelyCandidate c
    then [] else [withoutUnlikely c].
Proof.
  revert pe. induction c as [q t d a ks IH] using Node_forall_ind. intros pe.
  assert (Hks : flat_map (editedChild (fun _ => unlikelyEligible) (fun ctx _ => ctx)
                  (fun s pe => if isUnlikelyCandidate s && pe then Remove else Same) false
                  (bool_decide (t = ElementNode))) ks
                = children (withoutUnlikely (mkNode q t d a ks))).
  { simpl. unfold is_element at 1. simpl.
    generalize (bool_decide (t = ElementNode)). intros pe'.
    induction IH as [|c ks Hc _ IHks]; [done |].
    simpl. by rewrite IHks, Hc. }
  simpl in *. unfold unlikelyEligible, is_element in *. simpl in *.
  destruct pe, (bool_decide (t = ElementNode)),
    (bool_decide (d ∈ ["html"; "title"; "body"])),
    (isUnlikelyCandidate (mkNode q t d a ks)); simpl; try done; by rewrite Hks.
Qed.

Lemma withoutUnlikely_edited (n : Node) :
  edited (fun _ => unlikelyEligible) (fun ctx _ => ctx)
    (fun s pe => if isUnlikelyCandidate s && pe then Remove else Same) false n
  = withoutUnlikely n.
Proof.
  unfold edited. destruct n as [q t d a ks]. simpl. f_equal.
  unfold is_element. simpl. generalize (bool_decide (t = ElementNode)). intros pe.
  induction ks as [|c ks IH]; [done |].
  simpl. by rewrite IH, withoutUnlikely_editedChild.
Qed.

Lemma removeUnlikelyCandidates_document (d : Document) :
  wf (document d) ->
  document (removeUnlikelyCandidates d) = withoutUnlikely (document d).
Proof.
  intros Hwf. unfold removeUnlikelyCandidates. simpl.
  rewrite <-withoutUnlikely_edited, <-loop_is_pass by done.
  rewrite <-filter_descendants_selected.
  assert (Hsel : filter (fun s => matches (Tags ["html"; "title"; "body"]) s = false)
                   (Find Star (document d))
                 = filter (fun c => unlikelyEligible c = true) (descendants (document d))).
  { unfold Find. rewrite list_filter_filter. apply list_filter_iff. intros c.
    unfold unlikelyEligible, matches. destruct (is_element c); simpl; [| by intuition].
    destruct (bool_decide _); simpl; by intuition. }
  rewrite Hsel. apply fold_left_ext_in. intros doc s _.
  apply removeNodes_if_editAt.
Qed.

(** C4.  The test on an element holds exactly when the class and id, put
    together, match the blacklist pattern (whatever the other patterns say),
    or match the unlikely pattern, do not match the maybe-a-candidate pattern
    and the tag of the element does not match the header/footer pattern.  On
    a well-formed document the pass removes, among the elements other than
    html, title and body, exactly those for which the test holds (with all
    below them).  [prepareCandidates] runs the pass when
    [RemoveUnlikelyCandidates] is set and skips it otherwise. *)
Theorem removeUnlikelyCandidates_spec `{Externals} (d : Document) :
  wf (document d) ->
  (forall s,
     let str := AttrVal "class" s +:+ AttrVal "id" s in
     isUnlikelyCandidate s = true <->
     blacklistCandidatesRegexp str = true \/
     (unlikelyCandidatesRegexp str = true /\
      okMaybeItsACandidateRegexp str = false /\
      okMaybeItsAHeaderFooterRegexp (NodeName s) = false)) /\
  document (removeUnlikelyCandidates d) = withoutUnlikely (document d) /\
  (RemoveUnlikelyCandidates d = true ->
     prepareCandidates d =
     selectBestCandidate <$>
       scoreParagraphs
         (transformMisusedDivsIntoParagraphs
            (removeUnlikelyCandidates (removeNonContent d))) (MinTextLength d)) /\
  (RemoveUnlikelyCandidates d = false ->
     prepareCandidates d =
     selectBestCandidate <$>
       scoreParagraphs
         (transformMisusedDivsIntoParagraphs (removeNonContent d)) (MinTextLength d)).
Proof.
  intros Hwf. split; [| split; [| split]].
  - intros s str. unfold isUnlikelyCandidate. fold str.
    destruct (blacklistCandidatesRegexp str), (unlikelyCandidatesRegexp str),
      (okMaybeItsACandidateRegexp str), (okMaybeItsAHeaderFooterRegexp (NodeName s));
      simpl; intuition congruence.
  - by apply removeUnlikelyCandidates_document.
  - intros Hflag. unfold prepareCandidates. simpl. rewrite Hflag.
    by destruct (scoreParagraphs _ _).
  - intros Hflag. unfold prepareCandidates. simpl. rewrite Hflag.
    by destruct (scoreParagraphs _ _).
Qed.

(** ** Assembling the article *)



Lemma append_cons (c : ascii) (s1 s2 : string) :
  String c s1 +:+ s2 = String c (s1 +:+ s2).
Proof. reflexivity. Qed.

Lemma append_assoc (s1 s2 s3 : string) : (s1 +:+ s2) +:+ s3 = s1 +:+ (s2 +:+ s3).
Proof. induction s1 as [|c s1 IH]; [done | by rewrite !append_cons, IH]. Qed.

Lemma append_empty_r (s : string) : s +:+ "" = s.
Proof. induction s as [|c s IH]; [done | by rewrite append_cons, IH]. Qed.

Lemma concat_cons (s : string) (l : list string) :
  String.concat "" (s :: l) = s +:+ String.concat "" l.
Proof. destruct l; simpl; [by rewrite append_empty_r | done]. Qed.





(** ** The flattening loop of [sanitize] *)


Lemma wf_descendants_NoDup (n : Node) : wf n -> NoDup (map ptr (descendants n)).
Proof. unfold wf. rewrite ptrs_descendants. by intros [_ ?]%NoDup_cons. Qed.



Lemma descendants_trans (doc b s : Node) :
  b ∈ descendants doc -> s ∈ descendants b -> s ∈ descendants doc.
Proof.
  induction doc as [q t d a ks IH] using Node_forall_ind. simpl.
  induction IH as [|c ks Hc _ IHks]; [by intros ?%elem_of_nil |].
  simpl. rewrite !elem_of_cons, !elem_of_app.
  intros [-> | [Hb | Hb]] Hs; [right; by left | right; left; by apply Hc | ].
  right. right. by apply IHks.
Qed.

Lemma Find_descendant (sl : Selector) (doc s : Node) :
  s ∈ Find sl doc -> s ∈ descendants doc /\ matches sl s = true.
Proof. unfold Find. rewrite list_elem_of_filter. tauto. Qed.

(** A descendant has a parent. *)
Lemma lookup_with_parent_descendant (doc s : Node) :
  s ∈ descendants doc -> is_Some (lookup_with_parent (ptr s) doc).
Proof.
  induction doc as [q t d a ks IH] using Node_forall_ind. simpl.
  generalize (mkNode q t d a ks). intros par.
  induction IH as [|c ks Hc _ IHks]; [by intros ?%elem_of_nil |].
  simpl. rewrite elem_of_cons, elem_of_app.
  destruct (Nat.eqb_spec (ptr c) (ptr s)) as [E | NE]; [done |].
  intros [-> | [Hs | Hs]]; [done | |].
  - destruct (Hc Hs) as [r ->]. done.
  - destruct (lookup_with_parent (ptr s) c); [done | by apply IHks].
Qed.











(** ** Building the document *)

Lemma preprocess_placeholder : preprocess "<body/>" = "<body/>".
Proof. reflexivity. Qed.

Lemma initializeHtml_fuel `{Externals} (fuel : nat) (d : Document) (s : string)
    (placeholder body : Node) (rest : list Node) :
  NewDocumentFromReader "<body/>" = inr placeholder ->
  Find (Tags ["body"]) placeholder = body :: rest ->
  initializeHtml (S (S fuel)) d s =
  match NewDocumentFromReader (preprocess s) with
  | inl err => Done (inl err)
  | inr doc =>
      match Find (Tags ["body"]) doc with
      | [] => Done (inr (setDocument placeholder d))
      | _ :: _ => Done (inr (setDocument doc d))
      end
  end.
Proof.
  intros Hparse Hbody. simpl.
  destruct (NewDocumentFromReader (preprocess s)) as [err | doc]; [done |].
  destruct (Find (Tags ["body"]) doc); [| done].
  rewrite preprocess_placeholder, Hparse, Hbody. done.
Qed.

(** C9.  Let the parser build a tree with a body for the placeholder
    [<body/>].  Then [NewDocument] returns, within two calls of
    [initializeHtml]: with the error of the parser when the normalised input
    does not parse, and only then; with the tree of the input when it has a
    body; with the tree of the placeholder when it has none.  [Content] on
    the document returned is the serialisation of the tree that
    [rateElements] leaves: no step of it can fail. *)
Theorem NewDocument_fails_only_on_parse_error `{Externals}
    (s : string) (placeholder body : Node) (rest : list Node) (fuel : nat) :
  NewDocumentFromReader "<body/>" = inr placeholder ->
  Find (Tags ["body"]) placeholder = body :: rest ->
  (2 <= fuel)%nat ->
  ((exists err, NewDocument fuel s = Done (inl err)) <->
   (exists err, NewDocumentFromReader (preprocess s) = inl err)) /\
  (forall err, NewDocumentFromReader (preprocess s) = inl err ->
     NewDocument fuel s = Done (inl err)) /\
  (forall doc, NewDocumentFromReader (preprocess s) = inr doc ->
     exists d, NewDocument fuel s = Done (inr d) /\
       input d = s /\ content d = "" /\
       document d = (if bool_decide (Find (Tags ["body"]) doc = []) then placeholder else doc) /\
       Find (Tags ["body"]) (document d) <> [] /\
       Content d = (Html (document (rateElements (removeHeadChildren d))),
                    rateElements (removeHeadChildren d))).
Proof.
  intros Hparse Hbody Hfuel.
  destruct fuel as [|[|fuel]]; [lia | lia |].
  unfold NewDocument. rewrite (initializeHtml_fuel _ _ _ placeholder body rest) by done.
  destruct (NewDocumentFromReader (preprocess s)) as [err | doc] eqn:E.
  - split; [split; intros _; by exists err |]. split; [by intros ? [= <-] | done].
  - split.
    { destruct (Find (Tags ["body"]) doc); split; intros [err Herr]; done. }
    split; [done |]. intros ? [= <-].
    destruct (Find (Tags ["body"]) doc) as [|b bs] eqn:Hb.
    + eexists. split; [done |]. simpl. rewrite Hbody. by repeat split.
    + eexists. split; [done |]. simpl. rewrite Hb. by repeat split.
Qed.

(** ** The retry loop *)

Lemma sameSettings_refl (d : Document) : sameSettings d d.
Proof. by repeat split. Qed.

Lemma sameSettings_trans (d1 d2 d3 : Document) :
  sameSettings d1 d2 -> sameSettings d2 d3 -> sameSettings d1 d3.
Proof. unfold sameSettings. intros (?&?&?&?&?&?) (?&?&?&?&?&?). repeat split; congruence. Qed.

Lemma sameSettings_flagsOn (d d' : Document) : sameSettings d d' -> flagsOn d' = flagsOn d.
Proof. unfold flagsOn. intros (-> & -> & -> & _). done. Qed.

Lemma relaxFlag_Some (d d' : Document) :
  relaxFlag d = Some d' ->
  S (flagsOn d') = flagsOn d /\
  RetryLength d' = RetryLength d /\ content d' = content d /\ input d' = input d /\
  document d' = document d.
Proof.
  unfold relaxFlag, flagsOn.
  destruct (RemoveUnlikelyCandidates d) eqn:E1; [intros [= <-]; simpl; by rewrite ?E1|].
  destruct (WeightClasses d) eqn:E2; [intros [= <-]; simpl; by rewrite ?E1, ?E2|].
  destruct (CleanConditionally d) eqn:E3; [intros [= <-]; simpl; by rewrite ?E1, ?E2, ?E3|].
  done.
Qed.

Lemma relaxFlag_None (d : Document) : relaxFlag d = None <-> flagsOn d = 0%nat.
Proof.
  unfold relaxFlag, flagsOn.
  destruct (RemoveUnlikelyCandidates d), (WeightClasses d), (CleanConditionally d);
    simpl; split; (done || lia).
Qed.

(** One flag goes at a time, in the order [RemoveUnlikelyCandidates],
    [WeightClasses], [CleanConditionally]. *)
Lemma relaxFlag_order (d : Document) :
  relaxFlag d =
  match RemoveUnlikelyCandidates d, WeightClasses d, CleanConditionally d with
  | true, w, c => Some (setFlags false w c d)
  | false, true, c => Some (setFlags false false c d)
  | false, false, true => Some (setFlags false false false d)
  | false, false, false => None
  end.
Proof.
  unfold relaxFlag.
  by destruct (RemoveUnlikelyCandidates d), (WeightClasses d), (CleanConditionally d).
Qed.

Section RetryLoopFacts.
Context (prepareCandidates_ : Document -> option Document)
        (getArticle_ : Document -> string)
        (sanitize_ : Document -> string -> string * Document)
        (initializeHtml_ : Document -> string -> outcome (string + Document))
        (length_ : string -> Z).

#[local] Abbreviation Content_ :=
  (ContentWithRetry prepareCandidates_ getArticle_ sanitize_ initializeHtml_ length_).
#[local] Abbreviation body_ :=
  (contentBody prepareCandidates_ getArticle_ sanitize_ initializeHtml_ length_).
#[local] Abbreviation run_ := (runPipeline prepareCandidates_ getArticle_ sanitize_).

(** The guard: a stored text that is not empty is returned as it is. *)
Lemma ContentWithRetry_stored (fuel : nat) (d : Document) :
  content d <> "" -> Content_ (S fuel) d = Done (content d, d).
Proof.
  intros Hne. simpl. destruct (String.eqb_spec (content d) ""); done.
Qed.

(** With nothing stored the block runs. *)
Lemma ContentWithRetry_runs (fuel : nat) (d : Document) :
  content d = "" -> Content_ (S fuel) d = body_ (Content_ fuel) d.
Proof. intros He. simpl. by rewrite He. Qed.

(** Whatever a call returns is what it leaves in [d.content]. *)
Lemma ContentWithRetry_content (fuel : nat) (d d' : Document) (a : string) :
  Content_ fuel d = Done (a, d') -> content d' = a.
Proof.
  revert d d' a. induction fuel as [|fuel IH]; intros d d' a; [done |].
  simpl. destruct (String.eqb (content d) ""); [| by intros [= <- <-]].
  unfold contentBody. destruct (run_ d) as [[t d1]|]; [| done].
  destruct (length_ t <? RetryLength d1)%Z; [| by intros [= <- <-]].
  destruct (relaxFlag d1) as [d2|]; [| by intros [= <- <-]].
  destruct (reinitialize initializeHtml_ d2) as [d3| |]; [| done | done].
  destruct (Content_ fuel d3) as [[t' d4]| |]; [| done | done].
  by intros [= <- <-].
Qed.

(** A text that is not empty is stored: the next calls return it and leave
    the document alone. *)
Lemma ContentWithRetry_memoized (fuel fuel' : nat) (d d' : Document) (a : string) :
  Content_ fuel d = Done (a, d') -> a <> "" ->
  Content_ (S fuel') d' = Done (a, d').
Proof.
  intros Hc Hne. pose proof (ContentWithRetry_content _ _ _ _ Hc) as Hd.
  rewrite ContentWithRetry_stored; by rewrite Hd.
Qed.

Hypothesis prepareCandidates_settings :
  forall d d', prepareCandidates_ d = Some d' -> sameSettings d d'.
Hypothesis sanitize_settings :
  forall d a, sameSettings d (snd (sanitize_ d a)).
Hypothesis initializeHtml_settings :
  forall d s d', initializeHtml_ d s = Done (inr d') -> sameSettings d d'.
Hypothesis initializeHtml_returns :
  forall d s, initializeHtml_ d s <> OutOfFuel.

Lemma runPipeline_settings (d d' : Document) (a : string) :
  run_ d = Some (a, d') -> sameSettings d d'.
Proof.
  unfold runPipeline. destruct (prepareCandidates_ d) as [d1|] eqn:E; [| done].
  intros [= Hs]. apply (sameSettings_trans _ d1); [by apply prepareCandidates_settings |].
  pose proof (sanitize_settings d1 (getArticle_ d1)) as H. by rewrite Hs in H.
Qed.

Lemma reinitialize_settings (d d' : Document) :
  reinitialize initializeHtml_ d = Done d' -> sameSettings d d'.
Proof.
  unfold reinitialize. destruct (initializeHtml_ d (input d)) as [[e|d1]| |] eqn:E; try done.
  - intros [= <-]. apply sameSettings_refl.
  - intros [= <-]. by apply (initializeHtml_settings _ _ _ E).
Qed.

Lemma reinitialize_returns (d : Document) : reinitialize initializeHtml_ d <> OutOfFuel.
Proof.
  unfold reinitialize. pose proof (initializeHtml_returns d (input d)).
  by destruct (initializeHtml_ d (input d)) as [[e|d1]| |].
Qed.

(** One call of [Content] for the first run and one for each flag that is
    still on are enough: four at most. *)
Lemma ContentWithRetry_returns (fuel : nat) (d : Document) :
  (flagsOn d < fuel)%nat -> Content_ fuel d <> OutOfFuel.
Proof.
  revert d. induction fuel as [|fuel IH]; intros d Hf; [lia |].
  simpl. destruct (String.eqb (content d) ""); [| done].
  unfold contentBody. destruct (run_ d) as [[t d1]|] eqn:Hrun; [| done].
  apply runPipeline_settings, sameSettings_flagsOn in Hrun.
  destruct (length_ t <? RetryLength d1)%Z; [| done].
  destruct (relaxFlag d1) as [d2|] eqn:Hrelax; [| done].
  apply relaxFlag_Some in Hrelax as [Hrelax _].
  destruct (reinitialize initializeHtml_ d2) as [d3| |] eqn:Hre; [| done |].
  - apply reinitialize_settings, sameSettings_flagsOn in Hre.
    specialize (IH d3 ltac:(lia)).
    by destruct (Content_ fuel d3) as [[t' d4]| |].
  - by apply reinitialize_returns in Hre.
Qed.

Lemma flagsOn_le_3 (d : Document) : (flagsOn d <= 3)%nat.
Proof.
  unfold flagsOn.
  destruct (RemoveUnlikelyCandidates d), (WeightClasses d), (CleanConditionally d); simpl; lia.
Qed.

Lemma ContentWithRetry_four_calls (d : Document) : Content_ 4 d <> OutOfFuel.
Proof. apply ContentWithRetry_returns. pose proof (flagsOn_le_3 d). lia. Qed.

(** With every flag off the text of the run is taken, whatever its
    length. *)
Lemma ContentWithRetry_flags_off (fuel : nat) (d d1 : Document) (a : string) :
  content d = "" -> flagsOn d = 0%nat -> run_ d = Some (a, d1) ->
  Content_ (S fuel) d = Done (a, setContent a d1).
Proof.
  intros Hc Hf Hrun. rewrite ContentWithRetry_runs by done.
  unfold contentBody. rewrite Hrun.
  pose proof (runPipeline_settings _ _ _ Hrun) as Hs%sameSettings_flagsOn.
  assert (relaxFlag d1 = None) as -> by (apply relaxFlag_None; lia).
  by destruct (length_ a <? RetryLength d1)%Z.
Qed.

End RetryLoopFacts.

(** *** The stages of the package in the loop *)

Lemma prepareCandidates_settings `{Externals} (d d' : Document) :
  prepareCandidates d = Some d' -> sameSettings d d'.
Proof.
  unfold prepareCandidates, scoreParagraphs.
  destruct (scoreParagraphsLoop _ _ _ _); [| done].
  intros [= <-]. unfold sameSettings. simpl.
  by destruct (RemoveUnlikelyCandidates d) eqn:E.
Qed.

Lemma sanitize_settings `{Externals} (d : Document) (a : string) :
  sameSettings d (snd (sanitize d a)).
Proof.
  unfold sanitize. destruct (NewDocumentFromReader a) as [e | doc]; [done |].
  by destruct (flatten _ _).
Qed.

Lemma initializeHtml_settings `{Externals} (fuel : nat) (d d' : Document) (s : string) :
  initializeHtml fuel d s = Done (inr d') -> sameSettings d d'.
Proof.
  revert s. induction fuel as [|fuel IH]; intros s; [done |]. simpl.
  destruct (NewDocumentFromReader (preprocess s)) as [e | doc]; [done |].
  destruct (Find (Tags ["body"]) doc); [apply IH |].
  by intros [= <-].
Qed.

Lemma initializeHtml_returns `{Externals} (placeholder body : Node) (rest : list Node)
    (fuel : nat) (d : Document) (s : string) :
  NewDocumentFromReader "<body/>" = inr placeholder ->
  Find (Tags ["body"]) placeholder = body :: rest ->
  initializeHtml (S (S fuel)) d s <> OutOfFuel.
Proof.
  intros Hparse Hbody. rewrite (initializeHtml_fuel _ _ _ placeholder body rest) by done.
  destruct (NewDocumentFromReader (preprocess s)) as [e | doc]; [done |].
  by destruct (Find (Tags ["body"]) doc).
Qed.

(** The tree a retry starts from is read off the text the document was
    made of: the tree the last run has worked on plays no part. *)
Lemma initializeHtml_forgets_tree `{Externals} (fuel : nat) (d : Document) (s : string)
    (tree : Node) :
  initializeHtml fuel (setDocument tree d) s = initializeHtml fuel d s.
Proof.
  revert s. induction fuel as [|fuel IH]; intros s; [done |]. simpl.
  destruct (NewDocumentFromReader (preprocess s)) as [e | doc]; [done |].
  by destruct (Find (Tags ["body"]) doc).
Qed.

(** Were the statements after the [return] reached, four calls would do
    for every document. *)
Lemma ContentAfterReturn_four_calls `{Externals} (placeholder body : Node)
    (rest : list Node) (d : Document) :
  NewDocumentFromReader "<body/>" = inr placeholder ->
  Find (Tags ["body"]) placeholder = body :: rest ->
  ContentAfterReturn 4 d <> OutOfFuel.
Proof.
  intros Hparse Hbody. apply ContentWithRetry_four_calls.
  - apply @prepareCandidates_settings.
  - apply @sanitize_settings.
  - intros ???. apply initializeHtml_settings.
  - intros ??. by apply (initializeHtml_returns placeholder body rest).
Qed.

(** ** [Content] as it stands *)

Lemma removeHeadChildren_settings (d : Document) : sameSettings d (removeHeadChildren d).
Proof. done. Qed.

Lemma rateElements_settings (d : Document) : sameSettings d (rateElements d).
Proof. done. Qed.

(** No call assigns a flag, the stored text, the candidates or the best
    candidate. *)
Lemma Content_settings `{Externals} (d : Document) :
  sameSettings d (snd (Content d)) /\
  candidates (snd (Content d)) = candidates d /\
  bestCandidate (snd (Content d)) = bestCandidate d.
Proof. unfold Content. by destruct (String.eqb (content d) ""). Qed.

Lemma Content_unstored `{Externals} (d : Document) :
  content d = "" ->
  Content d = (Html (document (rateElements (removeHeadChildren d))),
               rateElements (removeHeadChildren d)).
Proof. intros He. unfold Content. by rewrite He. Qed.

Lemma Content_stored `{Externals} (d : Document) :
  content d <> "" -> Content d = (content d, d).
Proof. intros Hne. unfold Content. by destruct (String.eqb_spec (content d) ""). Qed.

(** C1.  On the page [shortBestInput] a call of [Content] returns the
    serialised tree, sixty-one bytes against a [RetryLength] of 250, and
    that is all it does: the three flags are still on, no text is stored
    and no candidate has been looked for.  The statements that give a flag
    up and run the stages again come after the [return] and are never
    reached. *)
Theorem Content_returns_before_the_retry_loop :
  let E := exampleExternals [(shortBestInput, shortBestTree)] in
  exists d out d',
    NewDocument 2 shortBestInput = Done (inr d) /\
    Content d = (out, d') /\
    out = "<html><head><title>title!</title></head><body></body></html>" /\
    (Z.of_nat (String.length (TrimSpace out)) < RetryLength d')%Z /\
    RemoveUnlikelyCandidates d' = true /\
    WeightClasses d' = true /\
    CleanConditionally d' = true /\
    content d' = "" /\
    candidates d' = ∅ /\
    bestCandidate d' = None.
Proof.
  intros E. eexists _, _, _.
  split; [vm_compute; reflexivity |].
  split; [vm_compute; reflexivity |].
  repeat split; vm_compute; reflexivity.
Qed.

(** C2.  On the page [keptInput] the first call of [Content] returns a text
    that is not empty and leaves [d.content] empty: nothing is stored.  The
    second call therefore runs [rateElements] again, over the tree the
    first call has left, and serialises what it leaves; on this page the
    text comes out the same. *)
Theorem Content_stores_nothing :
  let E := exampleExternals [(keptInput, keptTree)] in
  exists d out d',
    NewDocument 2 keptInput = Done (inr d) /\
    Content d = (out, d') /\
    out = "<html><head><title>t</title></head><body><div class='content'>Thirty bytes of text, or more.</div></body></html>" /\
    content d' = "" /\
    Content d' = (Html (document (rateElements (removeHeadChildren d'))),
                  rateElements (removeHeadChildren d')) /\
    fst (Content d') = out.
Proof.
  intros E. eexists _, _, _.
  split; [vm_compute; reflexivity |].
  split; [vm_compute; reflexivity |].
  repeat split; vm_compute; reflexivity.
Qed.

(** C10.  The guard is [d.content == ""].  In [Content] as it stands no
    call stores a text, so a call on a document without a stored text runs
    [rateElements] again over the tree the call before has left.  In the
    retry loop a call that returns the empty text leaves [d.content] empty,
    and the next call runs the stages again on the document it has left,
    where a text that is not empty would have been returned as stored. *)
Theorem Content_empty_text_is_never_stored `{Externals}
    (prepareCandidates_ : Document -> option Document)
    (getArticle_ : Document -> string)
    (sanitize_ : Document -> string -> string * Document)
    (initializeHtml_ : Document -> string -> outcome (string + Document))
    (length_ : string -> Z) :
  let Content_ :=
    ContentWithRetry prepareCandidates_ getArticle_ sanitize_ initializeHtml_ length_ in
  let body_ :=
    contentBody prepareCandidates_ getArticle_ sanitize_ initializeHtml_ length_ in
  (forall d, content d = "" ->
     content (snd (Content d)) = "" /\
     Content (snd (Content d)) =
       (Html (document (rateElements (removeHeadChildren (snd (Content d))))),
        rateElements (removeHeadChildren (snd (Content d))))) /\
  (forall fuel d d', Content_ fuel d = Done ("", d') ->
     content d' = "" /\
     forall fuel', Content_ (S fuel') d' = body_ (Content_ fuel') d') /\
  (forall fuel d d' a, Content_ fuel d = Done (a, d') -> a <> "" ->
     content d' = a /\
     forall fuel', Content_ (S fuel') d' = Done (a, d')).
Proof.
  intros Content_ body_. split; [| split].
  - intros d Hd.
    assert (Hc : content (snd (Content d)) = "").
    { destruct (Content_settings d) as [(_ & _ & _ & _ & -> & _) _]. done. }
    split; [done |]. by apply Content_unstored.
  - intros fuel d d' Hr. pose proof (ContentWithRetry_content _ _ _ _ _ _ _ _ _ Hr) as Hc.
    split; [done |]. intros fuel'. by apply ContentWithRetry_runs.
  - intros fuel d d' a Hr Hne. split.
    + by apply (ContentWithRetry_content _ _ _ _ _ _ _ _ _ Hr).
    + intros fuel'. by apply (ContentWithRetry_memoized _ _ _ _ _ fuel fuel' d).
Qed.

(** ** The theorems at work on the example pages *)

Lemma wf_by_computation (n : Node) : bool_decide (NoDup (ptrs n)) = true -> wf n.
Proof. apply bool_decide_eq_true_1. Qed.


(** The sidebar of [sidebarTree] goes, the story stays. *)
Lemma removeUnlikelyCandidates_spec_witness :
  let E := exampleExternals [] in
  let d := exampleDocument sidebarTree in
  wf (document d) /\
  document (removeUnlikelyCandidates d) = withoutUnlikely (document d) /\
  withoutUnlikely (document d)
  = mkNode 0 DocumentNode "" []
      [elem 1 "html" []
         [elem 2 "head" [] [];
          elem 3 "body" []
            [elem 7 "div" [mkAttr "class" "story"]
               [elem 8 "p" [] [text 9 "The story, at last."]]]]].
Proof.
  intros E d.
  assert (Hwf : wf (document d)) by (apply wf_by_computation; vm_compute; reflexivity).
  split; [exact Hwf |].
  destruct (removeUnlikelyCandidates_spec d Hwf) as (_ & Hdoc & _).
  split; [exact Hdoc | vm_compute; reflexivity].
Defined.





(** The empty text has no body: the document is made of the placeholder.
    A text the parser refuses gives its error. *)
Lemma NewDocument_fails_only_on_parse_error_witness :
  let E := exampleExternals noBodyTable in
  NewDocumentFromReader "<body/>" = inr placeholderTree /\
  Find (Tags ["body"]) placeholderTree = [elem 3 "body" [] []] /\
  (2 <= 2)%nat /\
  (exists d, NewDocument 2 "" = Done (inr d) /\ document d = placeholderTree) /\
  NewDocument 2 "<p" = Done (inl "parse error").
Proof.
  intros E.
  assert (Hparse : NewDocumentFromReader "<body/>" = inr placeholderTree) by reflexivity.
  assert (Hbody : Find (Tags ["body"]) placeholderTree = [elem 3 "body" [] []])
    by (vm_compute; reflexivity).
  assert (Hfuel : (2 <= 2)%nat) by lia.
  split; [exact Hparse |]. split; [exact Hbody |]. split; [exact Hfuel |]. split.
  - destruct (NewDocument_fails_only_on_parse_error "" placeholderTree
                (elem 3 "body" [] []) [] 2 Hparse Hbody Hfuel) as (_ & _ & Hok).
    destruct (Hok (mkNode 0 DocumentNode "" [] [])) as (d & Hd & _ & _ & Hdoc & _);
      [vm_compute; reflexivity |].
    exists d. split; [exact Hd | exact Hdoc].
  - destruct (NewDocument_fails_only_on_parse_error "<p" placeholderTree
                (elem 3 "body" [] []) [] 2 Hparse Hbody Hfuel) as (_ & Herr & _).
    apply Herr. vm_compute. reflexivity.
Defined.

(** On the page without text both forms of [Content] leave [d.content]
    empty, and the next call runs again. *)
Lemma Content_empty_text_is_never_stored_witness :
  let E := exampleExternals noBodyTable in
  let d := exampleDocument placeholderTree in
  let Content_ :=
    ContentWithRetry prepareCandidates getArticle sanitize (initializeHtml 2)
      (fun s => Z.of_nat (String.length s)) in
  content d = "" /\
  content (snd (Content d)) = "" /\
  match Content_ 4%nat d with
  | Done (a, d') =>
      a = "" /\ content d' = "" /\
      Content_ 1%nat d'
      = contentBody prepareCandidates getArticle sanitize (initializeHtml 2)
          (fun s => Z.of_nat (String.length s)) (Content_ 0%nat) d'
  | _ => False
  end.
Proof.
  intros E d Content_.
  assert (Hd : content d = "") by reflexivity.
  split; [exact Hd |].
  destruct (Content_empty_text_is_never_stored prepareCandidates getArticle sanitize
              (initializeHtml 2) (fun s => Z.of_nat (String.length s)))
    as (Hnow & Hloop & _).
  split; [exact (proj1 (Hnow d Hd)) |].
  assert (Ha : match Content_ 4%nat d with Done (a, _) => a | _ => "-" end = "")
    by (vm_compute; reflexivity).
  destruct (Content_ 4%nat d) as [[a d']| |] eqn:Hrun; [| discriminate Ha | discriminate Ha].
  subst a. destruct (Hloop 4%nat d d' Hrun) as [Hc Hnext].
  split; [reflexivity |]. split; [exact Hc | exact (Hnext 0%nat)].
Defined.

(** * Further properties of the package *)

(** ** The document [NewDocument] returns *)

Lemma initializeHtml_Done `{Externals} (fuel : nat) (d0 d : Document) (s : string) :
  initializeHtml fuel d0 s = Done (inr d) ->
  d = setDocument (document d) d0 /\
  Find (Tags ["body"]) (document d) <> [] /\
  (NewDocumentFromReader (preprocess s) = inr (document d) \/
   NewDocumentFromReader (preprocess "<body/>") = inr (document d)).
Proof.
  revert s. induction fuel as [|fuel IH]; intros s; [done |]. simpl.
  destruct (NewDocumentFromReader (preprocess s)) as [e | doc] eqn:Hparse; [done |].
  destruct (Find (Tags ["body"]) doc) as [|b bs] eqn:Hb.
  - intros Hrec. destruct (IH _ Hrec) as (Hd & Hbody & [Hs | Hs]); by repeat split; try right.
  - intros [= <-]. simpl. rewrite Hb. repeat split; [done | by left].
Qed.

(** Whatever the parser and however deep the recursion, a document that
    [NewDocument] returns holds a tree of the parser with a body in it, the
    text it was made of, no stored content, no candidate, and the settings
    of the literal: the three flags and [RemoveEmptyNodes] on, a
    [RetryLength] of 250, a [MinTextLength] of 25 and the whitelist
    div, p, h1. *)
Theorem NewDocument_returns_a_body `{Externals} (fuel : nat) (s : string) (d : Document) :
  NewDocument fuel s = Done (inr d) ->
  Find (Tags ["body"]) (document d) <> [] /\
  (NewDocumentFromReader (preprocess s) = inr (document d) \/
   NewDocumentFromReader (preprocess "<body/>") = inr (document d)) /\
  input d = s /\ content d = "" /\ candidates d = ∅ /\ bestCandidate d = None /\
  RemoveUnlikelyCandidates d = true /\ WeightClasses d = true /\
  CleanConditionally d = true /\ RemoveEmptyNodes d = true /\
  RetryLength d = 250%Z /\ MinTextLength d = 25%Z /\
  WhitelistTags d = ["div"; "p"; "h1"].
Proof.
  unfold NewDocument. intros (Hd & Hbody & Hparse)%initializeHtml_Done.
  split; [done |]. split; [done |]. by rewrite Hd.
Qed.

Lemma NewDocument_returns_a_body_witness :
  let E := exampleExternals [(shortBestInput, shortBestTree)] in
  let d := setDocument shortBestTree (newDocument shortBestInput) in
  NewDocument 1 shortBestInput = Done (inr d) /\
  Find (Tags ["body"]) (document d) <> [] /\
  RetryLength d = 250%Z.
Proof.
  intros E d.
  assert (Hnew : NewDocument 1 shortBestInput = Done (inr d)) by (vm_compute; reflexivity).
  split; [exact Hnew |].
  destruct (NewDocument_returns_a_body 1 shortBestInput d Hnew)
    as (Hbody & _ & _ & _ & _ & _ & _ & _ & _ & _ & Hretry & _).
  split; [exact Hbody | exact Hretry].
Defined.

(** ** Class weight and the score of a node *)

(** The weight of the class and id of a node is a multiple of 25 between -50
    and 50; it is 0 when [WeightClasses] is off and when the node has neither
    class nor id.  A header or footer tag is never held against a node: with
    such a tag the weight is not negative. *)
Theorem classWeight_range (d : Document) (s : Node) :
  (-50 <= classWeight d s <= 50)%Z /\
  (exists k : Z, classWeight d s = (25 * k)%Z) /\
  (WeightClasses d = false -> classWeight d s = 0%Z) /\
  (AttrVal "class" s = "" -> AttrVal "id" s = "" -> classWeight d s = 0%Z) /\
  (okMaybeItsAHeaderFooterRegexp (NodeName s) = true -> (0 <= classWeight d s)%Z).
Proof.
  unfold classWeight.
  destruct (WeightClasses d); simpl.
  2:{ split; [lia |]. split; [by exists 0%Z |]. done. }
  destruct (String.eqb_spec (AttrVal "class" s) "") as [Hc | Hc],
           (String.eqb_spec (AttrVal "id" s) "") as [Hi | Hi]; simpl;
    destruct (negativeRegexp (AttrVal "class" s)), (positiveRegexp (AttrVal "class" s)),
             (negativeRegexp (AttrVal "id" s)), (positiveRegexp (AttrVal "id" s)),
             (okMaybeItsAHeaderFooterRegexp (NodeName s)); simpl;
    (split; [lia |]);
    (split; [match goal with |- exists k, ?v = _ => exists (v / 25)%Z; reflexivity end |]);
    repeat split; try done; try lia.
Qed.

Lemma classWeight_range_witness :
  let d := exampleDocument sidebarTree in
  let s := elem 4 "div" [mkAttr "id" "sidebar"] [] in
  WeightClasses (setFlags true false true d) = false /\
  classWeight (setFlags true false true d) s = 0%Z /\
  classWeight d s = (-25)%Z.
Proof.
  intros d s.
  assert (Hoff : WeightClasses (setFlags true false true d) = false) by reflexivity.
  split; [exact Hoff |].
  destruct (classWeight_range (setFlags true false true d) s) as (_ & _ & Hzero & _).
  split; [exact (Hzero Hoff) | vm_compute; reflexivity].
Defined.

Lemma classWeight_bounds (d : Document) (s : Node) : (-50 <= classWeight d s <= 50)%Z.
Proof.
  unfold classWeight. destruct (WeightClasses d); simpl; [| lia].
  destruct (String.eqb (AttrVal "class" s) ""), (String.eqb (AttrVal "id" s) ""); simpl;
    destruct (negativeRegexp (AttrVal "class" s)), (positiveRegexp (AttrVal "class" s)),
             (negativeRegexp (AttrVal "id" s)), (positiveRegexp (AttrVal "id" s)),
             (okMaybeItsAHeaderFooterRegexp (NodeName s)); simpl; lia.
Qed.

(** The score a node enters the candidate map with is a whole number
    between -55 and 55 held by a candidate over the node itself: the class
    weight, 5 more for a div, 5 less for a th, and 3 whatever the class weight
    for a blockquote or a form. *)
Theorem scoreNode_range (d : Document) (s : Node) :
  selection (scoreNode d s) = s /\
  (exists z : Z, score (scoreNode d s) = float32 z /\ (-55 <= z <= 55)%Z) /\
  (Is (Tags ["blockquote"; "form"]) s = true -> score (scoreNode d s) = float32 3) /\
  (Is (Tags ["div"]) s = true -> score (scoreNode d s) = float32 (classWeight d s + 5)) /\
  (Is (Tags ["th"]) s = true -> score (scoreNode d s) = float32 (classWeight d s - 5)) /\
  (Is (Tags ["div"; "blockquote"; "form"; "th"]) s = false ->
     score (scoreNode d s) = float32 (classWeight d s)).
Proof.
  pose proof (classWeight_bounds d s) as Hrange.
  unfold scoreNode, Is, matches. split; [done |].
  destruct (is_element s); simpl.
  2:{ split; [eexists; split; [done | lia] |]. done. }
  repeat case_bool_decide; simpl;
    repeat match goal with
           | H : _ ∈ _ |- _ => apply list_elem_of_In in H; simpl in H
           | H : _ ∉ _ |- _ => rewrite list_elem_of_In in H; simpl in H
           end;
    (split; [eexists; split; [done | lia] |]);
    repeat split; intros; try done; try (exfalso; intuition congruence).
Qed.

(** ** The tag lists of [rateElements] *)

(** [inArr] ranges over [nonContentTags] whatever list it is given.  So
    [validEmptyElement] is [elementNeedsRemoval]: it never holds for hr, br
    and img, the tags of [allowEmptyTag], and where [rateElements] asks for
    it, after [elementNeedsRemoval] has failed, it fails too. *)
Theorem inArr_ignores_its_list (search : string) (arr : list string) :
  inArr search arr = bool_decide (search ∈ nonContentTags) /\
  inArr search arr = inArr search [] /\
  (forall s, validEmptyElement s = elementNeedsRemoval s) /\
  (forall s, NodeName s ∈ allowEmptyTag -> validEmptyElement s = false) /\
  (forall s, elementNeedsRemoval s = false -> validEmptyElement s = false).
Proof.
  split; [| split; [done | split; [done | split; [| done]]]].
  - unfold inArr. apply eq_true_iff_eq. rewrite existsb_exists, bool_decide_eq_true.
    split.
    + intros (x & Hx & ->%String.eqb_eq). by apply list_elem_of_In.
    + intros Hs. exists search. split; [by apply list_elem_of_In | apply String.eqb_refl].
  - intros s Hs. unfold validEmptyElement, inArr, allowEmptyTag in *.
    apply list_elem_of_In in Hs. simpl in Hs.
    destruct Hs as [<- | [<- | [<- | []]]]; reflexivity.
Qed.

(** ** The candidate map *)

Lemma keyed_empty (Q : Node -> Prop) : keyed Q ∅.
Proof. intros k c. by rewrite lookup_empty. Qed.

Lemma keyed_ensure (Q : Node -> Prop) (d : Document) (cs : gmap nat candidate) (n : Node) :
  keyed Q cs -> Q n ->
  keyed Q (match cs !! ptr n with
           | Some _ => cs
           | None => <[ptr n := scoreNode d n]> cs
           end).
Proof.
  intros Hcs Hn. destruct (cs !! ptr n) eqn:E; [done |].
  intros k c. destruct (decide (k = ptr n)) as [-> | Hne].
  - rewrite lookup_insert_eq. by intros [= <-].
  - rewrite lookup_insert_ne by done. apply Hcs.
Qed.

Lemma keyed_alter (Q : Node -> Prop) (cs : gmap nat candidate) (x : Qc) (p : nat) :
  keyed Q cs -> keyed Q (alter (addScore x) p cs).
Proof.
  intros Hcs k c. destruct (decide (k = p)) as [-> | Hne].
  - rewrite lookup_alter_eq. destruct (cs !! p) as [c0|] eqn:E; [| done].
    simpl. intros [= <-]. simpl. by apply (Hcs p c0).
  - rewrite lookup_alter_ne by done. apply Hcs.
Qed.

Lemma scoreParagraph_keyed (d : Document) (m : Z) (cs cs' : gmap nat candidate) (s : Node) :
  s ∈ Find (Tags ["p"; "td"]) (document d) ->
  keyed (scoredFor (document d) m) cs ->
  scoreParagraph d m cs s = Some cs' ->
  keyed (scoredFor (document d) m) cs'.
Proof.
  intros Hs Hcs. unfold scoreParagraph.
  destruct (Z.ltb_spec (Z.of_nat (String.length (Text s))) m) as [Hshort | Hlong];
    [by intros [= <-] |].
  destruct (Parent (document d) s) as [par|] eqn:Hpar; [| done].
  assert (Qpar : scoredFor (document d) m par).
  { destruct (Parent_Some _ _ _ Hpar) as (He & Hin & _).
    split; [done |]. split; [done |]. exists s. by repeat split; try left. }
  destruct (Parent (document d) par) as [g|] eqn:Hg; intros [= <-].
  - assert (Qg : scoredFor (document d) m g).
    { destruct (Parent_Some _ _ _ Hg) as (He & Hin & _).
      split; [done |]. split; [done |]. exists s. repeat split; [done | done |].
      right. by exists par. }
    apply keyed_alter, keyed_alter, keyed_ensure; [| done]. by apply keyed_ensure.
  - apply keyed_alter. by apply keyed_ensure.
Qed.

Lemma scoreParagraphsLoop_keyed (d : Document) (m : Z) (ps : list Node)
    (cs cs' : gmap nat candidate) :
  (forall s, s ∈ ps -> s ∈ Find (Tags ["p"; "td"]) (document d)) ->
  keyed (scoredFor (document d) m) cs ->
  scoreParagraphsLoop d m cs ps = Some cs' ->
  keyed (scoredFor (document d) m) cs'.
Proof.
  revert cs. induction ps as [|s ps IH]; intros cs Hps Hcs; simpl; [by intros [= <-] |].
  destruct (scoreParagraph d m cs s) as [cs1|] eqn:Hstep; [| done].
  apply IH.
  - intros s' Hs'. apply Hps. by right.
  - apply (scoreParagraph_keyed d m cs cs1 s); [apply Hps; by left | done | done].
Qed.

(** When [scoreParagraphs] returns, the tree is untouched and every entry
    of the candidate map is keyed by the node of its own selection, an
    element of the document that is the parent or the grandparent of a
    paragraph or table cell with at least [minimumTextLength] bytes of
    text.  Nothing else gets a score. *)
Theorem scoreParagraphs_candidates (d d' : Document) (minimumTextLength : Z) :
  scoreParagraphs d minimumTextLength = Some d' ->
  document d' = document d /\
  keyed (scoredFor (document d) minimumTextLength) (candidates d').
Proof.
  unfold scoreParagraphs.
  destruct (scoreParagraphsLoop d minimumTextLength ∅ _) as [cs|] eqn:Hloop; [| done].
  intros [= <-]. split; [done |]. simpl.
  apply scoreParagraphsLoop_keyed in Hloop; [| done | apply keyed_empty].
  intros k c. rewrite lookup_fmap.
  destruct (cs !! k) as [c0|] eqn:E; [| done].
  simpl. intros [= <-]. simpl. by apply (Hloop k c0).
Qed.

Lemma scoreParagraphs_candidates_witness :
  let d := setLengths 250 5 (exampleDocument shortBestTree) in
  exists d',
    scoreParagraphs d 5 = Some d' /\
    document d' = shortBestTree /\
    keyed (scoredFor shortBestTree 5) (candidates d').
Proof.
  intros d.
  destruct (scoreParagraphs d 5) as [d'|] eqn:Hrun; [| vm_compute in Hrun; discriminate Hrun].
  exists d'. split; [reflexivity |].
  exact (scoreParagraphs_candidates d d' 5 Hrun).
Defined.


(** ** Loops that only remove *)

Lemma prunedF_refl (R : Node -> Node -> Prop) (ks : list Node) :
  Forall (fun k => R k k) ks -> prunedF R ks ks.
Proof. induction 1; by constructor. Qed.

Lemma pruned_refl (n : Node) : pruned n n.
Proof.
  induction n as [p t d a ks IH] using Node_forall_ind.
  constructor. by apply prunedF_refl.
Qed.

Lemma prunedF_trans (ks ms ls : list Node) :
  Forall (fun k => forall m l, pruned k m -> pruned m l -> pruned k l) ks ->
  prunedF pruned ks ms -> prunedF pruned ms ls -> prunedF pruned ks ls.
Proof.
  intros IH H1. revert ls. induction H1 as [|k ks ms H1 IHF|k m ks ms Hkm H1 IHF]; intros ls H2.
  - done.
  - constructor. apply IHF; [| done]. by apply Forall_cons in IH as [_ ?].
  - apply Forall_cons in IH as [IHk IHks].
    inversion H2 as [|? ? ? H2'|? l ? ls' Hml H2']; subst.
    + constructor. by apply IHF.
    + constructor; [by apply (IHk m) | by apply IHF].
Qed.

Lemma pruned_trans (n m l : Node) : pruned n m -> pruned m l -> pruned n l.
Proof.
  revert m l. induction n as [p t d a ks IH] using Node_forall_ind.
  intros m l H1 H2. inversion H1 as [? ? ? ? ? ms Hks]; subst.
  inversion H2 as [? ? ? ? ? ls Hms]; subst.
  constructor. by apply (prunedF_trans ks ms ls).
Qed.

Lemma prunedF_app (R : Node -> Node -> Prop) (ks1 ks2 ms1 ms2 : list Node) :
  prunedF R ks1 ms1 -> prunedF R ks2 ms2 -> prunedF R (ks1 ++ ks2) (ms1 ++ ms2).
Proof. induction 1; simpl; [done | |]; intros; by constructor; auto. Qed.

(** A rewriting that puts nothing or the node itself in place of a node
    prunes the tree. *)
Lemma rewrite_at_pruned (p : nat) (f : Node -> Node -> list Node) (n : Node) :
  (forall par c, f par c = [] \/ f par c = [c]) ->
  pruned n (rewrite_at p f n).
Proof.
  intros Hf. induction n as [q t d a ks IH] using Node_forall_ind.
  simpl. constructor.
  generalize (mkNode q t d a ks). intros par.
  induction ks as [|k ks IHks]; simpl; [constructor |].
  apply Forall_cons in IH as [IHk IH].
  apply (prunedF_app _ [k] ks); [| by apply IHks].
  destruct (ptr k =? p)%nat.
  - destruct (Hf par k) as [-> | ->].
    + constructor. constructor.
    + constructor; [apply pruned_refl | constructor].
  - constructor; [done | constructor].
Qed.

Lemma removeNodes_pruned (doc s : Node) : pruned doc (removeNodes doc s).
Proof.
  apply rewrite_at_pruned. intros par c. destruct (is_element par); [by left | by right].
Qed.

Lemma fold_left_pruned {A} (f : Node -> A -> Node) (l : list A) (doc : Node) :
  (forall doc a, pruned doc (f doc a)) -> pruned doc (fold_left f l doc).
Proof.
  intros Hf. revert doc. induction l as [|a l IH]; intros doc; simpl; [apply pruned_refl |].
  by apply (pruned_trans _ (f doc a)).
Qed.

Lemma evalSelection_pruned (doc s : Node) : pruned doc (evalSelection doc s).1.2.
Proof.
  unfold evalSelection. case_bool_decide; simpl.
  - apply fold_left_pruned. apply removeNodes_pruned.
  - apply pruned_refl.
Qed.

Lemma rateElement_pruned (doc s : Node) : pruned doc (rateElement doc s).
Proof.
  unfold rateElement. destruct (elementNeedsRemoval s); [apply removeNodes_pruned |].
  pose proof (evalSelection_pruned doc s) as H.
  destruct (evalSelection doc s) as [[score doc'] s']. simpl in H.
  destruct (score <? pkg.ScoreValidContent)%Z; [| done].
  apply (pruned_trans _ doc'); [done | apply removeNodes_pruned].
Qed.

(** What a pruned tree keeps. *)
Lemma prunedF_ptrs (ks ms : list Node) :
  Forall (fun k => forall m, pruned k m -> sublist (ptrs m) (ptrs k)) ks ->
  prunedF pruned ks ms -> sublist (flat_map ptrs ms) (flat_map ptrs ks).
Proof.
  intros IH H. induction H as [|k ks ms H IHF|k m ks ms Hkm H IHF].
  - done.
  - apply Forall_cons in IH as [_ IH]. cbn [flat_map].
    apply sublist_inserts_l. by apply IHF.
  - apply Forall_cons in IH as [IHk IH]. cbn [flat_map].
    apply sublist_app; [by apply IHk | by apply IHF].
Qed.

Lemma pruned_ptrs (n m : Node) : pruned n m -> sublist (ptrs m) (ptrs n).
Proof.
  revert m. induction n as [p t d a ks IH] using Node_forall_ind.
  intros m H. inversion H as [? ? ? ? ? ms Hks]; subst.
  rewrite !ptrs_unfold. cbn [ptr children]. apply sublist_skip. by apply prunedF_ptrs.
Qed.

Lemma pruned_wf (n m : Node) : pruned n m -> wf n -> wf m.
Proof. intros H%pruned_ptrs. unfold wf. intros Hn. by eapply sublist_NoDup. Qed.

Lemma prunedF_descendants (ks ms : list Node) (c : Node) :
  Forall (fun k => forall m c, pruned k m -> c ∈ descendants m ->
                   exists c0, c0 ∈ descendants k /\ pruned c0 c) ks ->
  prunedF pruned ks ms ->
  c ∈ flat_map (fun k => k :: descendants k) ms ->
  exists c0, c0 ∈ flat_map (fun k => k :: descendants k) ks /\ pruned c0 c.
Proof.
  intros IH H. induction H as [|k ks ms H IHF|k m ks ms Hkm H IHF]; cbn [flat_map].
  - by intros ?%elem_of_nil.
  - apply Forall_cons in IH as [_ IH]. intros Hc.
    destruct (IHF IH Hc) as (c0 & Hc0 & Hp). exists c0. split; [| done].
    apply elem_of_app. by right.
  - apply Forall_cons in IH as [IHk IH].
    intros [Hc | Hc]%elem_of_app.
    + apply elem_of_cons in Hc as [-> | Hc].
      * exists k. split; [apply elem_of_app; left; by left | done].
      * destruct (IHk m c Hkm Hc) as (c0 & Hc0 & Hp). exists c0. split; [| done].
        apply elem_of_app. left. by right.
    + destruct (IHF IH Hc) as (c0 & Hc0 & Hp). exists c0. split; [| done].
      apply elem_of_app. by right.
Qed.

Lemma pruned_descendants (n m c : Node) :
  pruned n m -> c ∈ descendants m -> exists c0, c0 ∈ descendants n /\ pruned c0 c.
Proof.
  revert m c. induction n as [p t d a ks IH] using Node_forall_ind.
  intros m c H. inversion H as [? ? ? ? ? ms Hks]; subst.
  rewrite !descendants_unfold. cbn [children]. by apply prunedF_descendants.
Qed.

Lemma pruned_fields (n m : Node) :
  pruned n m -> ptr m = ptr n /\ Type_ m = Type_ n /\ Data m = Data n /\ Attr m = Attr n.
Proof. by destruct 1. Qed.

(** [Content], as it stands, only cuts subtrees out of the tree: the
    document it leaves is the document it was given with some subtrees
    removed.  Every node that is left was there before, at the same address
    and with the same type, tag or text and attributes, and the addresses
    that are left are in the order they were in. *)
Theorem Content_only_prunes `{Externals} (d : Document) :
  let d' := snd (Content d) in
  pruned (document d) (document d') /\
  sublist (ptrs (document d')) (ptrs (document d)) /\
  (wf (document d) -> wf (document d')) /\
  (forall c, c ∈ descendants (document d') ->
     exists c0, c0 ∈ descendants (document d) /\
       ptr c = ptr c0 /\ Type_ c = Type_ c0 /\ Data c = Data c0 /\ Attr c = Attr c0).
Proof.
  intros d'.
  assert (Hp : pruned (document d) (document d')).
  { unfold d', Content. destruct (String.eqb (content d) ""); simpl; [| apply pruned_refl].
    eapply pruned_trans; [| apply fold_left_pruned, rateElement_pruned].
    apply fold_left_pruned, removeNodes_pruned. }
  split; [done |]. split; [by apply pruned_ptrs |]. split; [by apply pruned_wf |].
  intros c Hc. destruct (pruned_descendants _ _ _ Hp Hc) as (c0 & Hc0 & Hcc).
  exists c0. split; [done |]. by apply pruned_fields.
Qed.

(** ** The loops of [prepareCandidates] on the tree *)

Lemma removeNonContent_document (d : Document) :
  wf (document d) ->
  document (removeNonContent d)
  = edited (fun _ => matches (Tags nonContentTags)) (fun ctx _ => ctx)
      (fun s pe => if true && pe then Remove else Same) false (document d).
Proof.
  intros Hwf. unfold removeNonContent. simpl.
  rewrite <-loop_is_pass by done. rewrite <-Find_selected.
  apply fold_left_ext_in. intros doc s _.
  apply (removeNodes_if_editAt (fun _ => true)).
Qed.

Lemma Find_nil_forest (sl : Selector) (n : Node) :
  Find sl n = [] <->
  Forall (fun c => matches sl c = false /\ Find sl c = []) (children n).
Proof.
  rewrite Find_unfold. induction (children n) as [|c cs IH]; simpl.
  - split; [constructor | done].
  - rewrite Forall_cons, <-IH. destruct (matches sl c); simpl.
    + split; [done | by intros [[? _] _]].
    + split.
      * intros [??]%app_eq_nil. done.
      * intros [[_ ->] ->]. done.
Qed.

Lemma editedChild_remove_Find_nil (sl : Selector) (pe : bool) (c : Node) :
  hang_from_elements sl c = true ->
  (matches sl c = true -> pe = true) ->
  Forall (fun x => matches sl x = false /\ Find sl x = [])
    (editedChild (fun _ => matches sl) (fun ctx _ => ctx)
       (fun s pe => if true && pe then Remove else Same) false pe c).
Proof.
  revert pe. induction c as [p t d a ks IH] using Node_forall_ind. intros pe Hh Hpe.
  rewrite editedChild_unfold.
  destruct (matches sl (mkNode p t d a ks)) eqn:Hm.
  - rewrite (Hpe eq_refl). simpl. constructor.
  - constructor; [| constructor]. split; [done |].
    apply Find_nil_forest. cbn [children].
    simpl in Hh. clear Hm Hpe.
    induction ks as [|k ks IHks]; simpl; [constructor |].
    apply Forall_cons in IH as [IHk IH].
    simpl in Hh. apply andb_true_iff in Hh as [Hk Hks].
    apply andb_true_iff in Hk as [Hk1 Hk2].
    apply Forall_app. split; [| by apply IHks].
    apply IHk; [done |]. intros Hmk. rewrite Hmk in Hk1. simpl in Hk1.
    unfold is_element. simpl. done.
Qed.

Lemma pruned_Find_nil (sl : Selector) (n m : Node) :
  pruned n m -> Find sl n = [] -> Find sl m = [].
Proof.
  intros Hp Hn. destruct (Find sl m) as [|c cs] eqn:E; [done |].
  assert (Hc : c ∈ Find sl m) by (rewrite E; by left).
  apply Find_descendant in Hc as [Hc Hm].
  destruct (pruned_descendants _ _ _ Hp Hc) as (c0 & Hc0 & Hcc).
  destruct (pruned_fields _ _ Hcc) as (_ & Ht & Hd & _).
  assert (c0 ∈ Find sl n) as Hin.
  { unfold Find. apply list_elem_of_filter. split; [| done].
    unfold matches, is_element in *. by rewrite <-Ht, <-Hd. }
  rewrite Hn in Hin. by apply elem_of_nil in Hin.
Qed.

Lemma setData_Find_nil (sl : Selector) (data : string) (doc s : Node) :
  matches sl (elem 0 data [] []) = false ->
  Find sl doc = [] -> Find sl (setData data doc s) = [].
Proof.
  intros Hdata. unfold setData.
  induction doc as [p t d a ks IH] using Node_forall_ind.
  rewrite !Find_nil_forest. cbn [rewrite_at children].
  generalize (mkNode p t d a ks). intros par.
  induction ks as [|k ks IHks]; simpl; [done |].
  apply Forall_cons in IH as [IHk IH].
  intros [[Hk1 Hk2] Hks]%Forall_cons. apply Forall_app. split; [| by apply IHks].
  destruct (ptr k =? ptr s)%nat.
  - constructor; [| constructor]. split.
    + unfold matches, is_element in *. cbn [Type_ Data] in *.
      destruct (bool_decide (Type_ k = ElementNode)); [| done]. simpl in *.
      by destruct sl.
    + apply Find_nil_forest. cbn [children]. by apply Find_nil_forest.
  - constructor; [| constructor]. split; [| by apply IHk].
    by destruct k.
Qed.

Lemma editedForest_remove_Find_nil (sl : Selector) (pe : bool) (ks : list Node) :
  forallb (fun c => (negb (matches sl c) || pe) && hang_from_elements sl c) ks = true ->
  Forall (fun x => matches sl x = false /\ Find sl x = [])
    (flat_map (editedChild (fun _ => matches sl) (fun ctx _ => ctx)
                 (fun s pe => if true && pe then Remove else Same) false pe) ks).
Proof.
  induction ks as [|k ks IH]; simpl; [constructor |].
  intros [[Hk1 Hk2]%andb_true_iff Hks]%andb_true_iff.
  apply Forall_app. split; [| by apply IH].
  apply editedChild_remove_Find_nil; [done |].
  intros Hm. rewrite Hm in Hk1. done.
Qed.

Lemma removeUnlikelyCandidates_pruned (d : Document) :
  pruned (document d) (document (removeUnlikelyCandidates d)).
Proof.
  unfold removeUnlikelyCandidates. simpl. apply fold_left_pruned.
  intros doc s. destruct (isUnlikelyCandidate s); [apply removeNodes_pruned | apply pruned_refl].
Qed.

Lemma fold_left_Find_nil {A} (sl : Selector) (f : Node -> A -> Node) (l : list A) (doc : Node) :
  (forall doc a, Find sl doc = [] -> Find sl (f doc a) = []) ->
  Find sl doc = [] -> Find sl (fold_left f l doc) = [].
Proof.
  intros Hf. revert doc. induction l as [|a l IH]; intros doc Hdoc; simpl; [done |].
  by apply IH, Hf.
Qed.

(** After [prepareCandidates] no meta, script, style, iframe, link or form
    element is left in the tree, when in the tree it was given each of them
    hung from an element, as in any tree of the parser.  The first loop
    alone gets rid of them. *)
Theorem prepareCandidates_leaves_no_non_content `{Externals} (d d' : Document) :
  wf (document d) ->
  hang_from_elements (Tags nonContentTags) (document d) = true ->
  Find (Tags nonContentTags) (document (removeNonContent d)) = [] /\
  (prepareCandidates d = Some d' -> Find (Tags nonContentTags) (document d') = []).
Proof.
  intros Hwf Hh.
  assert (Hfirst : Find (Tags nonContentTags) (document (removeNonContent d)) = []).
  { rewrite removeNonContent_document by done. apply Find_nil_forest.
    unfold edited. cbn [children].
    apply editedForest_remove_Find_nil. by destruct (document d). }
  split; [done |].
  unfold prepareCandidates, scoreParagraphs.
  destruct (scoreParagraphsLoop _ _ _ _); [| done]. intros [= <-]. simpl.
  apply fold_left_Find_nil.
  { intros doc s Hdoc. destruct (negb _); [| done]. by apply setData_Find_nil. }
  destruct (RemoveUnlikelyCandidates d); [| done].
  by apply (pruned_Find_nil _ _ _ (removeUnlikelyCandidates_pruned (removeNonContent d))).
Qed.

Lemma prepareCandidates_leaves_no_non_content_witness :
  let E := exampleExternals [] in
  let d := exampleDocument keptTree in
  wf (document d) /\
  hang_from_elements (Tags nonContentTags) (document d) = true /\
  Find (Tags nonContentTags) (document d) <> [] /\
  Find (Tags nonContentTags) (document (removeNonContent d)) = [].
Proof.
  intros E d.
  assert (Hwf : wf (document d)) by (apply wf_by_computation; vm_compute; reflexivity).
  assert (Hh : hang_from_elements (Tags nonContentTags) (document d) = true)
    by (vm_compute; reflexivity).
  split; [exact Hwf |]. split; [exact Hh |]. split; [vm_compute; discriminate |].
  exact (proj1 (prepareCandidates_leaves_no_non_content d d Hwf Hh)).
Defined.

Lemma setData_if_editAt (cond : Node -> bool) (data : string) (doc s : Node) :
  (if cond s then setData data doc s else doc)
  = editAt (fun s _ => if cond s then Relabel data else Same) doc s.
Proof.
  unfold editAt, setData. destruct (cond s); simpl; [done |].
  symmetry. apply rewrite_at_same.
Qed.

Lemma divsToParagraphs_editedChild `{Externals} (pe : bool) (c : Node) :
  editedChild (fun _ => matches (Tags ["header"; "footer"; "article"; "div"]))
    (fun ctx _ => ctx)
    (fun s _ => if negb (divToPElementsRegexp (Html s)) then Relabel "p" else Same)
    false pe c
  = [divsToParagraphs c].
Proof.
  revert pe. induction c as [p t d a ks IH] using Node_forall_ind. intros pe.
  rewrite editedChild_unfold.
  assert (Hks : flat_map
                  (editedChild (fun _ => matches (Tags ["header"; "footer"; "article"; "div"]))
                     (fun ctx _ => ctx)
                     (fun s _ => if negb (divToPElementsRegexp (Html s))
                                 then Relabel "p" else Same)
                     false (is_element (mkNode p t d a ks))) ks
                = map divsToParagraphs ks).
  { generalize (is_element (mkNode p t d a ks)). intros pe'.
    induction ks as [|k ks IHks]; simpl; [done |].
    apply Forall_cons in IH as [IHk IH]. by rewrite IHk, IHks. }
  cbn [children ptr Type_ Data Attr]. rewrite Hks.
  cbn [divsToParagraphs children ptr Type_ Data Attr].
  destruct (matches _ (mkNode p t d a ks)); simpl; [| done].
  by destruct (negb _).
Qed.

Lemma divsToParagraphs_ptrs `{Externals} (n : Node) : ptrs (divsToParagraphs n) = ptrs n.
Proof.
  induction n as [p t d a ks IH] using Node_forall_ind.
  cbn [divsToParagraphs children ptr]. rewrite !ptrs_unfold. cbn [ptr children]. f_equal.
  induction ks as [|k ks IHks]; simpl; [done |].
  apply Forall_cons in IH as [IHk IH]. by rewrite IHk, IHks.
Qed.

Lemma divsToParagraphs_Text `{Externals} (n : Node) : Text (divsToParagraphs n) = Text n.
Proof.
  induction n as [p t d a ks IH] using Node_forall_ind.
  cbn [divsToParagraphs Text children ptr Type_ Data Attr].
  assert (Hks : map Text (map divsToParagraphs ks) = map Text ks).
  { induction ks as [|k ks IHks]; simpl; [done |].
    apply Forall_cons in IH as [IHk IH]. by rewrite IHk, IHks. }
  rewrite Hks. f_equal.
  unfold matches, is_element. cbn [Type_ Data].
  case_bool_decide as Ht; [| done].
  case_bool_decide as He; [congruence | done].
Qed.

Lemma divsToParagraphs_ptrs_forest `{Externals} (ks : list Node) :
  flat_map ptrs (map divsToParagraphs ks) = flat_map ptrs ks.
Proof. induction ks as [|k ks IH]; simpl; [done |]. by rewrite divsToParagraphs_ptrs, IH. Qed.

Lemma divsToParagraphs_Text_forest `{Externals} (ks : list Node) :
  map Text (map divsToParagraphs ks) = map Text ks.
Proof. induction ks as [|k ks IH]; simpl; [done |]. by rewrite divsToParagraphs_Text, IH. Qed.

Lemma transformMisusedDivsIntoParagraphs_document `{Externals} (d : Document) :
  wf (document d) ->
  document (transformMisusedDivsIntoParagraphs d)
  = mkNode (ptr (document d)) (Type_ (document d)) (Data (document d)) (Attr (document d))
      (map divsToParagraphs (children (document d))).
Proof.
  intros Hwf. unfold transformMisusedDivsIntoParagraphs. simpl.
  rewrite (Find_selected _ false).
  rewrite (fold_left_ext_in _
             (editAt (fun s _ => if negb (divToPElementsRegexp (Html s))
                                 then Relabel "p" else Same))).
  2:{ intros doc0 s _.
      apply (setData_if_editAt (fun s => negb (divToPElementsRegexp (Html s)))). }
  rewrite loop_is_pass by done. unfold edited. f_equal.
  generalize (is_element (document d)). intros pe.
  induction (children (document d)) as [|k ks IHks]; simpl; [done |].
  by rewrite divsToParagraphs_editedChild, IHks.
Qed.

(** On a well-formed document [transformMisusedDivsIntoParagraphs] leaves
    the tree [divsToParagraphs] describes: below the root, each header,
    footer, article or div whose inner HTML opens no dl, div, ol, pre,
    table, ul, header, footer or article has its tag rewritten to p, and
    nothing else changes.  No node is added, removed or moved and the text
    of the document is the same. *)
Theorem transformMisusedDivsIntoParagraphs_spec `{Externals} (d : Document) :
  wf (document d) ->
  let doc := document d in
  let doc' := document (transformMisusedDivsIntoParagraphs d) in
  doc' = mkNode (ptr doc) (Type_ doc) (Data doc) (Attr doc)
           (map divsToParagraphs (children doc)) /\
  ptrs doc' = ptrs doc /\
  Text doc' = Text doc /\
  wf doc'.
Proof.
  intros Hwf doc doc'.
  assert (E : doc' = mkNode (ptr doc) (Type_ doc) (Data doc) (Attr doc)
                       (map divsToParagraphs (children doc)))
    by (by apply transformMisusedDivsIntoParagraphs_document).
  assert (Hptrs : ptrs doc' = ptrs doc).
  { rewrite E, !ptrs_unfold. cbn [ptr children]. f_equal.
    apply divsToParagraphs_ptrs_forest. }
  split; [done |]. split; [done |]. split.
  - rewrite E. clear E. destruct doc as [p t dd a ks].
    cbn [Text children ptr Type_ Data Attr].
    by rewrite divsToParagraphs_Text_forest.
  - unfold wf. by rewrite Hptrs.
Qed.

Lemma transformMisusedDivsIntoParagraphs_spec_witness :
  let E := exampleExternals [] in
  let d := exampleDocument shortBestTree in
  wf (document d) /\
  document (transformMisusedDivsIntoParagraphs d)
  = mkNode 0 DocumentNode "" []
      [elem 1 "html" []
         [elem 2 "head" [] [elem 3 "title" [] [text 4 "title!"]];
          elem 5 "body" []
            [elem 6 "p" [mkAttr "class" "content"]
               [elem 7 "p" [] [text 8 "Some content"]]]]].
Proof.
  intros E d.
  assert (Hwf : wf (document d)) by (apply wf_by_computation; vm_compute; reflexivity).
  split; [exact Hwf |].
  destruct (transformMisusedDivsIntoParagraphs_spec d Hwf) as (Hdoc & _).
  rewrite Hdoc. vm_compute. reflexivity.
Defined.

(** ** The edits of the tree, one node at a time *)

Lemma NoDup_map_inj {A B} (f : A -> B) (l : list A) (x y : A) :
  NoDup (map f l) -> x ∈ l -> y ∈ l -> f x = f y -> x = y.
Proof.
  induction l as [|z l IH]; simpl; [by intros _ ?%elem_of_nil |].
  intros [Hz Hl]%NoDup_cons [-> | Hx]%elem_of_cons [-> | Hy]%elem_of_cons Hf.
  - done.
  - exfalso. apply Hz. rewrite Hf. apply list_elem_of_fmap. by exists y.
  - exfalso. apply Hz. rewrite <-Hf. apply list_elem_of_fmap. by exists x.
  - by apply IH.
Qed.

Lemma lookup_with_parent_None (p : nat) (n : Node) :
  lookup_with_parent p n = None -> p ∉ map ptr (descendants n).
Proof.
  intros Hnone (s & -> & Hs)%list_elem_of_fmap.
  apply lookup_with_parent_descendant in Hs. rewrite Hnone in Hs. by destruct Hs.
Qed.

Lemma lookup_with_parent_ptrs (p : nat) (n par c : Node) :
  lookup_with_parent p n = Some (par, c) -> p ∈ map ptr (descendants n).
Proof.
  intros (Hpar & Hc & <-)%lookup_with_parent_Some.
  apply list_elem_of_fmap. exists c. split; [done |].
  assert (Hcd : c ∈ descendants par).
  { rewrite descendants_unfold. apply list_elem_of_In, in_flat_map.
    exists c. split; [by apply list_elem_of_In | by left]. }
  destruct Hpar as [-> | Hpar]; [done | by apply (descendants_trans _ par)].
Qed.

(** The node of a well-formed tree that sits at the address of one of its
    descendants is that descendant. *)
Lemma lookup_with_parent_self (doc s : Node) :
  wf doc -> s ∈ descendants doc ->
  exists par, lookup_with_parent (ptr s) doc = Some (par, s).
Proof.
  intros Hwf Hs. destruct (lookup_with_parent_descendant _ _ Hs) as [[par c] Hl].
  exists par. rewrite Hl. f_equal. f_equal.
  destruct (lookup_with_parent_Some _ _ _ _ Hl) as (Hpar & Hc & Hptr).
  assert (Hcd : c ∈ descendants doc).
  { assert (c ∈ descendants par).
    { rewrite descendants_unfold. apply list_elem_of_In, in_flat_map.
      exists c. split; [by apply list_elem_of_In | by left]. }
    destruct Hpar as [-> | Hpar]; [done | by apply (descendants_trans _ par)]. }
  by apply (NoDup_map_inj ptr (descendants doc)); [apply wf_descendants_NoDup | | |].
Qed.

Lemma rewriteF_segment (p : nat) (g : bool -> Node -> list Node) (nn : Node)
    (ks : list Node) (par c : Node) :
  Forall (fun n => forall par c,
            wf n -> lookup_with_parent p n = Some (par, c) ->
            exists l1 l2,
              ptrs n = l1 ++ ptrs c ++ l2 /\
              ptrs (rewrite_at p (fun par => g (is_element par)) n)
              = l1 ++ flat_map ptrs (g (is_element par) c) ++ l2 /\
              (g (is_element par) c = [c] ->
               rewrite_at p (fun par => g (is_element par)) n = n)) ks ->
  NoDup (flat_map ptrs ks) ->
  (fix go (cs : list Node) : option (Node * Node) :=
     match cs with
     | [] => None
     | c :: cs' =>
         if (ptr c =? p)%nat then Some (nn, c)
         else match lookup_with_parent p c with
              | Some r => Some r
              | None => go cs'
              end
     end) ks = Some (par, c) ->
  exists l1 l2,
    flat_map ptrs ks = l1 ++ ptrs c ++ l2 /\
    flat_map ptrs (rewriteF p g (is_element nn) ks)
    = l1 ++ flat_map ptrs (g (is_element par) c) ++ l2 /\
    (g (is_element par) c = [c] -> rewriteF p g (is_element nn) ks = ks).
Proof.
  induction ks as [|k ks IHks]; intros IH Hks; [done |].
  apply Forall_cons in IH as [IHk IH].
  apply NoDup_forest_cons in Hks as (Hk & Hks & Hdisj).
  change (rewriteF p g (is_element nn) (k :: ks))
    with ((if (ptr k =? p)%nat then g (is_element nn) k
           else [rewrite_at p (fun par => g (is_element par)) k])
          ++ rewriteF p g (is_element nn) ks).
  cbn [flat_map].
  destruct (Nat.eqb_spec (ptr k) p) as [Hkp | Hkp].
  - intros [= <- <-].
    assert (Habs : rewriteF p g (is_element nn) ks = ks).
    { apply rewriteF_absent. apply Hdisj. rewrite ptrs_unfold, Hkp. by left. }
    exists [], (flat_map ptrs ks). rewrite Habs, flat_map_app. split; [done |].
    split; [done |]. by intros ->.
  - destruct (lookup_with_parent p k) as [[par' c']|] eqn:Hlk.
    + intros [= -> ->].
      assert (Habs : rewriteF p g (is_element nn) ks = ks).
      { apply rewriteF_absent. apply Hdisj. rewrite ptrs_descendants. right.
        by apply (lookup_with_parent_ptrs _ _ par c). }
      destruct (IHk par c Hk eq_refl) as (l1 & l2 & E1 & E2 & E3).
      exists l1, (l2 ++ flat_map ptrs ks). rewrite Habs. cbn [flat_map app].
      rewrite E1, E2, <-!app_assoc. split; [done |]. split; [done |].
      intros Hg. by rewrite E3.
    + intros Hgo. destruct (IHks IH Hks Hgo) as (l1 & l2 & E1 & E2 & E3).
      assert (Hk' : rewrite_at p (fun par => g (is_element par)) k = k).
      { apply rewrite_at_absent. rewrite ptrs_descendants.
        intros [Heq | Hin]%elem_of_cons; [by apply Hkp |].
        by apply (lookup_with_parent_None _ _ Hlk). }
      exists (ptrs k ++ l1), l2. rewrite Hk'. cbn [flat_map app].
      rewrite E1, E2, <-!app_assoc. split; [done |]. split; [done |].
      intros Hg. by rewrite E3.
Qed.

(** What a rewriting at an address does to a well-formed tree: the addresses
    of the node that sits there give way to those of what replaces it, and
    the tree is the same when the node replaces itself. *)
Lemma rewrite_at_segment (p : nat) (g : bool -> Node -> list Node) (n par c : Node) :
  wf n -> lookup_with_parent p n = Some (par, c) ->
  exists l1 l2,
    ptrs n = l1 ++ ptrs c ++ l2 /\
    ptrs (rewrite_at p (fun par => g (is_element par)) n)
    = l1 ++ flat_map ptrs (g (is_element par) c) ++ l2 /\
    (g (is_element par) c = [c] -> rewrite_at p (fun par => g (is_element par)) n = n).
Proof.
  revert par c. induction n as [q t d a ks IH] using Node_forall_ind. intros par c Hwf Hlook.
  unfold wf in Hwf. rewrite ptrs_unfold in Hwf. cbn [ptr children] in Hwf.
  apply NoDup_cons in Hwf as [_ Hks].
  destruct (rewriteF_segment p g (mkNode q t d a ks) ks par c IH Hks Hlook)
    as (l1 & l2 & E1 & E2 & E3).
  rewrite rewrite_at_rewriteF. cbn [ptr Type_ Data Attr children].
  exists (q :: l1), l2.
  rewrite (ptrs_unfold (mkNode q t d a ks)),
          (ptrs_unfold (mkNode q t d a (rewriteF _ _ _ _))).
  cbn [ptr children]. rewrite E1, E2. split; [done |]. split; [done |].
  intros Hg. by rewrite E3.
Qed.

Lemma concat_app (l1 l2 : list string) :
  String.concat "" (l1 ++ l2) = String.concat "" l1 +:+ String.concat "" l2.
Proof.
  induction l1 as [|s l1 IH]; [done |].
  change ((s :: l1) ++ l2) with (s :: (l1 ++ l2)).
  by rewrite !concat_cons, IH, append_assoc.
Qed.

Lemma Text_unfold (n : Node) :
  Text n = (if bool_decide (Type_ n = TextNode) then Data n else "")
           +:+ String.concat "" (map Text (children n)).
Proof. by destruct n. Qed.

(** A rewriting that puts in place of a node nodes with the same text
    leaves the text of the tree as it is. *)
Lemma rewrite_at_Text (p : nat) (f : Node -> Node -> list Node) (n : Node) :
  (forall c, c ∈ descendants n -> ptr c = p ->
             forall par, String.concat "" (map Text (f par c)) = Text c) ->
  Text (rewrite_at p f n) = Text n.
Proof.
  induction n as [q t d a ks IH] using Node_forall_ind. intros Hf.
  rewrite (Text_unfold (rewrite_at _ _ _)), (Text_unfold (mkNode q t d a ks)).
  cbn [rewrite_at Type_ Data children]. f_equal.
  rewrite descendants_unfold in Hf. cbn [children] in Hf.
  generalize (mkNode q t d a ks). intros par.
  induction ks as [|k ks IHks]; [done |].
  apply Forall_cons in IH as [IHk IH].
  cbn [flat_map map]. rewrite map_app, concat_app, concat_cons.
  rewrite IHks.
  2: done.
  2:{ intros c Hc. apply Hf. cbn [flat_map]. apply elem_of_app. by right. }
  f_equal. destruct (Nat.eqb_spec (ptr k) p) as [Hkp | Hkp].
  - apply Hf; [| done]. cbn [flat_map]. apply elem_of_app. left. by left.
  - cbn [map]. rewrite concat_cons, append_empty_r. apply IHk.
    intros c Hc. apply Hf. cbn [flat_map]. apply elem_of_app. left. by right.
Qed.

(** [removeNodes] on a node of a well-formed tree.  A node that is not in
    the tree, and a node whose parent is not an element (the html element
    under the document node), leave the tree as it is.  A node under an
    element goes with all below it: its addresses are cut out of those of
    the tree, the others stay in their order, and the address of the node is
    in the tree no more. *)
Theorem removeNodes_cuts_the_subtree (doc s : Node) :
  wf doc ->
  (ptr s ∉ ptrs doc -> removeNodes doc s = doc) /\
  (s ∈ descendants doc -> Parent doc s = None -> removeNodes doc s = doc) /\
  (s ∈ descendants doc -> is_Some (Parent doc s) ->
     exists l1 l2,
       ptrs doc = l1 ++ ptrs s ++ l2 /\
       ptrs (removeNodes doc s) = l1 ++ l2 /\
       ptr s ∉ ptrs (removeNodes doc s)) /\
  wf (removeNodes doc s).
Proof.
  intros Hwf. split; [apply rewrite_at_absent |].
  split; [| split; [| by apply (pruned_wf doc _ (removeNodes_pruned doc s))]].
  - intros Hs Hpar. destruct (lookup_with_parent_self doc s Hwf Hs) as [par Hl].
    destruct (rewrite_at_segment (ptr s) (fun pe c => if pe then [] else [c]) doc par s Hwf Hl)
      as (_ & _ & _ & _ & Hid).
    apply Hid. unfold Parent in Hpar. rewrite Hl in Hpar. by destruct (is_element par).
  - intros Hs Hpar. destruct (lookup_with_parent_self doc s Hwf Hs) as [par Hl].
    destruct (rewrite_at_segment (ptr s) (fun pe c => if pe then [] else [c]) doc par s Hwf Hl)
      as (l1 & l2 & E1 & E2 & _).
    unfold Parent in Hpar. rewrite Hl in Hpar.
    destruct (is_element par); [| by destruct Hpar]. simpl in E2.
    exists l1, l2. split; [done |]. split; [done |].
    unfold removeNodes. rewrite E2.
    unfold wf in Hwf. rewrite E1 in Hwf.
    apply NoDup_app in Hwf as (_ & Hl1 & Hrest).
    apply NoDup_app in Hrest as (_ & Hl2 & _).
    assert (Hin : ptr s ∈ ptrs s) by (rewrite ptrs_unfold; by left).
    intros [H1 | H2]%elem_of_app.
    + apply (Hl1 _ H1). apply elem_of_app. by left.
    + by apply (Hl2 _ Hin).
Qed.

Lemma removeNodes_cuts_the_subtree_witness :
  let div := elem 4 "div" [mkAttr "id" "sidebar"] [elem 5 "p" [] [text 6 "An advertisement"]] in
  wf sidebarTree /\
  div ∈ descendants sidebarTree /\
  is_Some (Parent sidebarTree div) /\
  ptrs sidebarTree = [0; 1; 2; 3; 4; 5; 6; 7; 8; 9]%nat /\
  ptrs (removeNodes sidebarTree div) = [0; 1; 2; 3; 7; 8; 9]%nat /\
  ptr div ∉ ptrs (removeNodes sidebarTree div).
Proof.
  intros div.
  assert (Hwf : wf sidebarTree) by (apply wf_by_computation; vm_compute; reflexivity).
  assert (Hin : div ∈ descendants sidebarTree).
  { apply list_elem_of_In. vm_compute. do 3 right. by left. }
  assert (Hpar : is_Some (Parent sidebarTree div)) by (vm_compute; by eexists).
  split; [exact Hwf |]. split; [exact Hin |]. split; [exact Hpar |].
  split; [vm_compute; reflexivity |]. split; [vm_compute; reflexivity |].
  destruct (removeNodes_cuts_the_subtree sidebarTree div Hwf) as (_ & _ & Hcut & _).
  destruct (Hcut Hin Hpar) as (l1 & l2 & _ & _ & Hgone). exact Hgone.
Defined.

(** [replaceNodeWithChildren] on a node of a well-formed tree other than
    the root: the node leaves, its children stay where it was, in their
    order, with all below them; when the node is not a text node the text
    of the document is the same. *)
Theorem replaceNodeWithChildren_lifts_children (doc s : Node) :
  wf doc -> s ∈ descendants doc ->
  (exists l1 l2,
     ptrs doc = l1 ++ ptr s :: flat_map ptrs (children s) ++ l2 /\
     ptrs (replaceNodeWithChildren doc s) = l1 ++ flat_map ptrs (children s) ++ l2) /\
  (Type_ s <> TextNode -> Text (replaceNodeWithChildren doc s) = Text doc) /\
  wf (replaceNodeWithChildren doc s).
Proof.
  intros Hwf Hs. destruct (lookup_with_parent_self doc s Hwf Hs) as [par Hl].
  destruct (rewrite_at_segment (ptr s) (fun _ c => children c) doc par s Hwf Hl)
    as (l1 & l2 & E1 & E2 & _).
  rewrite (ptrs_unfold s) in E1.
  split; [by exists l1, l2 |]. split.
  - intros Ht. apply rewrite_at_Text. intros c Hc Hptr _.
    assert (c = s) as ->
      by (by apply (NoDup_map_inj ptr (descendants doc)); [apply wf_descendants_NoDup | | |]).
    rewrite (Text_unfold s). by case_bool_decide.
  - unfold wf, replaceNodeWithChildren. rewrite E2.
    unfold wf in Hwf. rewrite E1 in Hwf.
    apply NoDup_app in Hwf as (Hl1 & Hdisj & Hrest).
    apply NoDup_cons in Hrest as [Hs' Hrest].
    apply NoDup_app. split; [done |]. split; [| done].
    intros x Hx Hx'. apply (Hdisj x Hx). by right.
Qed.

Lemma replaceNodeWithChildren_lifts_children_witness :
  let b := elem 1 "b" [] [text 2 "bold"; text 3 " text"] in
  let doc := elem 0 "p" [] [b; text 4 "."] in
  wf doc /\ b ∈ descendants doc /\
  replaceNodeWithChildren doc b = elem 0 "p" [] [text 2 "bold"; text 3 " text"; text 4 "."] /\
  Text (replaceNodeWithChildren doc b) = Text doc.
Proof.
  intros b doc.
  assert (Hwf : wf doc) by (apply wf_by_computation; vm_compute; reflexivity).
  assert (Hin : b ∈ descendants doc) by (apply list_elem_of_In; vm_compute; by left).
  split; [exact Hwf |]. split; [exact Hin |]. split; [vm_compute; reflexivity |].
  destruct (replaceNodeWithChildren_lifts_children doc b Hwf Hin) as (_ & HText & _).
  apply HText. discriminate.
Defined.

(** ** What the flattening leaves below the body *)

Lemma descendants_forest (ks : list Node) (x : Node) :
  x ∈ flat_map (fun k => k :: descendants k) ks <->
  exists k, k ∈ ks /\ (x = k \/ x ∈ descendants k).
Proof.
  rewrite list_elem_of_In, in_flat_map. split.
  - intros (k & Hk & Hx). exists k. split; [by apply list_elem_of_In |].
    apply list_elem_of_In in Hx. apply elem_of_cons in Hx. by destruct Hx; [left | right].
  - intros (k & Hk & Hx). exists k. split; [by apply list_elem_of_In |].
    apply list_elem_of_In. apply elem_of_cons. by destruct Hx; [left | right].
Qed.





(** ** The retry loop, as its statements are written *)

(** Take stages that leave the flags, [RetryLength], the stored text and
    the input alone, and an [initializeHtml] that returns.  Then a call of
    [Content] ends within four nested calls, one for the first run and one
    for each flag that is on.  A run whose text is long enough, or that finds
    the three flags off, is taken at once and stored.  After a run that is
    too short the first flag still on among [RemoveUnlikelyCandidates],
    [WeightClasses], [CleanConditionally] is turned off, that one only, the
    tree is built again from the input and the call is made again. *)
Theorem retry_loop_returns_within_four_calls
    (prepareCandidates_ : Document -> option Document)
    (getArticle_ : Document -> string)
    (sanitize_ : Document -> string -> string * Document)
    (initializeHtml_ : Document -> string -> outcome (string + Document))
    (length_ : string -> Z) :
  let Content_ :=
    ContentWithRetry prepareCandidates_ getArticle_ sanitize_ initializeHtml_ length_ in
  let run_ := runPipeline prepareCandidates_ getArticle_ sanitize_ in
  (forall d d', prepareCandidates_ d = Some d' -> sameSettings d d') ->
  (forall d a, sameSettings d (snd (sanitize_ d a))) ->
  (forall d s d', initializeHtml_ d s = Done (inr d') -> sameSettings d d') ->
  (forall d s, initializeHtml_ d s <> OutOfFuel) ->
  forall d,
    Content_ 4%nat d <> OutOfFuel /\
    (forall fuel, (flagsOn d < fuel)%nat -> Content_ fuel d <> OutOfFuel) /\
    (forall fuel a d1,
       content d = "" -> run_ d = Some (a, d1) ->
       (RetryLength d1 <= length_ a)%Z \/ flagsOn d = 0%nat ->
       Content_ (S fuel) d = Done (a, setContent a d1)) /\
    (forall fuel a d1 d2 d3,
       content d = "" -> run_ d = Some (a, d1) ->
       (length_ a < RetryLength d1)%Z ->
       relaxFlag d1 = Some d2 ->
       reinitialize initializeHtml_ d2 = Done d3 ->
       S (flagsOn d3) = flagsOn d /\ input d3 = input d /\
       d2 = match RemoveUnlikelyCandidates d1, WeightClasses d1 with
            | true, w => setFlags false w (CleanConditionally d1) d1
            | false, true => setFlags false false (CleanConditionally d1) d1
            | false, false => setFlags false false false d1
            end /\
       Content_ (S fuel) d
       = match Content_ fuel d3 with
         | Done (a', d4) => Done (a', setContent a' d4)
         | r => r
         end).
Proof.
  intros Content_ run_ Hprep Hsan Hinit Hret d.
  split; [by apply ContentWithRetry_four_calls |].
  split; [intros fuel; by apply ContentWithRetry_returns |].
  split.
  - intros fuel a d1 Hc Hrun [Hlong | Hoff].
    + unfold Content_. rewrite ContentWithRetry_runs by done.
      unfold contentBody. fold run_. rewrite Hrun.
      destruct (Z.ltb_spec (length_ a) (RetryLength d1)); [lia | done].
    + by apply ContentWithRetry_flags_off.
  - intros fuel a d1 d2 d3 Hc Hrun Hshort Hrelax Hre.
    pose proof (runPipeline_settings _ _ _ Hprep Hsan _ _ _ Hrun) as Hs1.
    pose proof (reinitialize_settings _ Hinit _ _ Hre) as Hs3.
    destruct (relaxFlag_Some _ _ Hrelax) as (Hf & _ & _ & Hi & _).
    split; [by rewrite (sameSettings_flagsOn _ _ Hs3), Hf, (sameSettings_flagsOn _ _ Hs1) |].
    split.
    { destruct Hs1 as (_ & _ & _ & _ & _ & <-), Hs3 as (_ & _ & _ & _ & _ & ->). done. }
    split.
    { rewrite relaxFlag_order in Hrelax.
      destruct (RemoveUnlikelyCandidates d1), (WeightClasses d1), (CleanConditionally d1);
        by inversion Hrelax. }
    unfold Content_. rewrite ContentWithRetry_runs by done.
    unfold contentBody. fold run_. rewrite Hrun.
    destruct (Z.ltb_spec (length_ a) (RetryLength d1)); [| lia].
    by rewrite Hrelax, Hre.
Qed.

Lemma retry_loop_returns_within_four_calls_witness :
  let E := exampleExternals noBodyTable in
  let d := exampleDocument placeholderTree in
  ContentWithRetry prepareCandidates getArticle sanitize (initializeHtml 2)
    (fun s => Z.of_nat (String.length s)) 4 d <> OutOfFuel /\
  ContentWithRetry prepareCandidates getArticle sanitize (initializeHtml 2)
    (fun s => Z.of_nat (String.length s)) 3 d = OutOfFuel.
Proof.
  intros E d. split; [| vm_compute; reflexivity].
  assert (Hret : forall d0 s, initializeHtml 2 d0 s <> OutOfFuel).
  { intros d0 s.
    apply (initializeHtml_returns placeholderTree (elem 3 "body" [] []) []);
      [reflexivity | vm_compute; reflexivity]. }
  destruct (retry_loop_returns_within_four_calls prepareCandidates getArticle sanitize
              (initializeHtml 2) (fun s => Z.of_nat (String.length s))
              (@prepareCandidates_settings E) (@sanitize_settings E)
              (fun d0 s d' => @initializeHtml_settings E 2 d0 d' s) Hret d) as [Hfour _].
  exact Hfour.
Defined.

(** ** Removals that last *)

Lemma prunedF_elem (R : Node -> Node -> Prop) (ks ms : list Node) (c : Node) :
  prunedF R ks ms -> c ∈ ms -> exists c0, c0 ∈ ks /\ R c0 c.
Proof.
  induction 1 as [|k ks ms H IH|k m ks ms Hkm H IH].
  - by intros ?%elem_of_nil.
  - intros Hc. destruct (IH Hc) as (c0 & Hc0 & HR). exists c0. split; [by right | done].
  - intros [-> | Hc]%elem_of_cons.
    + exists k. split; [by left | done].
    + destruct (IH Hc) as (c0 & Hc0 & HR). exists c0. split; [by right | done].
Qed.

Lemma pruned_children (n m c : Node) :
  pruned n m -> c ∈ children m -> exists c0, c0 ∈ children n /\ pruned c0 c.
Proof. destruct 1 as [p t d a ks ms Hks]. cbn [children]. by apply prunedF_elem. Qed.

Lemma child_descendant (n c : Node) : c ∈ children n -> c ∈ descendants n.
Proof.
  intros Hc. rewrite descendants_unfold. apply descendants_forest. exists c. by split; [| left].
Qed.

Lemma descendant_ptr (n c : Node) : c ∈ descendants n -> ptr c ∈ ptrs n.
Proof.
  intros Hc. rewrite ptrs_descendants. right. apply list_elem_of_fmap. by exists c.
Qed.

Lemma lookup_with_parent_absent (p : nat) (n : Node) :
  p ∉ ptrs n -> lookup_with_parent p n = None.
Proof.
  intros Hp. destruct (lookup_with_parent p n) as [[par c]|] eqn:Hl; [| done].
  exfalso. apply Hp. rewrite ptrs_descendants. right.
  by apply (lookup_with_parent_ptrs _ _ par c).
Qed.

Lemma lookup_forest_child (nn : Node) (ks : list Node) (par c : Node) :
  Forall (fun n => forall par c,
            wf n -> par = n \/ par ∈ descendants n -> c ∈ children par ->
            lookup_with_parent (ptr c) n = Some (par, c)) ks ->
  NoDup (flat_map ptrs ks) ->
  (par = nn /\ c ∈ ks) \/
  (c ∈ children par /\ exists k, k ∈ ks /\ (par = k \/ par ∈ descendants k)) ->
  (fix go (cs : list Node) : option (Node * Node) :=
     match cs with
     | [] => None
     | c0 :: cs' =>
         if (ptr c0 =? ptr c)%nat then Some (nn, c0)
         else match lookup_with_parent (ptr c) c0 with
              | Some r => Some r
              | None => go cs'
              end
     end) ks = Some (par, c).
Proof.
  induction ks as [|k ks IHks]; intros IH Hks Hcase.
  { destruct Hcase as [[_ Hc] | (_ & k & Hk & _)]; by apply elem_of_nil in Hc || apply elem_of_nil in Hk. }
  apply Forall_cons in IH as [IHk IH].
  apply NoDup_forest_cons in Hks as (Hk & Hks & Hdisj).
  assert (Hskip : ptr c ∈ flat_map ptrs ks ->
            (ptr k =? ptr c)%nat = false /\ lookup_with_parent (ptr c) k = None).
  { intros Hin. assert (Hnot : ptr c ∉ ptrs k) by (intros Hc; by apply (Hdisj _ Hc)).
    split; [| by apply lookup_with_parent_absent].
    apply Nat.eqb_neq. intros Heq. apply Hnot. rewrite <-Heq, ptrs_unfold. by left. }
  assert (Hin_forest : forall x k0, k0 ∈ ks -> x ∈ ptrs k0 -> x ∈ flat_map ptrs ks).
  { intros x k0 Hk0 Hx. apply list_elem_of_In, in_flat_map. exists k0.
    split; by apply list_elem_of_In. }
  destruct Hcase as [[-> Hc] | (Hc & k0 & Hk0 & Hpar)].
  - apply elem_of_cons in Hc as [-> | Hc]; [by rewrite Nat.eqb_refl |].
    destruct Hskip as [-> ->].
    { apply (Hin_forest _ c Hc). rewrite ptrs_unfold. by left. }
    apply IHks; [done | done |]. left. done.
  - assert (Hcd : c ∈ descendants k0).
    { destruct Hpar as [-> | Hpar]; [by apply child_descendant |].
      apply (descendants_trans _ par); [done | by apply child_descendant]. }
    apply elem_of_cons in Hk0 as [-> | Hk0].
    + assert (Hne : (ptr k =? ptr c)%nat = false).
      { apply Nat.eqb_neq. intros Heq. unfold wf in Hk. rewrite ptrs_descendants in Hk.
        apply NoDup_cons in Hk as [Hk _]. apply Hk. rewrite Heq.
        apply list_elem_of_fmap. by exists c. }
      rewrite Hne. by rewrite (IHk par c Hk Hpar Hc).
    + destruct Hskip as [-> ->].
      { apply (Hin_forest _ k0 Hk0). by apply descendant_ptr. }
      apply IHks; [done | done |]. right. split; [done |]. by exists k0.
Qed.

(** In a well-formed tree the search by address finds a child under its
    own parent. *)
Lemma lookup_with_parent_child (n par c : Node) :
  wf n -> par = n \/ par ∈ descendants n -> c ∈ children par ->
  lookup_with_parent (ptr c) n = Some (par, c).
Proof.
  revert par c. induction n as [q t d a ks IH] using Node_forall_ind.
  intros par c Hwf Hpar Hc.
  unfold wf in Hwf. rewrite ptrs_unfold in Hwf. cbn [ptr children] in Hwf.
  apply NoDup_cons in Hwf as [_ Hks].
  apply (lookup_forest_child (mkNode q t d a ks) ks par c IH Hks).
  destruct Hpar as [-> | Hpar]; [by left |].
  right. split; [done |].
  rewrite descendants_unfold in Hpar. cbn [children] in Hpar.
  by apply descendants_forest in Hpar.
Qed.

(** The parent of a node of a pruned tree is what is left of the parent it
    had. *)
Lemma pruned_lookup (n m par c : Node) (p : nat) :
  wf n -> pruned n m ->
  lookup_with_parent p m = Some (par, c) ->
  exists par0 c0,
    lookup_with_parent p n = Some (par0, c0) /\ pruned par0 par /\ pruned c0 c.
Proof.
  intros Hwf Hp Hl.
  destruct (lookup_with_parent_Some _ _ _ _ Hl) as (Hpar & Hc & <-).
  assert (exists par0, (par0 = n \/ par0 ∈ descendants n) /\ pruned par0 par)
    as (par0 & Hpar0 & Hpp).
  { destruct Hpar as [-> | Hpar]; [exists n; by split; [left |] |].
    destruct (pruned_descendants _ _ _ Hp Hpar) as (par0 & ? & ?).
    exists par0. by split; [right |]. }
  destruct (pruned_children _ _ _ Hpp Hc) as (c0 & Hc0 & Hcc).
  exists par0, c0. split; [| done].
  destruct (pruned_fields _ _ Hcc) as (-> & _).
  by apply lookup_with_parent_child.
Qed.

Lemma removeNodes_gone (doc s : Node) :
  wf doc -> s ∈ descendants doc -> is_Some (Parent doc s) ->
  ptr s ∉ ptrs (removeNodes doc s).
Proof.
  intros Hwf Hs Hpar. destruct (lookup_with_parent_self doc s Hwf Hs) as [par Hl].
  destruct (rewrite_at_segment (ptr s) (fun pe c => if pe then [] else [c]) doc par s Hwf Hl)
    as (l1 & l2 & E1 & E2 & _).
  unfold Parent in Hpar. rewrite Hl in Hpar.
  destruct (is_element par); [| by destruct Hpar]. simpl in E2.
  unfold removeNodes. rewrite E2.
  unfold wf in Hwf. rewrite E1 in Hwf.
  apply NoDup_app in Hwf as (_ & Hl1 & Hrest).
  apply NoDup_app in Hrest as (_ & Hl2 & _).
  assert (Hin : ptr s ∈ ptrs s) by (rewrite ptrs_unfold; by left).
  intros [H1 | H2]%elem_of_app.
  - apply (Hl1 _ H1). apply elem_of_app. by left.
  - by apply (Hl2 _ Hin).
Qed.

(** A node under an element is gone once [removeNodes] has been called on
    it, whatever has been pruned from the tree before. *)
Lemma removeNodes_in_pruned (doc0 doc s : Node) :
  wf doc0 -> s ∈ descendants doc0 -> is_Some (Parent doc0 s) ->
  pruned doc0 doc -> ptr s ∉ ptrs (removeNodes doc s).
Proof.
  intros Hwf Hs Hpar Hp.
  destruct (decide (ptr s ∈ ptrs doc)) as [Hin | Hout].
  2:{ unfold removeNodes. by rewrite rewrite_at_absent. }
  assert (Hwf' : wf doc) by (by apply (pruned_wf doc0)).
  assert (Hne : ptr s <> ptr doc).
  { destruct (pruned_fields _ _ Hp) as (-> & _). intros Heq.
    unfold wf in Hwf. rewrite ptrs_descendants in Hwf. apply NoDup_cons in Hwf as [Hq _].
    apply Hq. rewrite <-Heq. apply list_elem_of_fmap. by exists s. }
  rewrite ptrs_descendants in Hin. apply elem_of_cons in Hin as [? | Hin]; [done |].
  apply list_elem_of_fmap in Hin as (c & Hptr & Hc).
  destruct (lookup_with_parent_self doc c Hwf' Hc) as [par Hl].
  destruct (pruned_lookup _ _ _ _ _ Hwf Hp Hl) as (par0 & c0 & Hl0 & Hpp & _).
  assert (Hsome : is_Some (Parent doc c)).
  { unfold Parent in *. rewrite Hl. rewrite Hptr, Hl0 in Hpar.
    destruct (pruned_fields _ _ Hpp) as (_ & Ht & _).
    unfold is_element in *. rewrite Ht. by destruct (bool_decide _). }
  pose proof (removeNodes_gone doc c Hwf' Hc Hsome) as Hgone.
  unfold removeNodes in *. by rewrite Hptr.
Qed.

Lemma fold_pruned_removes {A} (f : Node -> A -> Node) (l : list A) (doc0 : Node)
    (a : A) (p : nat) :
  (forall doc x, pruned doc (f doc x)) ->
  a ∈ l ->
  (forall doc, pruned doc0 doc -> p ∉ ptrs (f doc a)) ->
  p ∉ ptrs (fold_left f l doc0).
Proof.
  intros Hf Ha Hgone.
  apply list_elem_of_In, in_split in Ha as (l1 & l2 & ->).
  rewrite fold_left_app. simpl.
  assert (Hp1 : pruned doc0 (fold_left f l1 doc0)) by (by apply fold_left_pruned).
  pose proof (Hgone _ Hp1) as Hout.
  assert (Hp2 : pruned (f (fold_left f l1 doc0) a)
                  (fold_left f l2 (f (fold_left f l1 doc0) a)))
    by (by apply fold_left_pruned).
  intros Hin. apply Hout. by apply (elem_of_sublist _ _ _ Hin (pruned_ptrs _ _ Hp2)).
Qed.

Lemma uniq_elem (seen : list nat) (l : list Node) (x : Node) :
  x ∈ l -> ptr x ∉ seen -> exists x', x' ∈ uniq seen l /\ x' ∈ l /\ ptr x' = ptr x.
Proof.
  revert seen. induction l as [|y l IH]; intros seen Hx Hseen; [by apply elem_of_nil in Hx |].
  simpl. case_bool_decide as Hy.
  - apply elem_of_cons in Hx as [-> | Hx]; [done |].
    destruct (IH seen Hx Hseen) as (x' & ? & ? & ?). exists x'.
    split; [done |]. split; [by right | done].
  - destruct (decide (ptr x = ptr y)) as [Heq | Hne].
    + exists y. split; [by left |]. split; [by left | done].
    + apply elem_of_cons in Hx as [-> | Hx]; [done |].
      destruct (IH (ptr y :: seen) Hx) as (x' & ? & ? & ?).
      { by intros [? | ?]%elem_of_cons. }
      exists x'. split; [by right |]. split; [by right | done].
Qed.

Lemma elementNeedsRemoval_spec (s : Node) :
  elementNeedsRemoval s = bool_decide (NodeName s ∈ nonContentTags).
Proof.
  unfold elementNeedsRemoval, inArr. apply eq_true_iff_eq.
  rewrite existsb_exists, bool_decide_eq_true. split.
  - intros (x & Hx & ->%String.eqb_eq). by apply list_elem_of_In.
  - intros Hs. exists (NodeName s). split; [by apply list_elem_of_In | apply String.eqb_refl].
Qed.

Lemma uniq_elem_wf (doc : Node) (l : list Node) (x : Node) :
  wf doc -> (forall y, y ∈ l -> y ∈ descendants doc) -> x ∈ l -> x ∈ uniq [] l.
Proof.
  intros Hwf Hl Hx. destruct (uniq_elem [] l x Hx) as (x' & Hu & Hx' & Hptr).
  { by intros ?%elem_of_nil. }
  assert (x' = x) as <-; [| done].
  by apply (NoDup_map_inj ptr (descendants doc)); [apply wf_descendants_NoDup | apply Hl | apply Hl |].
Qed.

Lemma uniq_subset (seen : list nat) (l : list Node) (x : Node) : x ∈ uniq seen l -> x ∈ l.
Proof.
  revert seen. induction l as [|y l IH]; intros seen; simpl; [done |].
  case_bool_decide.
  - intros ?%IH. by right.
  - intros [-> | ?%IH]%elem_of_cons; [by left | by right].
Qed.

Lemma pruned_matches (sl : Selector) (n m : Node) : pruned n m -> matches sl m = matches sl n.
Proof. by destruct 1. Qed.

Lemma pruned_Find (sl : Selector) (n m x : Node) :
  pruned n m -> x ∈ Find sl m -> exists x0, x0 ∈ Find sl n /\ pruned x0 x.
Proof.
  intros Hp [Hx Hm]%Find_descendant.
  destruct (pruned_descendants _ _ _ Hp Hx) as (x0 & Hx0 & Hxx).
  exists x0. split; [| done]. unfold Find. apply list_elem_of_filter.
  split; [| done]. by rewrite <-(pruned_matches sl _ _ Hxx).
Qed.

Lemma pruned_Children (n m c : Node) :
  pruned n m -> c ∈ Children m -> exists c0, c0 ∈ Children n /\ pruned c0 c.
Proof.
  unfold Children. intros Hp [He Hc]%list_elem_of_filter.
  destruct (pruned_children _ _ _ Hp Hc) as (c0 & Hc0 & Hcc).
  exists c0. split; [| done]. apply list_elem_of_filter. split; [| done].
  destruct (pruned_fields _ _ Hcc) as (_ & Ht & _). unfold is_element in *. by rewrite <-Ht.
Qed.

Lemma Children_Parent (doc par c : Node) :
  wf doc -> par = doc \/ par ∈ descendants doc -> is_element par = true ->
  c ∈ Children par -> c ∈ descendants doc /\ is_Some (Parent doc c).
Proof.
  intros Hwf Hpar He [_ Hc]%list_elem_of_filter. split.
  - destruct Hpar as [-> | Hpar]; [by apply child_descendant |].
    apply (descendants_trans _ par); [done | by apply child_descendant].
  - unfold Parent. rewrite (lookup_with_parent_child doc par c) by done. by rewrite He.
Qed.

(** [Content], as it stands, on a well-formed document without stored
    text: in the tree it leaves, the element children of a head below an
    html element are title elements only, and no element child of a body is
    a meta, script, style, iframe, link or form. *)
Theorem Content_strips_head_and_body `{Externals} (d : Document) :
  wf (document d) -> content d = "" ->
  let doc' := document (snd (Content d)) in
  (forall html head c,
     html ∈ Find (Tags ["html"]) doc' -> head ∈ Find (Tags ["head"]) html ->
     c ∈ Children head -> Data c = "title") /\
  (forall body c,
     body ∈ Find (Tags ["body"]) doc' -> c ∈ Children body ->
     Data c ∉ nonContentTags).
Proof.
  intros Hwf Hc doc'.
  pose (doc1 := document (removeHeadChildren d)).
  assert (Hdoc' : doc' = fold_left rateElement
                           (uniq [] (flat_map Children (Find (Tags ["body"]) doc1))) doc1).
  { unfold doc'. by rewrite Content_unstored. }
  assert (Hp1 : pruned (document d) doc1) by apply fold_left_pruned, removeNodes_pruned.
  assert (Hp2 : pruned doc1 doc').
  { rewrite Hdoc'. apply fold_left_pruned, rateElement_pruned. }
  assert (Hwf1 : wf doc1) by (by apply (pruned_wf (document d))).
  split.
  - intros html head c Hhtml Hhead Hch.
    destruct (decide (Data c = "title")) as [| Hne]; [done | exfalso].
    destruct (pruned_Find _ _ _ _ (pruned_trans _ _ _ Hp1 Hp2) Hhtml) as (html0 & Hhtml0 & Hph).
    destruct (pruned_Find _ _ _ _ Hph Hhead) as (head0 & Hhead0 & Hpd).
    destruct (pruned_Children _ _ _ Hpd Hch) as (c0 & Hc0 & Hpc).
    destruct (pruned_fields _ _ Hpc) as (Hptr & _ & Hdata & _).
    apply Find_descendant in Hhtml as [Hhtml _]. apply Find_descendant in Hhead as [Hhead _].
    assert (Hcin : ptr c ∈ ptrs doc').
    { apply descendant_ptr, (descendants_trans _ html); [done |].
      apply (descendants_trans _ head); [done |].
      apply list_elem_of_filter in Hch as [_ Hch]. by apply child_descendant. }
    assert (Hhead0d : head0 ∈ descendants (document d)).
    { apply Find_descendant in Hhtml0 as [? _]. apply Find_descendant in Hhead0 as [? _].
      by apply (descendants_trans _ html0). }
    assert (Hhe : is_element head0 = true).
    { apply Find_descendant in Hhead0 as [_ Hm]. unfold matches in Hm.
      by apply andb_true_iff in Hm as [? _]. }
    destruct (Children_Parent (document d) head0 c0 Hwf (or_intror Hhead0d) Hhe Hc0)
      as [Hc0d Hc0p].
    pose proof (elem_of_sublist _ _ _ Hcin (pruned_ptrs _ _ Hp2)) as Hcin1.
    revert Hcin1. rewrite Hptr. unfold doc1, removeHeadChildren. cbn [document setDocument].
    apply (fold_pruned_removes removeNodes _ _ c0).
    + apply removeNodes_pruned.
    + apply list_elem_of_filter. split.
      { unfold matches. apply andb_false_iff. right. apply bool_decide_eq_false.
        intros Hin%list_elem_of_singleton. by rewrite Hdata in Hne. }
      apply (uniq_elem_wf (document d)); [done | |].
      { intros y (h & Hh & Hy)%list_elem_of_In%in_flat_map.
        apply list_elem_of_In in Hy. apply list_elem_of_filter in Hy as [_ Hy].
        apply list_elem_of_In, uniq_subset in Hh.
        apply list_elem_of_In, in_flat_map in Hh as (ht & Hht & Hh).
        apply list_elem_of_In, Find_descendant in Hht as [Hht _].
        apply list_elem_of_In, Find_descendant in Hh as [Hh _].
        apply (descendants_trans _ h); [| by apply child_descendant].
        by apply (descendants_trans _ ht). }
      apply list_elem_of_In, in_flat_map. exists head0. split; [| by apply list_elem_of_In].
      apply list_elem_of_In, (uniq_elem_wf (document d)); [done | |].
      { intros y (ht & Hht & Hy)%list_elem_of_In%in_flat_map.
        apply list_elem_of_In, Find_descendant in Hht as [Hht _].
        apply list_elem_of_In, Find_descendant in Hy as [Hy _].
        by apply (descendants_trans _ ht). }
      apply list_elem_of_In, in_flat_map. exists html0. split; by apply list_elem_of_In.
    + intros doc Hp. by apply (removeNodes_in_pruned (document d)).
  - intros body c Hbody Hch Hbad.
    destruct (pruned_Find _ _ _ _ Hp2 Hbody) as (body1 & Hbody1 & Hpb).
    destruct (pruned_Children _ _ _ Hpb Hch) as (c1 & Hc1 & Hpc).
    destruct (pruned_fields _ _ Hpc) as (Hptr & Htype & Hdata & _).
    assert (Hcin : ptr c ∈ ptrs doc').
    { apply Find_descendant in Hbody as [Hbody _].
      apply descendant_ptr, (descendants_trans _ body); [done |].
      apply list_elem_of_filter in Hch as [_ Hch]. by apply child_descendant. }
    assert (Hbe : is_element body1 = true).
    { apply Find_descendant in Hbody1 as [_ Hm]. unfold matches in Hm.
      by apply andb_true_iff in Hm as [? _]. }
    assert (Hb1d : body1 ∈ descendants doc1) by (by apply Find_descendant in Hbody1 as [? _]).
    destruct (Children_Parent doc1 body1 c1 Hwf1 (or_intror Hb1d) Hbe Hc1) as [Hc1d Hc1p].
    revert Hcin. rewrite Hdoc', Hptr.
    apply (fold_pruned_removes rateElement _ _ c1).
    + apply rateElement_pruned.
    + apply (uniq_elem_wf doc1); [done | |].
      { intros y (b & Hb & Hy)%list_elem_of_In%in_flat_map.
        apply list_elem_of_In, Find_descendant in Hb as [Hb _].
        apply list_elem_of_In in Hy. apply list_elem_of_filter in Hy as [_ Hy].
        apply (descendants_trans _ b); [done | by apply child_descendant]. }
      apply list_elem_of_In, in_flat_map. exists body1. split; by apply list_elem_of_In.
    + intros doc Hp. unfold rateElement.
      assert (Hrm : elementNeedsRemoval c1 = true).
      { rewrite elementNeedsRemoval_spec. apply bool_decide_eq_true.
        apply list_elem_of_filter in Hc1 as [He _].
        unfold NodeName, is_element in *. apply bool_decide_eq_true in He. rewrite He.
        by rewrite <-Hdata. }
      rewrite Hrm. by apply (removeNodes_in_pruned doc1).
Qed.

Lemma Content_strips_head_and_body_witness :
  let E := exampleExternals [] in
  let d := exampleDocument keptTree in
  wf (document d) /\ content d = "" /\
  document (snd (Content d))
  = mkNode 0 DocumentNode "" []
      [elem 1 "html" []
         [elem 2 "head" [] [elem 3 "title" [] [text 4 "t"]];
          elem 6 "body" []
            [elem 7 "div" [mkAttr "class" "content"]
               [text 8 "Thirty bytes of text, or more."]]]] /\
  forall body c,
    body ∈ Find (Tags ["body"]) (document (snd (Content d))) -> c ∈ Children body ->
    Data c ∉ nonContentTags.
Proof.
  intros E d.
  assert (Hwf : wf (document d)) by (apply wf_by_computation; vm_compute; reflexivity).
  assert (Hc : content d = "") by reflexivity.
  split; [exact Hwf |]. split; [exact Hc |]. split; [vm_compute; reflexivity |].
  exact (proj2 (Content_strips_head_and_body d Hwf Hc)).
Defined.

(** ** Texts *)

Lemma substring_all (s : string) (m : nat) :
  (String.length s <= m)%nat -> String.substring 0 m s = s.
Proof.
  revert m. induction s as [|c s IH]; intros m Hm; [by destruct m |].
  destruct m as [|m]; simpl in *; [lia |]. f_equal. apply IH. lia.
Qed.

Lemma substring_more (s : string) (n m : nat) :
  (String.length s <= n + m)%nat -> String.substring n m s = String.substring n (S m) s.
Proof.
  revert n m. induction s as [|c s IH]; intros n m Hm; [by destruct n, m |].
  destruct n as [|n]; cbn [String.substring String.length] in *.
  - destruct m as [|m]; [lia |]. f_equal. apply (IH 0%nat). simpl. lia.
  - apply IH. lia.
Qed.

Lemma prefix_split (old s : string) :
  String.prefix old s = true ->
  s = old +:+ String.substring (String.length old) (String.length s) s.
Proof.
  revert s. induction old as [|a old IH]; intros s.
  - intros _. rewrite substring_all by done. done.
  - destruct s as [|b s]; cbn [String.prefix]; [done |].
    destruct (ascii_dec a b) as [-> | ?]; [| done].
    intros Hp. cbn [String.length String.substring]. rewrite append_cons. f_equal.
    rewrite <-substring_more by lia. by apply IH.
Qed.

Lemma prefix_app (old s t : string) :
  String.prefix old s = true -> String.prefix old (s +:+ t) = true.
Proof.
  revert s. induction old as [|a old IH]; intros s.
  - by destruct (s +:+ t).
  - destruct s as [|b s]; cbn [String.prefix]; [done |]. rewrite append_cons.
    cbn [String.prefix]. destruct (ascii_dec a b); [apply IH | done].
Qed.

Lemma append_eq_nil (s1 s2 : string) : "" = s1 +:+ s2 -> s2 = "".
Proof. destruct s1; [done |]. by rewrite append_cons. Qed.

(** [strings.Replace(s, old, new, 1)]: a text without [old] is returned as
    it is; otherwise the first [old] of the text gives way to [new]. *)
Lemma replace_first_spec (old new s : string) :
  (Str.contains old s = false -> Str.replace_first old new s = s) /\
  (Str.contains old s = true ->
   exists pre post,
     s = pre +:+ old +:+ post /\
     Str.replace_first old new s = pre +:+ new +:+ post /\
     forall pre1 pre2, pre = pre1 +:+ pre2 -> pre2 <> "" ->
                       String.prefix old (pre2 +:+ old +:+ post) = false).
Proof.
  induction s as [|c s [IH1 IH2]]; cbn [Str.contains Str.replace_first].
  - destruct old as [|a old]; cbn [String.prefix orb]; [| done].
    split; [done |]. intros _. exists "", "". split; [done |]. split; [done |].
    intros pre1 pre2 Hpre%append_eq_nil. done.
  - destruct (String.prefix old (String c s)) eqn:Hp; cbn [orb].
    + split; [done |]. intros _.
      exists "", (String.substring (String.length old) (String.length (String c s)) (String c s)).
      split; [by apply prefix_split |]. split; [done |].
      intros pre1 pre2 Hpre%append_eq_nil. done.
    + split; [intros Hc; by rewrite IH1 |].
      intros Hc. destruct (IH2 Hc) as (pre & post & Hs & Hr & Hmin).
      exists (String c pre), post. rewrite Hr, !append_cons. split; [by rewrite Hs at 1 |].
      split; [done |]. intros [|a pre1] pre2.
      * change ("" +:+ pre2) with pre2. intros <- _. rewrite append_cons, <-Hs. done.
      * rewrite append_cons. intros [= <- ->]. by apply (Hmin pre1).
Qed.

(** [addTitle] leaves a text without [<head></head>] as it is; otherwise
    the first [<head></head>] of the text gives way to a head that holds the
    title, byte for byte as it is given, and the rest stays. *)
Theorem addTitle_fills_the_first_empty_head (title html : string) :
  (Str.contains "<head></head>" html = false -> addTitle title html = html) /\
  (Str.contains "<head></head>" html = true ->
   exists pre post,
     html = pre +:+ "<head></head>" +:+ post /\
     addTitle title html
     = pre +:+ ("<head><title>" +:+ title +:+ "</title></head>") +:+ post /\
     forall pre1 pre2, pre = pre1 +:+ pre2 -> pre2 <> "" ->
                       String.prefix "<head></head>" (pre2 +:+ "<head></head>" +:+ post) = false).
Proof. apply replace_first_spec. Qed.

Lemma addTitle_fills_the_first_empty_head_witness :
  Str.contains "<head></head>" "<html><head></head><body><head></head></body></html>" = true /\
  addTitle "T" "<html><head></head><body><head></head></body></html>"
  = "<html><head><title>T</title></head><body><head></head></body></html>" /\
  exists pre post,
    "<html><head></head><body><head></head></body></html>"
    = pre +:+ "<head></head>" +:+ post /\
    addTitle "T" "<html><head></head><body><head></head></body></html>"
    = pre +:+ ("<head><title>" +:+ "T" +:+ "</title></head>") +:+ post.
Proof.
  assert (Hc : Str.contains "<head></head>"
                 "<html><head></head><body><head></head></body></html>" = true)
    by reflexivity.
  split; [exact Hc |]. split; [reflexivity |].
  destruct (proj2 (addTitle_fills_the_first_empty_head "T"
                     "<html><head></head><body><head></head></body></html>") Hc)
    as (pre & post & Hs & Hr & _).
  exists pre, post. split; [exact Hs | exact Hr].
Defined.

(** *** The rewritings of [initializeHtml] on a text without tags *)

Lemma lower_ascii_lt (c : ascii) : Str.lower_ascii c = "<"%char -> c = "<"%char.
Proof. destruct c as [[] [] [] [] [] [] [] []]; vm_compute; congruence. Qed.

Lemma strip_prefix_ci_lt (w : string) (c : ascii) (s : string) :
  c <> "<"%char -> Str.strip_prefix_ci (String "<"%char w) (String c s) = None.
Proof.
  intros Hc. unfold Str.strip_prefix_ci.
  cbn [String.length String.substring Str.ToLower String.eqb].
  destruct (Ascii.eqb_spec (Str.lower_ascii c) "<"%char) as [Heq | Hne]; [| done].
  by apply lower_ascii_lt in Heq.
Qed.

Lemma br_unit_plain (s : string) : Str.Count s "<" = 0%nat -> Str.br_unit s = None.
Proof.
  unfold Str.br_unit. destruct s as [|c s]; [done |].
  cbn [Str.Count]. destruct (Ascii.eqb_spec c "<"%char) as [-> | Hc]; [done |].
  intros _. by rewrite strip_prefix_ci_lt.
Qed.

Lemma br_units_plain (fuel : nat) (s : string) :
  Str.Count s "<" = 0%nat -> Str.br_units fuel s = (0%nat, s).
Proof. intros Hs. destruct fuel; [done |]. simpl. by rewrite br_unit_plain. Qed.

Lemma replaceBrs_plain (fuel : nat) (s : string) :
  Str.Count s "<" = 0%nat -> Str.replaceBrs fuel s = s.
Proof.
  revert s. induction fuel as [|fuel IH]; intros s Hs; [done |].
  cbn [Str.replaceBrs]. rewrite br_units_plain by done. cbn [Nat.leb].
  destruct s as [|c s]; [done |]. f_equal. apply IH.
  cbn [Str.Count] in Hs. lia.
Qed.

Lemma font_tag_plain (c : ascii) (s : string) :
  c <> "<"%char -> Str.font_tag (String c s) = None.
Proof.
  intros Hc. unfold Str.font_tag.
  destruct c as [[] [] [] [] [] [] [] []]; try reflexivity. by destruct Hc.
Qed.

Lemma replaceFonts_plain (fuel : nat) (s : string) :
  Str.Count s "<" = 0%nat -> Str.replaceFonts fuel s = s.
Proof.
  revert s. induction fuel as [|fuel IH]; intros s Hs; [done |].
  destruct s as [|c s]; [done |].
  cbn [Str.Count] in Hs. destruct (Ascii.eqb_spec c "<"%char) as [-> | Hc]; [done |].
  cbn [Str.replaceFonts]. rewrite font_tag_plain by done. f_equal. by apply IH.
Qed.

Lemma stripComment_plain (fuel : nat) (s : string) :
  Str.Count s "<" = 0%nat -> Str.stripComment fuel s = s.
Proof.
  revert s. induction fuel as [|fuel IH]; intros s Hs; [done |].
  destruct s as [|c s]; [done |].
  cbn [Str.Count] in Hs. destruct (Ascii.eqb_spec c "<"%char) as [-> | Hc]; [done |].
  cbn [Str.stripComment String.prefix].
  destruct (ascii_dec "<" c) as [<- | _]; [done |]. f_equal. by apply IH.
Qed.

(** A text without [<] reaches the parser as it is: none of the three
    rewritings of [initializeHtml] touches it. *)
Theorem preprocess_leaves_plain_text (s : string) :
  Str.Count s "<" = 0%nat -> preprocess s = s.
Proof.
  intros Hs. unfold preprocess.
  by rewrite replaceBrs_plain, replaceFonts_plain, stripComment_plain.
Qed.

Lemma preprocess_leaves_plain_text_witness :
  Str.Count "Plain words -- no markup > here." "<" = 0%nat /\
  preprocess "Plain words -- no markup > here." = "Plain words -- no markup > here.".
Proof.
  assert (Hs : Str.Count "Plain words -- no markup > here." "<" = 0%nat) by reflexivity.
  split; [exact Hs |]. exact (preprocess_leaves_plain_text _ Hs).
Defined.

(** *** The bytes [sanitizeWhitespace] lets through *)

Lemma chars_app (s1 s2 : string) :
  list_ascii_of_string (s1 +:+ s2) = list_ascii_of_string s1 ++ list_ascii_of_string s2.
Proof. induction s1 as [|c s1 IH]; [done |]. rewrite append_cons. simpl. by rewrite IH. Qed.

Lemma replace_runs_chars (cls : ascii -> bool) (rep : string) (in_run : bool) (s : string)
    (c : ascii) :
  c ∈ list_ascii_of_string (Str.replace_runs cls rep in_run s) ->
  (c ∈ list_ascii_of_string s /\ cls c = false) \/ c ∈ list_ascii_of_string rep.
Proof.
  revert in_run. induction s as [|a s IH]; intros in_run; cbn [Str.replace_runs].
  - by intros ?%elem_of_nil.
  - destruct (cls a) eqn:Ha.
    + rewrite chars_app. intros [Hc | Hc]%elem_of_app.
      * destruct in_run; [by apply elem_of_nil in Hc | by right].
      * destruct (IH _ Hc) as [[? ?] | ?]; [left | by right]. split; [by right | done].
    + cbn [list_ascii_of_string]. intros [-> | Hc]%elem_of_cons.
      * left. split; [by left | done].
      * destruct (IH _ Hc) as [[? ?] | ?]; [left | by right]. split; [by right | done].
Qed.

Lemma replace_word_runs_chars (w rep : string) (skip : nat) (in_run : bool) (s : string)
    (c : ascii) :
  c ∈ list_ascii_of_string (Str.replace_word_runs w rep skip in_run s) ->
  c ∈ list_ascii_of_string s \/ c ∈ list_ascii_of_string rep.
Proof.
  revert skip in_run. induction s as [|a s IH]; intros skip in_run;
    cbn [Str.replace_word_runs].
  - by intros ?%elem_of_nil.
  - destruct skip as [|k].
    + destruct (String.prefix w (String a s)).
      * rewrite chars_app. intros [Hc | Hc]%elem_of_app.
        -- destruct in_run; [by apply elem_of_nil in Hc | by right].
        -- destruct (IH _ _ Hc) as [? | ?]; [left; by right | by right].
      * cbn [list_ascii_of_string]. intros [-> | Hc]%elem_of_cons; [left; by left |].
        destruct (IH _ _ Hc) as [? | ?]; [left; by right | by right].
    + intros Hc. destruct (IH _ _ Hc) as [? | ?]; [left; by right | by right].
Qed.

Lemma trim_left_subset (fuel : nat) (rev : bool) (l : list nat) (x : nat) :
  x ∈ Str.trim_left fuel rev l -> x ∈ l.
Proof.
  revert l. induction fuel as [|fuel IH]; intros l; [done |].
  cbn [Str.trim_left]. destruct (Str.space_rune rev l) as [|n]; [done |].
  intros Hx%IH. apply (elem_of_sublist _ _ _ Hx), sublist_drop.
Qed.

Lemma TrimSpace_chars (s : string) (c : ascii) :
  c ∈ list_ascii_of_string (Str.TrimSpace s) -> c ∈ list_ascii_of_string s.
Proof.
  unfold Str.TrimSpace, Str.of_codes, Str.codes.
  rewrite list_ascii_of_string_of_list_ascii.
  intros (x & -> & Hx)%list_elem_of_fmap.
  apply elem_of_reverse, trim_left_subset, elem_of_reverse, trim_left_subset in Hx.
  apply list_elem_of_fmap in Hx as (c0 & -> & Hc0).
  by rewrite ascii_nat_embedding.
Qed.

(** Every byte of what [sanitizeWhitespace] returns is a space, a line
    feed, or a byte of the text it was given that is neither a blank nor a
    line end: the result holds no tab, no carriage return and no form
    feed. *)
Theorem sanitizeWhitespace_bytes (text : string) (c : ascii) :
  c ∈ list_ascii_of_string (sanitizeWhitespace text) ->
  (c = " "%char \/ c = Ascii.ascii_of_nat 10 \/
   (c ∈ list_ascii_of_string text /\
    Ascii.nat_of_ascii c ∉ [9; 32; 10; 12; 13]%nat)) /\
  Ascii.nat_of_ascii c ∉ [9; 12; 13]%nat.
Proof.
  unfold sanitizeWhitespace. intros Hc%TrimSpace_chars.
  assert (Hcases : c = " "%char \/ c = Ascii.ascii_of_nat 10 \/
            (c ∈ list_ascii_of_string text /\
             Ascii.nat_of_ascii c ∉ [9; 32; 10; 12; 13]%nat)).
  { apply replace_runs_chars in Hc as [[Hc Heol] | Hc].
    2:{ right. left. by apply list_elem_of_singleton in Hc. }
    apply replace_runs_chars in Hc as [[Hc Hblank] | Hc].
    2:{ left. by apply list_elem_of_singleton in Hc. }
    apply replace_word_runs_chars in Hc as [Hc | Hc].
    2:{ left. by apply list_elem_of_singleton in Hc. }
    right. right. split; [done |].
    apply orb_false_iff in Hblank as [H9 H32].
    apply orb_false_iff in Heol as [Heol H12]. apply orb_false_iff in Heol as [H13 H10].
    apply Nat.eqb_neq in H9, H32, H13, H10, H12.
    intros Hin. repeat (apply elem_of_cons in Hin as [? | Hin]; [done |]).
    by apply elem_of_nil in Hin. }
  split; [done |].
  destruct Hcases as [-> | [-> | [_ Hn]]].
  - intros Hin. repeat (apply elem_of_cons in Hin as [? | Hin]; [done |]).
    by apply elem_of_nil in Hin.
  - intros Hin. repeat (apply elem_of_cons in Hin as [? | Hin]; [done |]).
    by apply elem_of_nil in Hin.
  - intros Hin. apply Hn.
    repeat (apply elem_of_cons in Hin as [-> | Hin]; [set_solver |]).
    by apply elem_of_nil in Hin.
Qed.

Lemma sanitizeWhitespace_bytes_witness :
  sanitizeWhitespace (String (Ascii.ascii_of_nat 9) "a&nbsp;&nbsp;b"
                      +:+ String (Ascii.ascii_of_nat 13) (String (Ascii.ascii_of_nat 10) "c  "))
  = "a b" +:+ String (Ascii.ascii_of_nat 10) "c" /\
  Ascii.nat_of_ascii "a" ∉ [9; 12; 13]%nat.
Proof.
  split; [vm_compute; reflexivity |].
  apply (sanitizeWhitespace_bytes
           (String (Ascii.ascii_of_nat 9) "a&nbsp;&nbsp;b"
            +:+ String (Ascii.ascii_of_nat 13) (String (Ascii.ascii_of_nat 10) "c  "))).
  apply list_elem_of_In. vm_compute. by left.
Defined.

(** ** The score of [rateElements] *)




(** ** What a conditional removal can take *)

(** A node that [removeNodes] takes out of a pruned tree lies in the
    subtree of the node it was called on. *)
Lemma removeNodes_takes (doc0 doc e : Node) (p : nat) :
  wf doc0 -> pruned doc0 doc -> e ∈ descendants doc0 ->
  p ∈ ptrs doc -> p ∉ ptrs (removeNodes doc e) -> p ∈ ptrs e.
Proof.
  intros Hwf Hp He Hin Hout.
  destruct (decide (ptr e ∈ ptrs doc)) as [Hein | Heout].
  2:{ unfold removeNodes in Hout. by rewrite rewrite_at_absent in Hout. }
  assert (Hwf' : wf doc) by (by apply (pruned_wf doc0)).
  assert (Hne : ptr e <> ptr doc).
  { destruct (pruned_fields _ _ Hp) as (-> & _). intros Heq.
    unfold wf in Hwf. rewrite ptrs_descendants in Hwf. apply NoDup_cons in Hwf as [Hq _].
    apply Hq. rewrite <-Heq. apply list_elem_of_fmap. by exists e. }
  rewrite ptrs_descendants in Hein. apply elem_of_cons in Hein as [? | Hein]; [done |].
  apply list_elem_of_fmap in Hein as (c & Hptr & Hc).
  destruct (lookup_with_parent_self doc c Hwf' Hc) as [par Hl].
  destruct (pruned_lookup _ _ _ _ _ Hwf Hp Hl) as (par0 & c0 & Hl0 & _ & Hpc).
  destruct (lookup_with_parent_self doc0 e Hwf He) as [par1 Hl1].
  rewrite <-Hptr, Hl1 in Hl0. assert (c0 = e) as -> by congruence.
  destruct (rewrite_at_segment (ptr c) (fun pe x => if pe then [] else [x]) doc par c Hwf' Hl)
    as (l1 & l2 & E1 & E2 & _).
  unfold removeNodes in Hout. rewrite Hptr in Hout. cbv beta in E2.
  rewrite E2 in Hout. rewrite E1 in Hin.
  assert (Hpc' : p ∈ ptrs c).
  { apply elem_of_app in Hin as [Hin | Hin]; [exfalso; apply Hout, elem_of_app; by left |].
    apply elem_of_app in Hin as [Hin | Hin]; [done |].
    exfalso. apply Hout, elem_of_app. right. apply elem_of_app. by right. }
  exact (elem_of_sublist _ _ _ Hpc' (pruned_ptrs _ _ Hpc)).
Qed.

Lemma fold_removeNodes_takes (cond : Node -> bool) (doc0 : Node) (L : list Node)
    (doc : Node) (p : nat) :
  wf doc0 -> pruned doc0 doc -> (forall e, e ∈ L -> e ∈ descendants doc0) ->
  p ∈ ptrs doc ->
  p ∉ ptrs (fold_left (fun doc e => if cond e then removeNodes doc e else doc) L doc) ->
  exists e, e ∈ L /\ cond e = true /\ p ∈ ptrs e.
Proof.
  intros Hwf. revert doc. induction L as [|e L IH]; intros doc Hp HL Hin Hout; [done |].
  cbn [fold_left] in Hout.
  set (doc1 := if cond e then removeNodes doc e else doc) in *.
  assert (Hp1 : pruned doc0 doc1).
  { apply (pruned_trans _ doc); [done |]. unfold doc1.
    destruct (cond e); [apply removeNodes_pruned | apply pruned_refl]. }
  destruct (decide (p ∈ ptrs doc1)) as [Hin1 | Hout1].
  - destruct (IH doc1 Hp1 (fun e' He' => HL e' (list_elem_of_further _ _ _ He')) Hin1 Hout)
      as (e' & He' & Hc & Hpe).
    exists e'. split; [by right | done].
  - exists e. split; [by left |]. unfold doc1 in Hout1.
    destruct (cond e) eqn:Hc; [| done]. split; [done |].
    apply (removeNodes_takes doc0 doc); [done | done | apply HL; by left | done | done].
Qed.

(** [cleanConditionally] does nothing when the flag is off.  When it is
    on, it only cuts subtrees out, and on a well-formed tree whatever it
    takes out lies in a table, ul or div of the selection that fails its
    test: nothing else leaves the tree. *)
Theorem cleanConditionally_takes_only_failing_blocks (d : Document) (doc : Node)
    (s : list Node) :
  (CleanConditionally d = false -> cleanConditionally d doc s = doc) /\
  pruned doc (cleanConditionally d doc s) /\
  (wf doc -> (forall b, b ∈ s -> b ∈ descendants doc) ->
   forall p, p ∈ ptrs doc -> p ∉ ptrs (cleanConditionally d doc s) ->
   exists e, e ∈ FindAll (Tags ["table"; "ul"; "div"]) s /\
             cleanConditionallyTest d e = true /\ p ∈ ptrs e).
Proof.
  unfold cleanConditionally. split; [by intros -> |]. split.
  - destruct (negb _); [apply pruned_refl |]. apply fold_left_pruned.
    intros doc' e. destruct (cleanConditionallyTest d e);
      [apply removeNodes_pruned | apply pruned_refl].
  - intros Hwf Hs p Hin Hout. destruct (negb _); [done |].
    apply (fold_removeNodes_takes (cleanConditionallyTest d) doc _ doc p);
      [done | apply pruned_refl | | done | done].
    intros e He%uniq_subset.
    apply list_elem_of_In, in_flat_map in He as (b & Hb & He).
    apply list_elem_of_In, Find_descendant in He as [He _].
    apply (descendants_trans _ b); [apply Hs; by apply list_elem_of_In | done].
Qed.

Lemma cleanConditionally_takes_only_failing_blocks_witness :
  let d := exampleDocument sidebarTree in
  let body :=
    elem 3 "body" []
      [elem 4 "div" [mkAttr "id" "sidebar"] [elem 5 "p" [] [text 6 "An advertisement"]];
       elem 7 "div" [mkAttr "class" "story"] [elem 8 "p" [] [text 9 "The story, at last."]]] in
  wf sidebarTree /\
  (forall b, b ∈ [body] -> b ∈ descendants sidebarTree) /\
  ptrs (cleanConditionally d sidebarTree [body]) = [0; 1; 2; 3]%nat /\
  exists e, e ∈ FindAll (Tags ["table"; "ul"; "div"]) [body] /\
            cleanConditionallyTest d e = true /\ 5%nat ∈ ptrs e.
Proof.
  intros d body.
  assert (Hwf : wf sidebarTree) by (apply wf_by_computation; vm_compute; reflexivity).
  assert (Hs : forall b, b ∈ [body] -> b ∈ descendants sidebarTree).
  { intros b ->%list_elem_of_singleton. apply list_elem_of_In. vm_compute. do 2 right. by left. }
  assert (Hptrs : ptrs (cleanConditionally d sidebarTree [body]) = [0; 1; 2; 3]%nat)
    by (vm_compute; reflexivity).
  split; [exact Hwf |]. split; [exact Hs |]. split; [exact Hptrs |].
  destruct (cleanConditionally_takes_only_failing_blocks d sidebarTree [body])
    as (_ & _ & Htakes).
  apply (Htakes Hwf Hs 5%nat).
  - apply list_elem_of_In. vm_compute. do 5 right. by left.
  - rewrite Hptrs. intros Hin. repeat (apply elem_of_cons in Hin as [? | Hin]; [done |]).
    by apply elem_of_nil in Hin.
Defined.

(** ** [prepareCandidates] on a tree of the parser *)

Lemma hang_unfold (sl : Selector) (n : Node) :
  hang_from_elements sl n
  = forallb (fun c => (negb (matches sl c) || is_element n) && hang_from_elements sl c)
      (children n).
Proof. by destruct n. Qed.

Lemma hang_pruned (sl : Selector) (n m : Node) :
  pruned n m -> hang_from_elements sl n = true -> hang_from_elements sl m = true.
Proof.
  revert m. induction n as [p t d a ks IH] using Node_forall_ind.
  intros m Hp. inversion Hp as [? ? ? ? ? ms Hks]; subst.
  rewrite !hang_unfold. cbn [children].
  assert (He : is_element (mkNode p t d a ms) = is_element (mkNode p t d a ks)) by done.
  rewrite He. generalize (is_element (mkNode p t d a ks)). intros pe. clear He Hp.
  induction Hks as [|k ks ms Hks IHks|k m ks ms Hkm Hks IHks]; [done | |].
  - apply Forall_cons in IH as [_ IH]. cbn [forallb].
    intros [_ ?]%andb_true_iff. by apply IHks.
  - apply Forall_cons in IH as [IHk IH]. cbn [forallb].
    intros [[Hk1 Hk2]%andb_true_iff ?]%andb_true_iff.
    rewrite (pruned_matches sl _ _ Hkm), Hk1, (IHk _ Hkm Hk2). by apply IHks.
Qed.

Lemma hang_mono (sl sl' : Selector) (n : Node) :
  (forall c, matches sl' c = true -> matches sl c = true) ->
  hang_from_elements sl n = true -> hang_from_elements sl' n = true.
Proof.
  intros Hsub. induction n as [p t d a ks IH] using Node_forall_ind.
  rewrite !hang_unfold. cbn [children].
  generalize (is_element (mkNode p t d a ks)). intros pe.
  induction ks as [|k ks IHks]; [done |].
  apply Forall_cons in IH as [IHk IH]. cbn [forallb].
  intros [[Hk1 Hk2]%andb_true_iff Hks]%andb_true_iff.
  rewrite (IHk Hk2), (IHks IH Hks). rewrite !andb_true_r.
  destruct (matches sl' k) eqn:Hm; [| done].
  by rewrite (Hsub _ Hm) in Hk1.
Qed.

Lemma divsToParagraphs_matches `{Externals} (c : Node) :
  matches (Tags paragraphTags) (divsToParagraphs c) = true ->
  matches (Tags paragraphTags) c = true.
Proof.
  destruct c as [p t d a ks]. cbn [divsToParagraphs].
  destruct (matches (Tags ["header"; "footer"; "article"; "div"]) (mkNode p t d a ks)
            && negb (divToPElementsRegexp (Html (mkNode p t d a ks)))) eqn:Hm; [| done].
  intros _. apply andb_true_iff in Hm as [Hm _].
  unfold matches in *. apply andb_true_iff in Hm as [He Hd%bool_decide_eq_true].
  apply andb_true_iff. split; [done |].
  apply bool_decide_eq_true. cbn [Data] in *. unfold paragraphTags. set_solver.
Qed.

Lemma hang_divsToParagraphs `{Externals} (n : Node) :
  hang_from_elements (Tags paragraphTags) n = true ->
  hang_from_elements (Tags paragraphTags) (divsToParagraphs n) = true.
Proof.
  induction n as [p t d a ks IH] using Node_forall_ind.
  rewrite !hang_unfold. cbn [divsToParagraphs children].
  assert (He : forall d', is_element (mkNode p t d' a (map divsToParagraphs ks))
                          = is_element (mkNode p t d a ks)) by done.
  rewrite He. generalize (is_element (mkNode p t d a ks)). intros pe. clear He.
  induction ks as [|k ks IHks]; [done |].
  apply Forall_cons in IH as [IHk IH]. cbn [forallb map].
  intros [[Hk1 Hk2]%andb_true_iff Hks]%andb_true_iff.
  rewrite (IHk Hk2), (IHks IH Hks). rewrite !andb_true_r.
  destruct (matches (Tags paragraphTags) (divsToParagraphs k)) eqn:Hm; [| done].
  by rewrite (divsToParagraphs_matches _ Hm) in Hk1.
Qed.

Lemma hang_divsToParagraphs_forest `{Externals} (pe : bool) (ks : list Node) :
  forallb (fun c => (negb (matches (Tags paragraphTags) c) || pe)
                    && hang_from_elements (Tags paragraphTags) c) ks = true ->
  forallb (fun c => (negb (matches (Tags paragraphTags) c) || pe)
                    && hang_from_elements (Tags paragraphTags) c)
    (map divsToParagraphs ks) = true.
Proof.
  induction ks as [|k ks IHks]; [done |]. cbn [forallb map].
  intros [[Hk1 Hk2]%andb_true_iff Hks]%andb_true_iff.
  rewrite (hang_divsToParagraphs _ Hk2), (IHks Hks). rewrite !andb_true_r.
  destruct (matches (Tags paragraphTags) (divsToParagraphs k)) eqn:Hm; [| done].
  by rewrite (divsToParagraphs_matches _ Hm) in Hk1.
Qed.

Lemma hang_descendant (sl : Selector) (n x : Node) :
  hang_from_elements sl n = true -> x ∈ descendants n -> hang_from_elements sl x = true.
Proof.
  induction n as [p t d a ks IH] using Node_forall_ind.
  rewrite hang_unfold, descendants_unfold. cbn [children].
  intros Hh (k & Hk & Hx)%descendants_forest.
  rewrite forallb_forall in Hh. rewrite Forall_forall in IH.
  pose proof (Hh k (proj1 (list_elem_of_In _ _) Hk)) as [_ Hhk]%andb_true_iff.
  destruct Hx as [-> | Hx]; [done | by apply (IH k Hk)].
Qed.

Lemma hang_Parent (sl : Selector) (n s : Node) :
  wf n -> hang_from_elements sl n = true -> s ∈ Find sl n -> is_Some (Parent n s).
Proof.
  intros Hwf Hh [Hs Hm]%Find_descendant.
  destruct (lookup_with_parent_self n s Hwf Hs) as [par Hl].
  destruct (lookup_with_parent_Some _ _ _ _ Hl) as (Hpar & Hc & _).
  assert (Hhp : hang_from_elements sl par = true).
  { destruct Hpar as [-> | Hpar]; [done | by apply (hang_descendant sl n)]. }
  rewrite hang_unfold, forallb_forall in Hhp.
  pose proof (Hhp s (proj1 (list_elem_of_In _ _) Hc)) as [He _]%andb_true_iff.
  rewrite Hm in He. simpl in He.
  unfold Parent. rewrite Hl, He. by eexists.
Qed.

Lemma scoreParagraphsLoop_returns (d : Document) (m : Z) (ps : list Node)
    (cs : gmap nat candidate) :
  (forall s, s ∈ ps -> is_Some (Parent (document d) s)) ->
  is_Some (scoreParagraphsLoop d m cs ps).
Proof.
  revert cs. induction ps as [|s ps IH]; intros cs Hps; simpl; [by eexists |].
  destruct (Hps s) as [par Hpar]; [by left |].
  assert (Hstep : is_Some (scoreParagraph d m cs s)).
  { unfold scoreParagraph. rewrite Hpar. destruct (_ <? _)%Z; by eexists. }
  destruct Hstep as [cs' ->]. apply IH. intros s' Hs'. apply Hps. by right.
Qed.

(** On a well-formed tree in which every p, td, header, footer, article
    and div hangs from an element, as in any tree of the parser,
    [prepareCandidates] returns: [parent.Get(0)] is never called on an empty
    selection.  The document it returns has the settings it was given and a
    well-formed tree with no address that was not in the tree before. *)
Theorem prepareCandidates_returns `{Externals} (d : Document) :
  wf (document d) ->
  hang_from_elements (Tags paragraphTags) (document d) = true ->
  exists d',
    prepareCandidates d = Some d' /\
    sameSettings d d' /\
    wf (document d') /\
    sublist (ptrs (document d')) (ptrs (document d)).
Proof.
  intros Hwf Hh.
  pose (d2 := if RemoveUnlikelyCandidates (removeNonContent d)
              then removeUnlikelyCandidates (removeNonContent d) else removeNonContent d).
  assert (Hp2 : pruned (document d) (document d2)).
  { unfold d2. destruct (RemoveUnlikelyCandidates _).
    - apply (pruned_trans _ (document (removeNonContent d))).
      + apply fold_left_pruned, removeNodes_pruned.
      + apply removeUnlikelyCandidates_pruned.
    - apply fold_left_pruned, removeNodes_pruned. }
  assert (Hwf2 : wf (document d2)) by (by apply (pruned_wf (document d))).
  assert (Hh2 : hang_from_elements (Tags paragraphTags) (document d2) = true)
    by (by apply (hang_pruned _ (document d))).
  pose (d3 := transformMisusedDivsIntoParagraphs d2).
  assert (E3 : document d3
               = mkNode (ptr (document d2)) (Type_ (document d2)) (Data (document d2))
                   (Attr (document d2)) (map divsToParagraphs (children (document d2))))
    by (by apply transformMisusedDivsIntoParagraphs_document).
  assert (Hptrs3 : ptrs (document d3) = ptrs (document d2)).
  { rewrite E3, !ptrs_unfold. cbn [ptr children]. f_equal.
    apply divsToParagraphs_ptrs_forest. }
  assert (Hwf3 : wf (document d3)) by (unfold wf; by rewrite Hptrs3).
  assert (Hh3 : hang_from_elements (Tags ["p"; "td"]) (document d3) = true).
  { apply (hang_mono (Tags paragraphTags)).
    { intros c. unfold matches, paragraphTags. destruct (is_element c); [| done]. simpl.
      intros Hc%bool_decide_eq_true. apply bool_decide_eq_true. set_solver. }
    rewrite E3, hang_unfold. cbn [children].
    rewrite hang_unfold in Hh2.
    assert (He : is_element (mkNode (ptr (document d2)) (Type_ (document d2))
                               (Data (document d2)) (Attr (document d2))
                               (map divsToParagraphs (children (document d2))))
                 = is_element (document d2)) by done.
    rewrite He. by apply hang_divsToParagraphs_forest. }
  destruct (scoreParagraphsLoop_returns d3 (MinTextLength d3) (Find (Tags ["p"; "td"]) (document d3)) ∅)
    as [cs Hcs].
  { intros s Hs. by apply (hang_Parent (Tags ["p"; "td"])). }
  eexists. split.
  { unfold prepareCandidates, scoreParagraphs. fold d2. fold d3. by rewrite Hcs. }
  split.
  { unfold sameSettings, d3, d2. simpl. by destruct (RemoveUnlikelyCandidates d) eqn:E. }
  split; [done |].
  cbn [document selectBestCandidate setBestCandidate setCandidates].
  rewrite Hptrs3. by apply pruned_ptrs.
Qed.

Lemma prepareCandidates_returns_witness :
  let E := exampleExternals [] in
  let d := exampleDocument betweenParagraphsTree in
  let stray :=
    mkNode 0 DocumentNode "" []
      [elem 1 "p" [] [text 2 "A paragraph that hangs from the document node."]] in
  wf (document d) /\
  hang_from_elements (Tags paragraphTags) (document d) = true /\
  is_Some (prepareCandidates d) /\
  hang_from_elements (Tags paragraphTags) stray = false /\
  prepareCandidates (exampleDocument stray) = None.
Proof.
  intros E d stray.
  assert (Hwf : wf (document d)) by (apply wf_by_computation; vm_compute; reflexivity).
  assert (Hh : hang_from_elements (Tags paragraphTags) (document d) = true)
    by (vm_compute; reflexivity).
  split; [exact Hwf |]. split; [exact Hh |].
  split; [| split; vm_compute; reflexivity].
  destruct (prepareCandidates_returns d Hwf Hh) as (d' & Hd' & _).
  rewrite Hd'. by eexists.
Defined.



(** ** The patterns do not look at the case of ASCII letters *)

Lemma lower_ascii_idemp (c : ascii) : Str.lower_ascii (Str.lower_ascii c) = Str.lower_ascii c.
Proof. destruct c as [[] [] [] [] [] [] [] []]; reflexivity. Qed.

Lemma lower_ascii_high (c : ascii) :
  (Ascii.nat_of_ascii (Str.lower_ascii c) =? 197)%nat = (Ascii.nat_of_ascii c =? 197)%nat /\
  (Ascii.nat_of_ascii (Str.lower_ascii c) =? 226)%nat = (Ascii.nat_of_ascii c =? 226)%nat /\
  (Ascii.nat_of_ascii (Str.lower_ascii c) =? 191)%nat = (Ascii.nat_of_ascii c =? 191)%nat /\
  (Ascii.nat_of_ascii (Str.lower_ascii c) =? 132)%nat = (Ascii.nat_of_ascii c =? 132)%nat /\
  (Ascii.nat_of_ascii (Str.lower_ascii c) =? 170)%nat = (Ascii.nat_of_ascii c =? 170)%nat.
Proof. destruct c as [[] [] [] [] [] [] [] []]; vm_compute; done. Qed.

Lemma lower_ascii_fixed (c : ascii) :
  (Ascii.nat_of_ascii c =? 197)%nat || (Ascii.nat_of_ascii c =? 226)%nat = true ->
  Str.lower_ascii c = c.
Proof. destruct c as [[] [] [] [] [] [] [] []]; vm_compute; done. Qed.

(** [fold_case] by the first byte. *)
Lemma fold_case_unfold (c : ascii) (s : string) :
  Str.fold_case (String c s)
  = if (Ascii.nat_of_ascii c =? 197)%nat then
      match s with
      | String c1 s1 =>
          if (Ascii.nat_of_ascii c1 =? 191)%nat then String "s"%char (Str.fold_case s1)
          else String c (Str.fold_case s)
      | EmptyString => String (Str.lower_ascii c) (Str.fold_case s)
      end
    else if (Ascii.nat_of_ascii c =? 226)%nat then
      match s with
      | String c1 (String c2 s2) =>
          if (Ascii.nat_of_ascii c1 =? 132)%nat && (Ascii.nat_of_ascii c2 =? 170)%nat
          then String "k"%char (Str.fold_case s2)
          else String c (Str.fold_case s)
      | _ => String (Str.lower_ascii c) (Str.fold_case s)
      end
    else String (Str.lower_ascii c) (Str.fold_case s).
Proof.
  destruct c as [[] [] [] [] [] [] [] []];
    try reflexivity; destruct s as [|c1 [|c2 s2]]; reflexivity.
Qed.

Lemma fold_case_ToLower_bounded (n : nat) (s : string) :
  (String.length s <= n)%nat -> Str.fold_case (Str.ToLower s) = Str.fold_case s.
Proof.
  revert s. induction n as [|n IH]; intros s Hn.
  { destruct s; [done | simpl in Hn; lia]. }
  destruct s as [|c s]; [done |].
  cbn [Str.ToLower String.length] in *.
  destruct (lower_ascii_high c) as (H197 & H226 & _).
  rewrite !fold_case_unfold, H197, H226, lower_ascii_idemp.
  destruct (Ascii.nat_of_ascii c =? 197)%nat eqn:E197.
  - rewrite (lower_ascii_fixed c) by (by rewrite E197).
    destruct s as [|c1 s1]; [done |]. cbn [Str.ToLower].
    destruct (lower_ascii_high c1) as (_ & _ & H191 & _). rewrite H191.
    destruct (Ascii.nat_of_ascii c1 =? 191)%nat.
    + f_equal. apply IH. simpl in Hn. lia.
    + f_equal. apply (IH (String c1 s1)). lia.
  - destruct (Ascii.nat_of_ascii c =? 226)%nat eqn:E226.
    + rewrite (lower_ascii_fixed c) by (rewrite E226; apply orb_true_r).
      destruct s as [|c1 [|c2 s2]]; [done | |].
      * cbn [Str.ToLower]. f_equal. apply (IH (String c1 "")). lia.
      * cbn [Str.ToLower].
        destruct (lower_ascii_high c1) as (_ & _ & _ & H132 & _).
        destruct (lower_ascii_high c2) as (_ & _ & _ & _ & H170).
        rewrite H132, H170.
        destruct ((Ascii.nat_of_ascii c1 =? 132)%nat && (Ascii.nat_of_ascii c2 =? 170)%nat).
        -- f_equal. apply IH. simpl in Hn. lia.
        -- f_equal. apply (IH (String c1 (String c2 s2))). lia.
    + f_equal. apply IH. lia.
Qed.

(** The patterns of the package, all compiled with [(?i)], give the same
    answer on a text and on the text with its ASCII capitals turned into
    small letters: a class [SideBar] is an unlikely candidate as [sidebar]
    is. *)
Theorem patterns_ignore_ascii_case (s : string) :
  (forall words, Str.match_words words (Str.ToLower s) = Str.match_words words s) /\
  blacklistCandidatesRegexp (Str.ToLower s) = blacklistCandidatesRegexp s /\
  okMaybeItsACandidateRegexp (Str.ToLower s) = okMaybeItsACandidateRegexp s /\
  unlikelyCandidatesRegexp (Str.ToLower s) = unlikelyCandidatesRegexp s /\
  divToPElementsRegexp (Str.ToLower s) = divToPElementsRegexp s /\
  okMaybeItsAHeaderFooterRegexp (Str.ToLower s) = okMaybeItsAHeaderFooterRegexp s /\
  negativeRegexp (Str.ToLower s) = negativeRegexp s /\
  positiveRegexp (Str.ToLower s) = positiveRegexp s.
Proof.
  assert (Hfold : Str.fold_case (Str.ToLower s) = Str.fold_case s)
    by (by apply (fold_case_ToLower_bounded (String.length s))).
  assert (Hwords : forall words,
            Str.match_words words (Str.ToLower s) = Str.match_words words s).
  { intros words. unfold Str.match_words. by rewrite Hfold. }
  split; [done |].
  unfold blacklistCandidatesRegexp, okMaybeItsACandidateRegexp, unlikelyCandidatesRegexp,
    divToPElementsRegexp, okMaybeItsAHeaderFooterRegexp, negativeRegexp, positiveRegexp.
  by rewrite !Hwords.
Qed.
